(** * Fee allocation of the distribution keeper

    A shallow embedding of [x/distribution/keeper/allocation.go]:
    [AllocateTokens], [AllocateTokensToValidator] and
    [SendDecimalPoolToCommunityPool], together with the parts of
    [cosmossdk.io/math] (LegacyDec) and of the SDK coin types (Coins,
    DecCoins) those three functions call.

    The code is embedded twice.  Module [keeper] is the cycle with sound
    collaborators and its goroutines run one after the other; module
    [concurrent] lets every collaborator call fail and interleaves the
    goroutines by a schedule.  The first is the second at no fault and the
    empty schedule. *)

From stdpp Require Import base numbers option gmap strings list fin_maps.

#[local] Open Scope Z_scope.

(** ** cosmossdk.io/math: LegacyDec

    A LegacyDec is a big integer counting units of 10^-18 (math/dec.go).
    The package is imported by allocation.go and is not part of the file;
    the operations below are the library's.  [Mul] multiplies the two big
    integers and removes the 18 extra digits with chopPrecisionAndRound,
    that is with banker's rounding; [MulTruncate] and [QuoTruncate] remove
    them with chopPrecisionAndTruncate, that is with big.Int.Quo, which
    rounds toward zero; [QuoTruncate] panics on a zero divisor.  The
    316-bit overflow guard of the library is outside the model: amounts
    are unbounded integers. *)
Module LegacyDec.

Definition Precision : Z := 18.
Definition precisionReuse : Z := 10 ^ Precision.
Definition fivePrecision : Z := precisionReuse `quot` 2.

Definition LegacyNewDec (i : Z) : Z := i * precisionReuse.
Definition LegacyOneDec : Z := precisionReuse.

Definition Add (d d2 : Z) : Z := d + d2.
Definition Sub (d d2 : Z) : Z := d - d2.
Definition Neg (d : Z) : Z := - d.

(** chopPrecisionAndRound on a non-negative big integer. *)
Definition chopRoundNonneg (d : Z) : Z :=
  let quo := d `quot` precisionReuse in
  let rem := d `rem` precisionReuse in
  if bool_decide (rem = 0) then quo
  else match rem ?= fivePrecision with
       | Lt => quo
       | Gt => quo + 1
       | Eq => if Z.even quo then quo else quo + 1
       end.

Definition chopPrecisionAndRound (d : Z) : Z :=
  if bool_decide (d < 0) then - chopRoundNonneg (- d) else chopRoundNonneg d.

Definition chopPrecisionAndTruncate (d : Z) : Z := d `quot` precisionReuse.

Definition Mul (d d2 : Z) : Z := chopPrecisionAndRound (d * d2).
Definition MulTruncate (d d2 : Z) : Z := chopPrecisionAndTruncate (d * d2).

(** [None] is the division-by-zero panic of big.Int.Quo. *)
Definition QuoTruncate (d d2 : Z) : option Z :=
  if bool_decide (d2 = 0) then None
  else Some (chopPrecisionAndTruncate
               ((d * (precisionReuse * precisionReuse)) `quot` d2)).

Definition TruncateInt (d : Z) : Z := chopPrecisionAndTruncate d.
Definition LegacyNewDecFromInt (i : Z) : Z := i * precisionReuse.

End LegacyDec.

(** ** sdk.Coins and sdk.DecCoins

    The coin sets of types/coin.go and types/dec_coin.go, not part of the
    file either.  A valid coin set is sorted by denomination, has no
    duplicate denomination and no zero amount; it is modelled by the
    finite map from its denominations to their amounts (whole units for
    Coins, units of 10^-18 for DecCoins).  The operations drop zero
    amounts exactly where the SDK does, and [None] stands for the SDK's
    panics: [Sub] panics on a negative difference, NewCoin and
    NewDecCoinFromDec on a negative amount. *)
Abbreviation Coins := (gmap string Z).
Abbreviation DecCoins := (gmap string Z).

Module sdk.
Import LegacyDec.

Definition AmountOf (coins : gmap string Z) (denom : string) : Z :=
  default 0 (coins !! denom).

Definition nonzero (a : Z) : option Z :=
  if bool_decide (a = 0) then None else Some a.

(** DecCoins.safeAdd : denomination-wise sum, zero sums left out. *)
Definition safeAdd (coins coinsB : gmap string Z) : gmap string Z :=
  merge (fun x y =>
           match x, y with
           | None, None => None
           | _, _ => nonzero (LegacyDec.Add (default 0 x) (default 0 y))
           end) coins coinsB.

Definition Add (coins coinsB : gmap string Z) : gmap string Z :=
  safeAdd coins coinsB.

Definition negative (coins : gmap string Z) : gmap string Z :=
  LegacyDec.Neg <$> coins.

Definition IsAnyNegative (coins : gmap string Z) : bool :=
  negb (bool_decide (map_Forall (fun _ a => 0 <= a) coins)).

Definition SafeSub (coins coinsB : gmap string Z) : gmap string Z * bool :=
  let diff := safeAdd coins (negative coinsB) in
  (diff, IsAnyNegative diff).

(** DecCoins.Sub panics with "negative coin amount". *)
Definition Sub (coins coinsB : gmap string Z) : option (gmap string Z) :=
  let '(diff, hasNeg) := SafeSub coins coinsB in
  if hasNeg then None else Some diff.

Definition IsZero (coins : gmap string Z) : bool :=
  bool_decide (map_Forall (fun _ a => a = 0) coins).

(** DecCoins.MulDec: every amount times [d] with [LegacyDec.Mul], zero
    products left out. *)
Definition MulDec (coins : gmap string Z) (d : Z) : gmap string Z :=
  omap (fun a => nonzero (LegacyDec.Mul a d)) coins.

(** DecCoins.MulDecTruncate: the same with [LegacyDec.MulTruncate]. *)
Definition MulDecTruncate (coins : gmap string Z) (d : Z) : gmap string Z :=
  omap (fun a => nonzero (LegacyDec.MulTruncate a d)) coins.

(** DecCoin.TruncateDecimal: NewCoin and NewDecCoinFromDec both panic on
    a negative amount. *)
Definition DecCoin_TruncateDecimal (amount : Z) : option (Z * Z) :=
  let truncated := TruncateInt amount in
  let change := LegacyDec.Sub amount (LegacyNewDecFromInt truncated) in
  if bool_decide (truncated < 0) then None
  else if bool_decide (change < 0) then None
  else Some (truncated, change).

Definition TruncateDecimal (coins : gmap string Z)
  : option (gmap string Z * gmap string Z) :=
  if bool_decide (map_Forall (fun _ a => is_Some (DecCoin_TruncateDecimal a)) coins)
  then Some (omap (fun a => nonzero (TruncateInt a)) coins,
             omap (fun a => nonzero (LegacyDec.Sub a (LegacyNewDecFromInt (TruncateInt a)))) coins)
  else None.

(** NewDecCoinsFromCoins: NewCoins validates (panic on a negative amount)
    and removes zero coins. *)
Definition NewDecCoinsFromCoins (coins : gmap string Z) : option (gmap string Z) :=
  if IsAnyNegative coins then None
  else Some (omap (fun a => nonzero (LegacyNewDecFromInt a)) coins).

End sdk.

(** ** Collaborator types *)

(** Errors are values; [ErrNotFound] is collections.ErrNotFound. *)
Inductive error : Type :=
| ErrNotFound
| ErrInsufficientFunds
| ErrOther (msg : string).

Definition errors_Is (err target : error) : bool :=
  match err, target with
  | ErrNotFound, ErrNotFound => true
  | ErrInsufficientFunds, ErrInsufficientFunds => true
  | ErrOther m, ErrOther m' => bool_decide (m = m')
  | _, _ => false
  end.

Module comet.
Record Validator := { Address : string; Power : Z }.
Record VoteInfo := { Validator_ : Validator }.
End comet.

Module stakingtypes.
(** What allocation.go uses of stakingtypes.ValidatorI. *)
Record ValidatorI := { GetOperator : string; GetCommission : Z }.
End stakingtypes.

Module types.
Record FeePool := { DecimalPool : DecCoins }.
Record Params := { CommunityTax : Z }.
Record ValidatorAccumulatedCommission := { Commission : DecCoins }.
Record ValidatorCurrentRewards := { Rewards : DecCoins; Period : N }.
Record ValidatorOutstandingRewards := { Rewards_ : DecCoins }.

Inductive EventType := EventTypeCommission | EventTypeRewards.
Record Event :=
  { Type_ : EventType; AttributeKeyAmount : DecCoins; AttributeKeyValidator : string }.

(** The module accounts the three functions move coins between. *)
Inductive ModuleAccount := feeCollectorName | ModuleName | protocolpoolModuleName.
End types.

Module keeper.
Import LegacyDec types.

(** The staking keeper: validator directory and operator-address codec. *)
Record StakingKeeper :=
  { ValidatorByConsAddr : string -> error + stakingtypes.ValidatorI;
    StringToBytes : string -> error + string }.

(** Balances of the module accounts, as the bank keeper (x/bank) holds
    them. *)
Record Bank :=
  { feeCollector : Coins; distribution : Coins; protocolpool : Coins }.

Definition balance (b : Bank) (acc : ModuleAccount) : Coins :=
  match acc with
  | feeCollectorName => feeCollector b
  | ModuleName => distribution b
  | protocolpoolModuleName => protocolpool b
  end.

Definition setBalance (b : Bank) (acc : ModuleAccount) (c : Coins) : Bank :=
  match acc with
  | feeCollectorName =>
      {| feeCollector := c; distribution := distribution b; protocolpool := protocolpool b |}
  | ModuleName =>
      {| feeCollector := feeCollector b; distribution := c; protocolpool := protocolpool b |}
  | protocolpoolModuleName =>
      {| feeCollector := feeCollector b; distribution := distribution b; protocolpool := c |}
  end.

(** The stores the keeper reads and writes through its context. *)
Record Store :=
  { bank : Bank;
    FeePool : option types.FeePool;
    Params : option types.Params;
    ValidatorsAccumulatedCommission : gmap string ValidatorAccumulatedCommission;
    ValidatorCurrentRewards : gmap string types.ValidatorCurrentRewards;
    ValidatorOutstandingRewards : gmap string types.ValidatorOutstandingRewards }.

(** The context: the stores and the events emitted so far. *)
Record State := { store : Store; events : list Event }.

Definition withBank (st : Store) (b : Bank) : Store :=
  {| bank := b; FeePool := FeePool st; Params := Params st;
     ValidatorsAccumulatedCommission := ValidatorsAccumulatedCommission st;
     ValidatorCurrentRewards := ValidatorCurrentRewards st;
     ValidatorOutstandingRewards := ValidatorOutstandingRewards st |}.

Definition withFeePool (st : Store) (p : option types.FeePool) : Store :=
  {| bank := bank st; FeePool := p; Params := Params st;
     ValidatorsAccumulatedCommission := ValidatorsAccumulatedCommission st;
     ValidatorCurrentRewards := ValidatorCurrentRewards st;
     ValidatorOutstandingRewards := ValidatorOutstandingRewards st |}.

Definition withCommission (st : Store) (m : gmap string ValidatorAccumulatedCommission) : Store :=
  {| bank := bank st; FeePool := FeePool st; Params := Params st;
     ValidatorsAccumulatedCommission := m;
     ValidatorCurrentRewards := ValidatorCurrentRewards st;
     ValidatorOutstandingRewards := ValidatorOutstandingRewards st |}.

Definition withCurrent (st : Store) (m : gmap string types.ValidatorCurrentRewards) : Store :=
  {| bank := bank st; FeePool := FeePool st; Params := Params st;
     ValidatorsAccumulatedCommission := ValidatorsAccumulatedCommission st;
     ValidatorCurrentRewards := m;
     ValidatorOutstandingRewards := ValidatorOutstandingRewards st |}.

Definition withOutstanding (st : Store) (m : gmap string types.ValidatorOutstandingRewards) : Store :=
  {| bank := bank st; FeePool := FeePool st; Params := Params st;
     ValidatorsAccumulatedCommission := ValidatorsAccumulatedCommission st;
     ValidatorCurrentRewards := ValidatorCurrentRewards st;
     ValidatorOutstandingRewards := m |}.

(** *** Calls that may return an error or panic

    A call either returns a value, returns a non-nil [error], or panics.
    State written before an error is returned stays written. *)
Inductive Result (A : Type) : Type :=
| Ok (a : A) (s : State)
| Err (e : error) (s : State)
| Panic.
Arguments Ok {A} a s.
Arguments Err {A} e s.
Arguments Panic {A}.

Definition M (A : Type) : Type := State -> Result A.

Definition ret {A} (a : A) : M A := fun s => Ok a s.

Definition bind {A B} (m : M A) (f : A -> M B) : M B :=
  fun s => match m s with
           | Ok a s' => f a s'
           | Err e s' => Err e s'
           | Panic => Panic
           end.

Definition fail {A} (e : error) : M A := fun s => Err e s.
Definition panic {A} : M A := fun _ => Panic.

Definition orPanic {A} (o : option A) : M A :=
  match o with Some a => ret a | None => panic end.

Definition orFail {A} (r : error + A) : M A :=
  match r with inr a => ret a | inl e => fail e end.

Definition gets {A} (f : Store -> A) : M A := fun s => Ok (f (store s)) s.
Definition modify (f : Store -> Store) : M unit :=
  fun s => Ok tt {| store := f (store s); events := events s |}.

#[local] Notation "'let*' x ':=' m 'in' k" := (bind m (fun x => k))
  (at level 10, x name, m at level 100, k at level 200).
#[local] Notation "'let*' ' pat ':=' m 'in' k" :=
  (bind m (fun x => match x with pat => k end))
  (at level 10, pat pattern, m at level 100, k at level 200).
#[local] Notation "'do' m 'in' k" := (bind m (fun _ => k))
  (at level 10, m at level 100, k at level 200).

(** *** Bank keeper *)

Definition GetAllBalances (acc : ModuleAccount) : M Coins :=
  gets (fun st => balance (bank st) acc).

Definition hasFunds (have amt : Coins) : bool :=
  bool_decide (map_Forall (fun denom a => a <= sdk.AmountOf have denom) amt).

(** The sender is debited and the recipient credited, or nothing moves
    and the bank reports insufficient funds. *)
Definition SendCoinsFromModuleToModule
    (sender recipient : ModuleAccount) (amt : Coins) : M unit :=
  fun s =>
    let b := bank (store s) in
    if hasFunds (balance b sender) amt then
      let b1 := setBalance b sender (sdk.safeAdd (balance b sender) (sdk.negative amt)) in
      let b2 := setBalance b1 recipient (sdk.safeAdd (balance b1 recipient) amt) in
      Ok tt {| store := withBank (store s) b2; events := events s |}
    else Err ErrInsufficientFunds s.

(** *** Collections: two Items and three Maps

    [Get] on an absent key returns the zero value together with
    [ErrNotFound]; on an Item that is not set it returns [ErrNotFound].
    The stores have no other failure: what was written is read back, and
    [Set] returns nil. *)

Definition FeePool_Get : M types.FeePool :=
  fun s => match FeePool (store s) with
           | Some p => Ok p s
           | None => Err ErrNotFound s
           end.

Definition FeePool_Set (p : types.FeePool) : M unit :=
  modify (fun st => withFeePool st (Some p)).

Definition GetCommunityTax : M Z :=
  fun s => match Params (store s) with
           | Some p => Ok (CommunityTax p) s
           | None => Err ErrNotFound s
           end.

Definition Map_Get {V} (zero : V) (m : gmap string V) (key : string) : V * option error :=
  match m !! key with
  | Some v => (v, None)
  | None => (zero, Some ErrNotFound)
  end.

(** The zero values [Get] returns for an absent key. *)
Definition zeroCommission : ValidatorAccumulatedCommission := {| Commission := ∅ |}.
Definition zeroCurrentRewards : types.ValidatorCurrentRewards :=
  {| Rewards := ∅; Period := 0%N |}.
Definition zeroOutstanding : types.ValidatorOutstandingRewards := {| Rewards_ := ∅ |}.

Definition ValidatorsAccumulatedCommission_Get (key : string)
  : M (ValidatorAccumulatedCommission * option error) :=
  gets (fun st => Map_Get zeroCommission (ValidatorsAccumulatedCommission st) key).

Definition ValidatorsAccumulatedCommission_Set (key : string) (v : ValidatorAccumulatedCommission)
  : M unit :=
  modify (fun st => withCommission st (<[key := v]> (ValidatorsAccumulatedCommission st))).

Definition ValidatorCurrentRewards_Get (key : string)
  : M (types.ValidatorCurrentRewards * option error) :=
  gets (fun st => Map_Get zeroCurrentRewards (ValidatorCurrentRewards st) key).

Definition ValidatorCurrentRewards_Set (key : string) (v : types.ValidatorCurrentRewards)
  : M unit :=
  modify (fun st => withCurrent st (<[key := v]> (ValidatorCurrentRewards st))).

Definition ValidatorOutstandingRewards_Get (key : string)
  : M (types.ValidatorOutstandingRewards * option error) :=
  gets (fun st => Map_Get zeroOutstanding (ValidatorOutstandingRewards st) key).

Definition ValidatorOutstandingRewards_Set (key : string) (v : types.ValidatorOutstandingRewards)
  : M unit :=
  modify (fun st => withOutstanding st (<[key := v]> (ValidatorOutstandingRewards st))).

Definition EmitEvent (e : Event) : M unit :=
  fun s => Ok tt {| store := store s; events := events s ++ [e] |}.

(** [if err != nil && !errors.Is(err, collections.ErrNotFound) { return err }] *)
Definition returnUnlessNotFound {A} (err : option error) (k : M A) : M A :=
  match err with
  | Some e => if negb (errors_Is e ErrNotFound) then fail e else k
  | None => k
  end.

(** *** errgroup.Group

    The zero Group has no limit and no context: every function handed to
    [Go] runs to its end, and [Wait] returns the first non-nil error.
    The goroutines are run one after the other, in the order of the
    list; a goroutine that returns nil has sent its value on the
    channel.  A panic in a goroutine ends the program. *)
Fixpoint errgroup_run {A} (tasks : list (M A)) (gerr : option error) (ch : list A)
  : M (option error * list A) :=
  match tasks with
  | [] => ret (gerr, ch)
  | task :: rest =>
      fun s => match task s with
               | Ok a s' => errgroup_run rest gerr (ch ++ [a]) s'
               | Err e s' =>
                   errgroup_run rest (Some (default e gerr)) ch s'
               | Panic => Panic
               end
  end.

Section WithKeeper.
Variable stakingKeeper : StakingKeeper.

(** allocation.go, lines 106-165. *)
Definition AllocateTokensToValidator
    (val : stakingtypes.ValidatorI) (tokens : DecCoins) : M unit :=
  let commission := sdk.MulDec tokens (stakingtypes.GetCommission val) in
  let* shared := orPanic (sdk.Sub tokens commission) in
  let* valBz := orFail (StringToBytes stakingKeeper (stakingtypes.GetOperator val)) in
  do EmitEvent {| Type_ := EventTypeCommission; AttributeKeyAmount := commission;
                  AttributeKeyValidator := stakingtypes.GetOperator val |} in
  let* '(currentCommission, err) := ValidatorsAccumulatedCommission_Get valBz in
  returnUnlessNotFound err (
    let currentCommission :=
      {| Commission := sdk.Add (Commission currentCommission) commission |} in
    do ValidatorsAccumulatedCommission_Set valBz currentCommission in
    let* '(currentRewards, err) := ValidatorCurrentRewards_Get valBz in
    returnUnlessNotFound err (
      let currentRewards :=
        {| Rewards := sdk.Add (Rewards currentRewards) shared;
           Period := Period currentRewards |} in
      do ValidatorCurrentRewards_Set valBz currentRewards in
      do EmitEvent {| Type_ := EventTypeRewards; AttributeKeyAmount := tokens;
                      AttributeKeyValidator := stakingtypes.GetOperator val |} in
      let* '(outstanding, err) := ValidatorOutstandingRewards_Get valBz in
      returnUnlessNotFound err (
        let outstanding := {| Rewards_ := sdk.Add (Rewards_ outstanding) tokens |} in
        ValidatorOutstandingRewards_Set valBz outstanding))).

(** The body of the goroutine started for one vote (lines 63-78); the
    value returned is the one sent on [remainingCh]. *)
Definition voteTask (feeMultiplier : DecCoins) (totalPreviousPower : Z)
    (vote : comet.VoteInfo) : M DecCoins :=
  let* validator := orFail (ValidatorByConsAddr stakingKeeper
                              (comet.Address (comet.Validator_ vote))) in
  let* powerFraction := orPanic (QuoTruncate
                                   (LegacyNewDec (comet.Power (comet.Validator_ vote)))
                                   (LegacyNewDec totalPreviousPower)) in
  let reward := sdk.MulDecTruncate feeMultiplier powerFraction in
  do AllocateTokensToValidator validator reward in
  ret reward.

(** [for reward := range remainingCh { remaining = remaining.Sub(reward) }] *)
Fixpoint subRewards (remaining : DecCoins) (remainingCh : list DecCoins)
  : option DecCoins :=
  match remainingCh with
  | [] => Some remaining
  | reward :: rest =>
      match sdk.Sub remaining reward with
      | Some remaining' => subRewards remaining' rest
      | None => None
      end
  end.

(** allocation.go, lines 21-102. *)
Definition AllocateTokens (totalPreviousPower : Z)
    (bondedVotes : list comet.VoteInfo) : M unit :=
  let* feesCollectedInt := GetAllBalances feeCollectorName in
  let* feesCollected := orPanic (sdk.NewDecCoinsFromCoins feesCollectedInt) in
  do SendCoinsFromModuleToModule feeCollectorName ModuleName feesCollectedInt in
  let* feePool := FeePool_Get in
  do (if bool_decide (totalPreviousPower = 0)
      then FeePool_Set {| DecimalPool := sdk.Add (DecimalPool feePool) feesCollected |}
      else ret tt) in
  let remaining := feesCollected in
  let* communityTax := GetCommunityTax in
  let voteMultiplier := LegacyDec.Sub LegacyOneDec communityTax in
  let feeMultiplier := sdk.MulDecTruncate feesCollected voteMultiplier in
  let* '(gerr, remainingCh) :=
    errgroup_run (map (voteTask feeMultiplier totalPreviousPower) bondedVotes)
                 None [] in
  match gerr with
  | Some err => fail err
  | None =>
      let* remaining := orPanic (subRewards remaining remainingCh) in
      let* '(amt, re) := orPanic (sdk.TruncateDecimal remaining) in
      do SendCoinsFromModuleToModule ModuleName protocolpoolModuleName amt in
      FeePool_Set {| DecimalPool := sdk.Add (DecimalPool feePool) re |}
  end.

End WithKeeper.

(** allocation.go, lines 169-185. *)
Definition SendDecimalPoolToCommunityPool : M unit :=
  let* feePool := FeePool_Get in
  if sdk.IsZero (DecimalPool feePool) then ret tt
  else
    let* '(amt, re) := orPanic (sdk.TruncateDecimal (DecimalPool feePool)) in
    do SendCoinsFromModuleToModule ModuleName protocolpoolModuleName amt in
    FeePool_Set {| DecimalPool := re |}.

(** ** Reading the stores

    An absent accumulator record reads as its zero value. *)
Definition commissionAt (st : Store) (valBz : string) : DecCoins :=
  Commission (Map_Get zeroCommission (ValidatorsAccumulatedCommission st) valBz).1.

Definition currentAt (st : Store) (valBz : string) : DecCoins :=
  Rewards (Map_Get zeroCurrentRewards (ValidatorCurrentRewards st) valBz).1.

Definition periodAt (st : Store) (valBz : string) : N :=
  Period (Map_Get zeroCurrentRewards (ValidatorCurrentRewards st) valBz).1.

Definition outstandingAt (st : Store) (valBz : string) : DecCoins :=
  Rewards_ (Map_Get zeroOutstanding (ValidatorOutstandingRewards st) valBz).1.

(** The Decimal Remainder Pool (empty while the fee pool is not set). *)
Definition decimalPool (st : Store) : DecCoins :=
  match FeePool st with Some p => DecimalPool p | None => ∅ end.

(** The three writes of one successful [AllocateTokensToValidator]. *)
Definition allocateStore (valBz : string) (commission shared tokens : DecCoins)
    (st : Store) : Store :=
  {| bank := bank st; FeePool := FeePool st; Params := Params st;
     ValidatorsAccumulatedCommission :=
       <[valBz := {| Commission := sdk.Add (commissionAt st valBz) commission |}]>
         (ValidatorsAccumulatedCommission st);
     ValidatorCurrentRewards :=
       <[valBz := {| Rewards := sdk.Add (currentAt st valBz) shared;
                     Period := periodAt st valBz |}]>
         (ValidatorCurrentRewards st);
     ValidatorOutstandingRewards :=
       <[valBz := {| Rewards_ := sdk.Add (outstandingAt st valBz) tokens |}]>
         (ValidatorOutstandingRewards st) |}.

Definition commissionEvent (val : stakingtypes.ValidatorI) (commission : DecCoins) : Event :=
  {| Type_ := EventTypeCommission; AttributeKeyAmount := commission;
     AttributeKeyValidator := stakingtypes.GetOperator val |}.

Definition rewardsEvent (val : stakingtypes.ValidatorI) (tokens : DecCoins) : Event :=
  {| Type_ := EventTypeRewards; AttributeKeyAmount := tokens;
     AttributeKeyValidator := stakingtypes.GetOperator val |}.

(** The store key of the validator a vote names, when the directory knows
    the validator and the codec encodes its operator address. *)
Definition voteKey (sk : StakingKeeper) (vote : comet.VoteInfo) : option string :=
  match ValidatorByConsAddr sk (comet.Address (comet.Validator_ vote)) with
  | inr val =>
      match StringToBytes sk (stakingtypes.GetOperator val) with
      | inr valBz => Some valBz
      | inl _ => None
      end
  | inl _ => None
  end.

(** The voted validators, each once. *)
Definition votedValidators (sk : StakingKeeper) (votes : list comet.VoteInfo) : list string :=
  remove_dups (omap (voteKey sk) votes).

Definition sumZ (l : list Z) : Z := foldr Z.add 0 l.

Definition nonneg (coins : gmap string Z) : Prop :=
  forall denom, 0 <= sdk.AmountOf coins denom.

(** The state a call leaves behind, when it returns at all. *)
Definition stateOf {A} (r : Result A) : option State :=
  match r with
  | Ok _ s => Some s
  | Err _ s => Some s
  | Panic => None
  end.

(** No denomination is listed with a zero amount. *)
Definition zeroFree (coins : gmap string Z) : Prop :=
  forall denom, coins !! denom <> Some 0.

(** [OutstandingRewards[v] == AccumulatedCommission[v] + CurrentRewards[v]] *)
Definition outstandingRelation (st : Store) (valBz : string) : Prop :=
  outstandingAt st valBz = sdk.Add (commissionAt st valBz) (currentAt st valBz).

(** The store in which the three records of a validator are present and zero. *)
Definition withZeroRecords (st : Store) (valBz : string) : Store :=
  {| bank := bank st; FeePool := FeePool st; Params := Params st;
     ValidatorsAccumulatedCommission :=
       <[valBz := zeroCommission]> (ValidatorsAccumulatedCommission st);
     ValidatorCurrentRewards :=
       <[valBz := zeroCurrentRewards]> (ValidatorCurrentRewards st);
     ValidatorOutstandingRewards :=
       <[valBz := zeroOutstanding]> (ValidatorOutstandingRewards st) |}.

(** A small chain: three validators the directory knows, one of them with
    an operator address the codec rejects, and a fee collector holding 100
    stake; the community tax is 2%. *)
Module example.

Definition stake : string := "stake".

Definition valA : stakingtypes.ValidatorI :=
  {| stakingtypes.GetOperator := "cosmosvaloperA";
     stakingtypes.GetCommission := 100000000000000000 |}.

Definition valB : stakingtypes.ValidatorI :=
  {| stakingtypes.GetOperator := "cosmosvaloperB";
     stakingtypes.GetCommission := 100000000000000000 |}.

Definition valC : stakingtypes.ValidatorI :=
  {| stakingtypes.GetOperator := "cosmosvaloperC";
     stakingtypes.GetCommission := LegacyOneDec |}.

Definition valX : stakingtypes.ValidatorI :=
  {| stakingtypes.GetOperator := "not-bech32";
     stakingtypes.GetCommission := 100000000000000000 |}.

Definition stakingKeeper : StakingKeeper :=
  {| ValidatorByConsAddr addr :=
       if String.eqb addr "consA" then inr valA
       else if String.eqb addr "consB" then inr valB
       else if String.eqb addr "consC" then inr valC
       else if String.eqb addr "consX" then inr valX
       else inl (ErrOther "validator does not exist");
     StringToBytes operator :=
       if String.eqb operator "cosmosvaloperA" then inr "A"%string
       else if String.eqb operator "cosmosvaloperB" then inr "B"%string
       else if String.eqb operator "cosmosvaloperC" then inr "C"%string
       else inl (ErrOther "decoding bech32 failed") |}.

Definition vote (addr : string) (power : Z) : comet.VoteInfo :=
  {| comet.Validator_ := {| comet.Address := addr; comet.Power := power |} |}.

Definition genesisStore (fees : Coins) (pool : DecCoins) : Store :=
  {| bank := {| feeCollector := fees; distribution := ∅; protocolpool := ∅ |};
     FeePool := Some {| DecimalPool := pool |};
     Params := Some {| CommunityTax := 20000000000000000 |};
     ValidatorsAccumulatedCommission := ∅;
     ValidatorCurrentRewards := ∅;
     ValidatorOutstandingRewards := ∅ |}.

Definition genesis : State :=
  {| store := genesisStore {[ stake := 100 ]} ∅; events := [] |}.

End example.

(** What a call credited to the accumulated commission of [valBz]. *)
Definition creditedCommission (s s' : State) (valBz denom : string) : Z :=
  sdk.AmountOf (commissionAt (store s') valBz) denom
  - sdk.AmountOf (commissionAt (store s) valBz) denom.

(** ** The goroutines of one cycle, as data

    What the goroutine of a vote is going to do does not depend on the
    stores: it returns an error (unknown validator, codec failure), panics
    (zero total power, negative share), or writes the three records of
    one validator and sends its reward on the channel. *)
Inductive Plan : Type :=
| PlanErr (e : error)
| PlanPanic
| PlanOk (val : stakingtypes.ValidatorI) (valBz : string)
         (commission shared reward : DecCoins).

Definition votePlan (sk : StakingKeeper) (feeMultiplier : DecCoins)
    (totalPreviousPower : Z) (vote : comet.VoteInfo) : Plan :=
  match ValidatorByConsAddr sk (comet.Address (comet.Validator_ vote)) with
  | inl e => PlanErr e
  | inr val =>
      match QuoTruncate (LegacyNewDec (comet.Power (comet.Validator_ vote)))
                        (LegacyNewDec totalPreviousPower) with
      | None => PlanPanic
      | Some powerFraction =>
          let reward := sdk.MulDecTruncate feeMultiplier powerFraction in
          let commission := sdk.MulDec reward (stakingtypes.GetCommission val) in
          match sdk.Sub reward commission with
          | None => PlanPanic
          | Some shared =>
              match StringToBytes sk (stakingtypes.GetOperator val) with
              | inl e => PlanErr e
              | inr valBz => PlanOk val valBz commission shared reward
              end
          end
      end
  end.

Definition planPanics (p : Plan) : bool :=
  match p with PlanPanic => true | _ => false end.

Definition planStore (p : Plan) (st : Store) : Store :=
  match p with
  | PlanOk _ valBz commission shared reward => allocateStore valBz commission shared reward st
  | _ => st
  end.

Definition planEvents (p : Plan) : list Event :=
  match p with
  | PlanOk val _ commission _ reward => [commissionEvent val commission; rewardsEvent val reward]
  | _ => []
  end.

Definition planReward (p : Plan) : option DecCoins :=
  match p with PlanOk _ _ _ _ reward => Some reward | _ => None end.

Definition planError (p : Plan) : option error :=
  match p with PlanErr e => Some e | _ => None end.

Definition plansStore (plans : list Plan) (st : Store) : Store :=
  foldl (fun st p => planStore p st) st plans.

(** errgroup keeps the first error. *)
Definition firstError (gerr : option error) (plans : list Plan) : option error :=
  foldl (fun gerr p => match planError p with
                       | Some e => Some (default e gerr)
                       | None => gerr
                       end) gerr plans.

(** Moving [amt] from one module account to another. *)
Definition moveCoins (b : Bank) (sender recipient : ModuleAccount) (amt : Coins) : Bank :=
  let b1 := setBalance b sender (sdk.safeAdd (balance b sender) (sdk.negative amt)) in
  setBalance b1 recipient (sdk.safeAdd (balance b1 recipient) amt).

(** A chain whose distribution account holds 5 stake and whose Decimal
    Remainder Pool holds [pool]. *)
Definition flushExample (pool : DecCoins) : State :=
  {| store :=
       {| bank := {| feeCollector := ∅; distribution := {[ example.stake := 5 ]};
                     protocolpool := ∅ |};
          FeePool := Some {| DecimalPool := pool |};
          Params := Some {| CommunityTax := 20000000000000000 |};
          ValidatorsAccumulatedCommission := ∅;
          ValidatorCurrentRewards := ∅;
          ValidatorOutstandingRewards := ∅ |};
     events := [] |}.

(** ** What a cycle changed, per denomination *)

Definition outstandingDelta (s s' : State) (denom valBz : string) : Z :=
  sdk.AmountOf (outstandingAt (store s') valBz) denom
  - sdk.AmountOf (outstandingAt (store s) valBz) denom.

(** In whole units: the community fund holds Coins. *)
Definition communityFundDelta (s s' : State) (denom : string) : Z :=
  sdk.AmountOf (protocolpool (bank (store s'))) denom
  - sdk.AmountOf (protocolpool (bank (store s))) denom.

Definition remainderPoolDelta (s s' : State) (denom : string) : Z :=
  sdk.AmountOf (decimalPool (store s')) denom
  - sdk.AmountOf (decimalPool (store s)) denom.

(** The fee envelope of a cycle: what the fee collector holds. *)
Definition feeEnvelope (s : State) : Coins := feeCollector (bank (store s)).

(** The share of [denom] a goroutine adds to the outstanding rewards of
    [valBz]. *)
Definition planShare (denom valBz : string) (p : Plan) : Z :=
  match p with
  | PlanOk _ key _ _ reward => if decide (key = valBz) then sdk.AmountOf reward denom else 0
  | _ => 0
  end.

Definition planAmount (denom : string) (p : Plan) : Z :=
  match p with
  | PlanOk _ _ _ _ reward => sdk.AmountOf reward denom
  | _ => 0
  end.

(** ** Comparing two runs

    Two runs agree when both panic, or both return nil, or both return an
    error (possibly not the same one: errgroup reports the first), and
    they leave the same stores: accumulators, balances and pool. *)
Definition sameOutcome {A} (r r' : Result A) : Prop :=
  match r, r' with
  | Ok _ s, Ok _ s' => store s = store s'
  | Err _ s, Err _ s' => store s = store s'
  | Panic, Panic => True
  | _, _ => False
  end.

(** In [denom], the rewards are all non-negative or all non-positive. *)
Definition sameSignAt (denom : string) (rewards : list DecCoins) : Prop :=
  Forall (fun r => 0 <= sdk.AmountOf r denom) rewards \/
  Forall (fun r => sdk.AmountOf r denom <= 0) rewards.

(** What a call credited to the current rewards of [valBz]. *)
Definition creditedCurrent (s s' : State) (valBz denom : string) : Z :=
  sdk.AmountOf (currentAt (store s') valBz) denom
  - sdk.AmountOf (currentAt (store s) valBz) denom.

(** What the three module accounts hold together, in [denom]. *)
Definition bankTotal (b : Bank) (denom : string) : Z :=
  sdk.AmountOf (feeCollector b) denom
  + sdk.AmountOf (distribution b) denom
  + sdk.AmountOf (protocolpool b) denom.

(** The distributable part of the envelope (line 53), computed from the
    fee collector's balance and the community tax of a store. *)
Definition cycleFeeMultiplier (st : Store) : DecCoins :=
  match sdk.NewDecCoinsFromCoins (feeCollector (bank st)), Params st with
  | Some feesCollected, Some params =>
      sdk.MulDecTruncate feesCollected (LegacyDec.Sub LegacyOneDec (CommunityTax params))
  | _, _ => ∅
  end.

(** What the goroutine of [vote] adds, in [denom], to the outstanding
    rewards of [valBz] in a cycle started from [st]: its reward when it
    returns nil and [valBz] is its validator, nothing otherwise. *)
Definition voteShare (sk : StakingKeeper) (st : Store) (totalPreviousPower : Z)
    (denom valBz : string) (vote : comet.VoteInfo) : Z :=
  planShare denom valBz (votePlan sk (cycleFeeMultiplier st) totalPreviousPower vote).

(** A vote the cycle can reward: its power is not negative, the directory
    knows its validator, the codec encodes the operator address, and the
    commission rate is at most one. *)
Definition rewardable (sk : StakingKeeper) (vote : comet.VoteInfo) : Prop :=
  0 <= comet.Power (comet.Validator_ vote) /\
  exists val valBz,
    ValidatorByConsAddr sk (comet.Address (comet.Validator_ vote)) = inr val /\
    StringToBytes sk (stakingtypes.GetOperator val) = inr valBz /\
    stakingtypes.GetCommission val <= LegacyOneDec.

Definition totalPower (votes : list comet.VoteInfo) : Z :=
  sumZ (map (fun vote => comet.Power (comet.Validator_ vote)) votes).

End keeper.

(** ** The cycle with its goroutines and with collaborators that may fail

    [keeper.AllocateTokens] above runs the goroutines of a cycle one after
    the other and gives the stores and the bank no failure of their own.
    The functions of this module are the same code with both left open:
    every call of a collaborator may return an error of its own, and the
    goroutines are interleaved by a schedule, one store call at a time. *)
Module concurrent.
Import LegacyDec types keeper.

#[local] Notation "'let*' x ':=' m 'in' k" := (bind m (fun x => k))
  (at level 10, x name, m at level 100, k at level 200).
#[local] Notation "'let*' ' pat ':=' m 'in' k" :=
  (bind m (fun x => match x with pat => k end))
  (at level 10, pat pattern, m at level 100, k at level 200).
#[local] Notation "'do' m 'in' k" := (bind m (fun _ => k))
  (at level 10, m at level 100, k at level 200).

(** *** Failing collaborators

    For each call the code makes, the error the collaborator answers with,
    if any: an error other than not-found and other than insufficient
    funds, which the stores and the bank report by themselves.  A call that
    fails changes nothing. *)
Record Faults : Type := {
  sendFails : ModuleAccount -> ModuleAccount -> Coins -> option string;
  feePoolGetFails : option string;
  feePoolSetFails : types.FeePool -> option string;
  paramsGetFails : option string;
  commissionGetFails : string -> option string;
  commissionSetFails : string -> ValidatorAccumulatedCommission -> option string;
  currentGetFails : string -> option string;
  currentSetFails : string -> types.ValidatorCurrentRewards -> option string;
  outstandingGetFails : string -> option string;
  outstandingSetFails : string -> types.ValidatorOutstandingRewards -> option string }.

Definition noFaults : Faults :=
  {| sendFails _ _ _ := None; feePoolGetFails := None; feePoolSetFails _ := None;
     paramsGetFails := None;
     commissionGetFails _ := None; commissionSetFails _ _ := None;
     currentGetFails _ := None; currentSetFails _ _ := None;
     outstandingGetFails _ := None; outstandingSetFails _ _ := None |}.

(** *** A goroutine

    The code of a goroutine, cut at its calls of the stores: each call is
    one step, and the steps of different goroutines interleave. *)
Inductive Prog (A : Type) : Type :=
| Return (a : A)
| Fail (e : error)
| Panics
| Emit (ev : Event) (k : Prog A)
| Atomic {X : Type} (act : Store -> X * Store) (k : X -> Prog A).
Arguments Return {A} a.
Arguments Fail {A} e.
Arguments Panics {A}.
Arguments Emit {A} ev k.
Arguments Atomic {A X} act k.

Fixpoint andThen {A B} (p : Prog A) (f : A -> Prog B) : Prog B :=
  match p with
  | Return a => f a
  | Fail e => Fail e
  | Panics => Panics
  | Emit ev k => Emit ev (andThen k f)
  | Atomic act k => Atomic act (fun x => andThen (k x) f)
  end.

(** How a goroutine ended (an error, or its value), the store it left and
    the events it emitted; [None] when it panicked. *)
Definition Exit (A : Type) : Type := option ((error + A) * Store * list Event).

(** A goroutine run on its own, to its end. *)
Fixpoint finish {A} (p : Prog A) (st : Store) : Exit A :=
  match p with
  | Return a => Some (inr a, st, [])
  | Fail e => Some (inl e, st, [])
  | Panics => None
  | Emit ev k =>
      match finish k st with
      | Some (r, st', evs) => Some (r, st', ev :: evs)
      | None => None
      end
  | Atomic act k => let '(x, st') := act st in finish (k x) st'
  end.

(** One step of a goroutine that has not ended. *)
Definition step {A} (p : Prog A) (st : Store) : (Prog A * list Event) * Store :=
  match p with
  | Emit ev k => ((k, [ev]), st)
  | Atomic act k => let '(x, st') := act st in ((k x, []), st')
  | _ => ((p, []), st)
  end.

(** *** errgroup.Group and the channel

    The zero Group has no limit and no context: every function handed to
    [Go] runs to its end, and [Wait] returns the first non-nil error.  What
    the group leaves is the list of the goroutines' exits in the order in
    which they ended: the values of those that returned nil are on the
    channel in that order, and the error of [Wait] is the first one.
    [None]: a goroutine panicked, which ends the program. *)
Definition Group (A : Type) : Type := option (list (error + A) * Store * list Event).

Definition exited {A} (rs : list (error + A)) (evs : list Event) (g : Group A) : Group A :=
  match g with
  | Some (exits, st, evs') => Some (rs ++ exits, st, evs ++ evs')
  | None => None
  end.

(** The goroutines still running, run one after the other. *)
Fixpoint waitAll {A} (pool : list (Prog A)) (st : Store) : Group A :=
  match pool with
  | [] => Some ([], st, [])
  | p :: rest =>
      match finish p st with
      | Some (r, st', evs) => exited [r] evs (waitAll rest st')
      | None => None
      end
  end.

(** [schedule] names, step after step, the goroutine that moves: its
    position among those still running.  A goroutine that has reached its
    end leaves the group when it is scheduled next: its value goes on the
    channel, or its error to the group.  When the schedule is used up the
    goroutines left run one after the other. *)
Fixpoint runGroup {A} (schedule : list nat) (pool : list (Prog A)) (st : Store)
  : Group A :=
  match schedule with
  | [] => waitAll pool st
  | i :: later =>
      match pool !! i with
      | None => runGroup later pool st
      | Some (Return a) => exited [inr a] [] (runGroup later (delete i pool) st)
      | Some (Fail e) => exited [inl e] [] (runGroup later (delete i pool) st)
      | Some Panics => None
      | Some p =>
          let '((p', evs), st') := step p st in
          exited [] evs (runGroup later (<[i := p']> pool) st')
      end
  end.

(** [g.Wait()]: the first error. *)
Definition firstErr {A} (exits : list (error + A)) : option error :=
  head (omap (fun r => match r with inl e => Some e | inr _ => None end) exits).

(** What was sent on the channel, in the order of sending. *)
Definition sent {A} (exits : list (error + A)) : list A :=
  omap (fun r => match r with inr a => Some a | inl _ => None end) exits.

Definition errgroup_Wait {A} (schedule : list nat) (pool : list (Prog A))
  : M (list (error + A)) :=
  fun s => match runGroup schedule pool (store s) with
           | Some (exits, st, evs) => Ok exits {| store := st; events := events s ++ evs |}
           | None => Panic
           end.

Section WithFaults.
Variable faults : Faults.
Variable stakingKeeper : StakingKeeper.

Definition failing {A} (fault : option string) (m : M A) : M A :=
  match fault with
  | Some msg => fail (ErrOther msg)
  | None => m
  end.

Definition SendCoinsFromModuleToModule
    (sender recipient : ModuleAccount) (amt : Coins) : M unit :=
  failing (sendFails faults sender recipient amt)
          (keeper.SendCoinsFromModuleToModule sender recipient amt).

Definition FeePool_Get : M types.FeePool :=
  failing (feePoolGetFails faults) keeper.FeePool_Get.

Definition FeePool_Set (p : types.FeePool) : M unit :=
  failing (feePoolSetFails faults p) (keeper.FeePool_Set p).

Definition GetCommunityTax : M Z :=
  failing (paramsGetFails faults) keeper.GetCommunityTax.

(** [Get] of a Map: the zero value and the error when the store fails. *)
Definition Map_Get {V} (fault : option string) (zero : V) (m : gmap string V)
    (key : string) : V * option error :=
  match fault with
  | Some msg => (zero, Some (ErrOther msg))
  | None => keeper.Map_Get zero m key
  end.

Definition ValidatorsAccumulatedCommission_Get (key : string) (st : Store)
  : (ValidatorAccumulatedCommission * option error) * Store :=
  (Map_Get (commissionGetFails faults key) zeroCommission
           (ValidatorsAccumulatedCommission st) key, st).

Definition ValidatorsAccumulatedCommission_Set (key : string)
    (v : ValidatorAccumulatedCommission) (st : Store) : option error * Store :=
  match commissionSetFails faults key v with
  | Some msg => (Some (ErrOther msg), st)
  | None => (None, withCommission st (<[key := v]> (ValidatorsAccumulatedCommission st)))
  end.

Definition ValidatorCurrentRewards_Get (key : string) (st : Store)
  : (types.ValidatorCurrentRewards * option error) * Store :=
  (Map_Get (currentGetFails faults key) zeroCurrentRewards
           (ValidatorCurrentRewards st) key, st).

Definition ValidatorCurrentRewards_Set (key : string)
    (v : types.ValidatorCurrentRewards) (st : Store) : option error * Store :=
  match currentSetFails faults key v with
  | Some msg => (Some (ErrOther msg), st)
  | None => (None, withCurrent st (<[key := v]> (ValidatorCurrentRewards st)))
  end.

Definition ValidatorOutstandingRewards_Get (key : string) (st : Store)
  : (types.ValidatorOutstandingRewards * option error) * Store :=
  (Map_Get (outstandingGetFails faults key) zeroOutstanding
           (ValidatorOutstandingRewards st) key, st).

Definition ValidatorOutstandingRewards_Set (key : string)
    (v : types.ValidatorOutstandingRewards) (st : Store) : option error * Store :=
  match outstandingSetFails faults key v with
  | Some msg => (Some (ErrOther msg), st)
  | None => (None, withOutstanding st (<[key := v]> (ValidatorOutstandingRewards st)))
  end.

(** [if err != nil && !errors.Is(err, collections.ErrNotFound) { return err }] *)
Definition returnUnlessNotFound {A} (err : option error) (k : Prog A) : Prog A :=
  match err with
  | Some e => if negb (errors_Is e ErrNotFound) then Fail e else k
  | None => k
  end.

(** [if err != nil { return err }] *)
Definition returnIfErr {A} (err : option error) (k : Prog A) : Prog A :=
  match err with
  | Some e => Fail e
  | None => k
  end.

(** allocation.go, lines 106-165. *)
Definition AllocateTokensToValidator
    (val : stakingtypes.ValidatorI) (tokens : DecCoins) : Prog unit :=
  let commission := sdk.MulDec tokens (stakingtypes.GetCommission val) in
  match sdk.Sub tokens commission with
  | None => Panics
  | Some shared =>
  match StringToBytes stakingKeeper (stakingtypes.GetOperator val) with
  | inl err => Fail err
  | inr valBz =>
  Emit (commissionEvent val commission) (
  Atomic (ValidatorsAccumulatedCommission_Get valBz) (fun '(currentCommission, err) =>
  returnUnlessNotFound err (
  let currentCommission :=
    {| Commission := sdk.Add (Commission currentCommission) commission |} in
  Atomic (ValidatorsAccumulatedCommission_Set valBz currentCommission) (fun err =>
  returnIfErr err (
  Atomic (ValidatorCurrentRewards_Get valBz) (fun '(currentRewards, err) =>
  returnUnlessNotFound err (
  let currentRewards :=
    {| Rewards := sdk.Add (Rewards currentRewards) shared;
       Period := Period currentRewards |} in
  Atomic (ValidatorCurrentRewards_Set valBz currentRewards) (fun err =>
  returnIfErr err (
  Emit (rewardsEvent val tokens) (
  Atomic (ValidatorOutstandingRewards_Get valBz) (fun '(outstanding, err) =>
  returnUnlessNotFound err (
  let outstanding := {| Rewards_ := sdk.Add (Rewards_ outstanding) tokens |} in
  Atomic (ValidatorOutstandingRewards_Set valBz outstanding) (fun err =>
  returnIfErr err (Return tt))))))))))))))
  end
  end.

(** The function handed to [g.Go] for one vote (lines 63-78); the value
    returned is the one sent on [remainingCh]. *)
Definition goroutine (feeMultiplier : DecCoins) (totalPreviousPower : Z)
    (vote : comet.VoteInfo) : Prog DecCoins :=
  match ValidatorByConsAddr stakingKeeper (comet.Address (comet.Validator_ vote)) with
  | inl err => Fail err
  | inr validator =>
      match QuoTruncate (LegacyNewDec (comet.Power (comet.Validator_ vote)))
                        (LegacyNewDec totalPreviousPower) with
      | None => Panics
      | Some powerFraction =>
          let reward := sdk.MulDecTruncate feeMultiplier powerFraction in
          andThen (AllocateTokensToValidator validator reward)
                  (fun _ => Return reward)
      end
  end.

(** allocation.go, lines 21-102. *)
Definition AllocateTokens (schedule : list nat) (totalPreviousPower : Z)
    (bondedVotes : list comet.VoteInfo) : M unit :=
  let* feesCollectedInt := GetAllBalances feeCollectorName in
  let* feesCollected := orPanic (sdk.NewDecCoinsFromCoins feesCollectedInt) in
  do SendCoinsFromModuleToModule feeCollectorName ModuleName feesCollectedInt in
  let* feePool := FeePool_Get in
  do (if bool_decide (totalPreviousPower = 0)
      then FeePool_Set {| DecimalPool := sdk.Add (DecimalPool feePool) feesCollected |}
      else ret tt) in
  let remaining := feesCollected in
  let* communityTax := GetCommunityTax in
  let voteMultiplier := LegacyDec.Sub LegacyOneDec communityTax in
  let feeMultiplier := sdk.MulDecTruncate feesCollected voteMultiplier in
  let* exits :=
    errgroup_Wait schedule (map (goroutine feeMultiplier totalPreviousPower) bondedVotes) in
  match firstErr exits with
  | Some err => fail err
  | None =>
      let* remaining := orPanic (subRewards remaining (sent exits)) in
      let* '(amt, re) := orPanic (sdk.TruncateDecimal remaining) in
      do SendCoinsFromModuleToModule ModuleName protocolpoolModuleName amt in
      FeePool_Set {| DecimalPool := sdk.Add (DecimalPool feePool) re |}
  end.

(** allocation.go, lines 169-185. *)
Definition SendDecimalPoolToCommunityPool : M unit :=
  let* feePool := FeePool_Get in
  if sdk.IsZero (DecimalPool feePool) then ret tt
  else
    let* '(amt, re) := orPanic (sdk.TruncateDecimal (DecimalPool feePool)) in
    do SendCoinsFromModuleToModule ModuleName protocolpoolModuleName amt in
    FeePool_Set {| DecimalPool := re |}.

End WithFaults.

(** *** What a goroutine can reach

    The three records of one validator. *)
Record Records : Type := {
  commissionRecord : option ValidatorAccumulatedCommission;
  currentRecord : option types.ValidatorCurrentRewards;
  outstandingRecord : option types.ValidatorOutstandingRewards }.

Definition recordsAt (st : Store) (key : string) : Records :=
  {| commissionRecord := ValidatorsAccumulatedCommission st !! key;
     currentRecord := ValidatorCurrentRewards st !! key;
     outstandingRecord := ValidatorOutstandingRewards st !! key |}.

(** Two stores that differ in the records of [key] at most. *)
Definition sameExcept (key : string) (st st' : Store) : Prop :=
  bank st = bank st' /\ FeePool st = FeePool st' /\ Params st = Params st' /\
  forall key', key' <> key -> recordsAt st key' = recordsAt st' key'.

(** A store call that reads and writes the records of [key] only. *)
Definition localAt {X} (key : string) (act : Store -> X * Store) : Prop :=
  (forall st, sameExcept key st (act st).2) /\
  (forall st st', recordsAt st key = recordsAt st' key ->
     (act st).1 = (act st').1 /\ recordsAt (act st).2 key = recordsAt (act st').2 key).

Inductive usesOnly {A} (key : string) : Prog A -> Prop :=
| usesOnly_Return a : usesOnly key (Return a)
| usesOnly_Fail e : usesOnly key (Fail e)
| usesOnly_Panics : usesOnly key Panics
| usesOnly_Emit ev k : usesOnly key k -> usesOnly key (Emit ev k)
| usesOnly_Atomic X (act : Store -> X * Store) k :
    localAt key act -> (forall x, usesOnly key (k x)) -> usesOnly key (Atomic act k).

(** Two goroutines that work on the records of different validators. *)
Definition apart {A} (p q : Prog A) : Prop :=
  exists kp kq, kp <> kq /\ usesOnly kp p /\ usesOnly kq q.

Inductive independent {A} : list (Prog A) -> Prop :=
| independent_nil : independent []
| independent_cons p pool :
    Forall (apart p) pool -> independent pool -> independent (p :: pool).

(** Two groups end alike: both panicked, or they left the same store and
    the same exits, possibly in another order. *)
Definition sameGroup {A} (g g' : Group A) : Prop :=
  match g, g' with
  | Some (exits, st, _), Some (exits', st', _) => exits ≡ₚ exits' /\ st = st'
  | None, None => True
  | _, _ => False
  end.

(** No two votes name the same validator. *)
Definition distinctValidators (sk : StakingKeeper) (votes : list comet.VoteInfo) : Prop :=
  NoDup (omap (voteKey sk) votes).

(** The schedule in which the first two goroutines take their steps in
    turn, one store call each. *)
Fixpoint alternate (n : nat) : list nat :=
  match n with
  | O => []
  | S n => 0%nat :: 1%nat :: alternate n
  end.

(** The events a goroutine emitted before, put in front. *)
Definition emitted {A} (evs : list Event) (x : Exit A) : Exit A :=
  match x with
  | Some (r, st, evs') => Some (r, st, evs ++ evs')
  | None => None
  end.

(** Goroutines leave the bank, the fee pool and the parameters alone. *)
Definition sameItems (st st' : Store) : Prop :=
  bank st = bank st' /\ FeePool st = FeePool st' /\ Params st = Params st'.




End concurrent.

Import LegacyDec types keeper.

(** * Properties *)

(** ** Fixed-point arithmetic *)

Lemma precisionReuse_val : precisionReuse = 1000000000000000000.
Proof. reflexivity. Qed.

Lemma fivePrecision_val : fivePrecision = 500000000000000000.
Proof. reflexivity. Qed.

Lemma chopRoundNonneg_bounds d :
  0 <= d ->
  d `quot` precisionReuse <= chopRoundNonneg d <= d `quot` precisionReuse + 1.
Proof.
  intros Hd. unfold chopRoundNonneg.
  case_bool_decide; [lia|].
  destruct (_ ?= _); [destruct (Z.even _)| |]; lia.
Qed.

Lemma chopRoundNonneg_exact d :
  d `rem` precisionReuse = 0 -> chopRoundNonneg d = d `quot` precisionReuse.
Proof. intros H. unfold chopRoundNonneg. rewrite H. reflexivity. Qed.

Lemma chopRoundNonneg_nearest d :
  0 <= d ->
  2 * Z.abs (chopRoundNonneg d * precisionReuse - d) <= precisionReuse.
Proof.
  intros Hd. unfold chopRoundNonneg.
  pose proof (Z.quot_rem' d precisionReuse) as Hqr.
  pose proof (Z.rem_bound_pos d precisionReuse Hd) as Hr.
  rewrite precisionReuse_val in *.
  set (q := d `quot` 1000000000000000000) in *.
  set (r := d `rem` 1000000000000000000) in *.
  assert (0 <= r < 1000000000000000000) as Hr' by (apply Hr; lia).
  case_bool_decide; [lia|].
  rewrite fivePrecision_val.
  destruct (Z.compare_spec r 500000000000000000); [destruct (Z.even q)| |]; lia.
Qed.

Lemma Mul_zero c : Mul 0 c = 0.
Proof. reflexivity. Qed.

Lemma MulTruncate_zero c : MulTruncate 0 c = 0.
Proof. reflexivity. Qed.

Lemma Mul_nonneg_bounds a c :
  0 <= a -> 0 <= c -> MulTruncate a c <= Mul a c <= MulTruncate a c + 1.
Proof.
  intros Ha Hc. unfold Mul, MulTruncate, chopPrecisionAndRound, chopPrecisionAndTruncate.
  case_bool_decide; [nia|]. apply chopRoundNonneg_bounds. nia.
Qed.

Lemma Mul_le_self a c : 0 <= a -> c <= LegacyOneDec -> Mul a c <= a.
Proof.
  intros Ha Hc. unfold Mul, chopPrecisionAndRound, LegacyOneDec in *.
  rewrite precisionReuse_val in Hc.
  case_bool_decide as Hneg.
  - assert (0 <= chopRoundNonneg (- (a * c))).
    { pose proof (chopRoundNonneg_bounds (- (a * c)) ltac:(lia)) as [Hlo _].
      pose proof (Z.quot_pos (- (a * c)) precisionReuse ltac:(lia) ltac:(rewrite precisionReuse_val; lia)).
      lia. }
    lia.
  - assert (0 <= a * c) as Hac by lia.
    unfold chopRoundNonneg.
    pose proof (Z.quot_rem' (a * c) precisionReuse) as Hqr.
    pose proof (Z.rem_bound_pos (a * c) precisionReuse Hac) as Hr.
    rewrite precisionReuse_val in *.
    set (q := (a * c) `quot` 1000000000000000000) in *.
    set (r := (a * c) `rem` 1000000000000000000) in *.
    assert (0 <= r < 1000000000000000000) as Hr' by (apply Hr; lia).
    assert (a * c <= a * 1000000000000000000) by nia.
    case_bool_decide; [nia|].
    destruct (_ ?= _); [destruct (Z.even q)| |]; nia.
Qed.

Lemma Mul_nonneg a c : 0 <= a -> 0 <= c -> 0 <= Mul a c.
Proof.
  intros Ha Hc. pose proof (Mul_nonneg_bounds a c Ha Hc) as [H _].
  unfold MulTruncate, chopPrecisionAndTruncate in H.
  pose proof (Z.quot_pos (a * c) precisionReuse ltac:(nia) ltac:(rewrite precisionReuse_val; lia)).
  lia.
Qed.

(** ** Coin sets *)

Lemma nonzero_default a : default 0 (sdk.nonzero a) = a.
Proof. unfold sdk.nonzero. case_bool_decide; simpl; lia. Qed.

Lemma nonzero_ne a : sdk.nonzero a <> Some 0.
Proof. unfold sdk.nonzero. case_bool_decide; congruence. Qed.

Lemma AmountOf_empty denom : sdk.AmountOf ∅ denom = 0.
Proof. unfold sdk.AmountOf. rewrite lookup_empty. reflexivity. Qed.

Lemma coins_ext (a b : gmap string Z) :
  zeroFree a -> zeroFree b ->
  (forall denom, sdk.AmountOf a denom = sdk.AmountOf b denom) -> a = b.
Proof.
  intros Ha Hb H. apply map_eq. intros d.
  specialize (H d). specialize (Ha d). specialize (Hb d).
  unfold sdk.AmountOf in H.
  destruct (a !! d) as [x|], (b !! d) as [y|]; simpl in H; congruence.
Qed.

Lemma AmountOf_safeAdd a b denom :
  sdk.AmountOf (sdk.safeAdd a b) denom = sdk.AmountOf a denom + sdk.AmountOf b denom.
Proof.
  unfold sdk.AmountOf, sdk.safeAdd. rewrite lookup_merge.
  destruct (a !! denom), (b !! denom); simpl; rewrite ?nonzero_default; reflexivity.
Qed.

Lemma AmountOf_Add a b denom :
  sdk.AmountOf (sdk.Add a b) denom = sdk.AmountOf a denom + sdk.AmountOf b denom.
Proof. apply AmountOf_safeAdd. Qed.

Lemma safeAdd_zeroFree a b : zeroFree (sdk.safeAdd a b).
Proof.
  intros d. unfold sdk.safeAdd. rewrite lookup_merge.
  destruct (a !! d), (b !! d); simpl; try apply nonzero_ne. congruence.
Qed.

Lemma Add_zeroFree a b : zeroFree (sdk.Add a b).
Proof. apply safeAdd_zeroFree. Qed.

Lemma zeroFree_empty : zeroFree ∅.
Proof. intros d. rewrite lookup_empty. congruence. Qed.

Lemma omap_nonzero_zeroFree (f : Z -> Z) (a : gmap string Z) :
  zeroFree (omap (fun x => sdk.nonzero (f x)) a).
Proof.
  intros d. rewrite lookup_omap. destruct (a !! d); simpl; [apply nonzero_ne | congruence].
Qed.

Lemma AmountOf_omap_nonzero (f : Z -> Z) (a : gmap string Z) denom :
  f 0 = 0 ->
  sdk.AmountOf (omap (fun x => sdk.nonzero (f x)) a) denom = f (sdk.AmountOf a denom).
Proof.
  intros Hf. unfold sdk.AmountOf. rewrite lookup_omap.
  destruct (a !! denom); simpl; [apply nonzero_default | congruence].
Qed.

Lemma AmountOf_negative a denom :
  sdk.AmountOf (sdk.negative a) denom = - sdk.AmountOf a denom.
Proof.
  unfold sdk.AmountOf, sdk.negative. rewrite lookup_fmap.
  destruct (a !! denom); reflexivity.
Qed.

Lemma AmountOf_MulDec a c denom :
  sdk.AmountOf (sdk.MulDec a c) denom = Mul (sdk.AmountOf a denom) c.
Proof. unfold sdk.MulDec. apply (AmountOf_omap_nonzero (fun x => Mul x c)). reflexivity. Qed.

Lemma AmountOf_MulDecTruncate a c denom :
  sdk.AmountOf (sdk.MulDecTruncate a c) denom = MulTruncate (sdk.AmountOf a denom) c.
Proof.
  unfold sdk.MulDecTruncate.
  apply (AmountOf_omap_nonzero (fun x => MulTruncate x c)). reflexivity.
Qed.

Lemma Add_comm a b : sdk.Add a b = sdk.Add b a.
Proof.
  apply coins_ext; try apply Add_zeroFree.
  intros d. rewrite !AmountOf_Add. lia.
Qed.

Lemma Add_assoc a b c : sdk.Add (sdk.Add a b) c = sdk.Add a (sdk.Add b c).
Proof.
  apply coins_ext; try apply Add_zeroFree.
  intros d. rewrite !AmountOf_Add. lia.
Qed.

Lemma Add_empty_r a : zeroFree a -> sdk.Add a ∅ = a.
Proof.
  intros Ha. apply coins_ext; [apply Add_zeroFree | assumption |].
  intros d. rewrite AmountOf_Add, AmountOf_empty. lia.
Qed.

Lemma nonneg_empty : nonneg ∅.
Proof. intros d. rewrite AmountOf_empty. lia. Qed.

Lemma nonneg_singleton denom (a : Z) : 0 <= a -> nonneg {[ denom := a ]}.
Proof.
  intros Ha d. unfold sdk.AmountOf.
  destruct (decide (denom = d)) as [->|Hne].
  - rewrite lookup_singleton_eq. exact Ha.
  - rewrite lookup_singleton_ne by exact Hne. simpl. lia.
Qed.

(** [IsAnyNegative] looks at the amounts. *)
Lemma IsAnyNegative_false a : sdk.IsAnyNegative a = false <-> nonneg a.
Proof.
  unfold sdk.IsAnyNegative, nonneg, sdk.AmountOf.
  rewrite negb_false_iff, bool_decide_eq_true. split.
  - intros H d. destruct (a !! d) as [x|] eqn:E; simpl; [apply (H d x E) | lia].
  - intros H d x E. specialize (H d). rewrite E in H. exact H.
Qed.

Lemma IsAnyNegative_true a :
  sdk.IsAnyNegative a = true <-> exists denom, sdk.AmountOf a denom < 0.
Proof.
  split.
  - intros H. destruct (sdk.IsAnyNegative a) eqn:E; [|discriminate].
    unfold sdk.IsAnyNegative in E. rewrite negb_true_iff, bool_decide_eq_false in E.
    apply map_not_Forall in E; [|apply _].
    destruct E as (d & x & Hd & Hx). exists d. unfold sdk.AmountOf. rewrite Hd. simpl. lia.
  - intros [d Hd]. destruct (sdk.IsAnyNegative a) eqn:E; [reflexivity|].
    apply IsAnyNegative_false in E. specialize (E d). lia.
Qed.

Lemma Sub_Some a b c :
  sdk.Sub a b = Some c <->
  c = sdk.safeAdd a (sdk.negative b) /\
  forall denom, sdk.AmountOf b denom <= sdk.AmountOf a denom.
Proof.
  unfold sdk.Sub, sdk.SafeSub.
  destruct (sdk.IsAnyNegative _) eqn:E.
  - split; [discriminate|]. intros [_ H].
    apply IsAnyNegative_true in E as [d Hd].
    rewrite AmountOf_safeAdd, AmountOf_negative in Hd. specialize (H d). lia.
  - apply IsAnyNegative_false in E. split.
    + intros [= <-]. split; [reflexivity|]. intros d. specialize (E d).
      rewrite AmountOf_safeAdd, AmountOf_negative in E. lia.
    + intros [-> _]. reflexivity.
Qed.

Lemma Sub_None a b :
  sdk.Sub a b = None <-> exists denom, sdk.AmountOf a denom < sdk.AmountOf b denom.
Proof.
  unfold sdk.Sub, sdk.SafeSub.
  destruct (sdk.IsAnyNegative _) eqn:E.
  - apply IsAnyNegative_true in E as [d Hd].
    rewrite AmountOf_safeAdd, AmountOf_negative in Hd.
    split; [|reflexivity]. intros _. exists d. lia.
  - apply IsAnyNegative_false in E. split; [discriminate|]. intros [d Hd].
    specialize (E d). rewrite AmountOf_safeAdd, AmountOf_negative in E. lia.
Qed.

Lemma AmountOf_Sub a b c denom :
  sdk.Sub a b = Some c ->
  sdk.AmountOf c denom = sdk.AmountOf a denom - sdk.AmountOf b denom.
Proof.
  intros [-> _]%Sub_Some. rewrite AmountOf_safeAdd, AmountOf_negative. lia.
Qed.

Lemma Sub_zeroFree a b c : sdk.Sub a b = Some c -> zeroFree c.
Proof. intros [-> _]%Sub_Some. apply safeAdd_zeroFree. Qed.

Lemma Sub_nonneg a b c : sdk.Sub a b = Some c -> nonneg c.
Proof.
  intros H d. rewrite (AmountOf_Sub _ _ _ _ H).
  apply Sub_Some in H as [_ H]. specialize (H d). lia.
Qed.

(** Truncation of one amount. *)
Lemma DecCoin_TruncateDecimal_Some amount :
  is_Some (sdk.DecCoin_TruncateDecimal amount) <-> 0 <= amount.
Proof.
  unfold sdk.DecCoin_TruncateDecimal, TruncateInt, chopPrecisionAndTruncate,
    LegacyNewDecFromInt, LegacyDec.Sub.
  pose proof (Z.quot_rem' amount precisionReuse) as Hqr.
  rewrite precisionReuse_val in *.
  split.
  - intros [x Hx]. repeat case_bool_decide; try discriminate.
    destruct (Z_lt_le_dec amount 0) as [Hn|]; [|assumption].
    pose proof (Z.rem_bound_neg_pos amount 1000000000000000000 ltac:(lia) ltac:(lia)) as Hr.
    nia.
  - intros Ha.
    pose proof (Z.rem_bound_pos amount 1000000000000000000 Ha ltac:(lia)) as Hr.
    pose proof (Z.quot_pos amount 1000000000000000000 Ha ltac:(lia)) as Hq.
    repeat case_bool_decide; try lia; eauto.
Qed.

Lemma TruncateDecimal_Some coins :
  nonneg coins ->
  sdk.TruncateDecimal coins =
    Some (omap (fun a => sdk.nonzero (TruncateInt a)) coins,
          omap (fun a => sdk.nonzero
                           (LegacyDec.Sub a (LegacyNewDecFromInt (TruncateInt a)))) coins).
Proof.
  intros H. unfold sdk.TruncateDecimal. rewrite bool_decide_eq_true_2; [reflexivity|].
  intros d a Hd. apply DecCoin_TruncateDecimal_Some.
  specialize (H d). unfold sdk.AmountOf in H. rewrite Hd in H. exact H.
Qed.

Lemma TruncateDecimal_inv coins amt re :
  sdk.TruncateDecimal coins = Some (amt, re) ->
  nonneg coins /\
  amt = omap (fun a => sdk.nonzero (TruncateInt a)) coins /\
  re = omap (fun a => sdk.nonzero
                        (LegacyDec.Sub a (LegacyNewDecFromInt (TruncateInt a)))) coins.
Proof.
  unfold sdk.TruncateDecimal. case_bool_decide as H; [|discriminate].
  intros [= <- <-]. split; [|split; reflexivity].
  intros d. unfold sdk.AmountOf. destruct (coins !! d) as [a|] eqn:E; simpl; [|lia].
  apply DecCoin_TruncateDecimal_Some, (H d a E).
Qed.

Lemma TruncateDecimal_None coins :
  sdk.TruncateDecimal coins = None <-> exists denom, sdk.AmountOf coins denom < 0.
Proof.
  split.
  - intros H. destruct (sdk.IsAnyNegative coins) eqn:E.
    + apply IsAnyNegative_true in E. exact E.
    + apply IsAnyNegative_false, TruncateDecimal_Some in E. congruence.
  - intros [d Hd]. destruct (sdk.TruncateDecimal coins) as [[amt re]|] eqn:E; [|reflexivity].
    apply TruncateDecimal_inv in E as [E _]. specialize (E d). lia.
Qed.

Lemma TruncateDecimal_amounts coins amt re denom :
  sdk.TruncateDecimal coins = Some (amt, re) ->
  0 <= sdk.AmountOf coins denom /\
  sdk.AmountOf amt denom = sdk.AmountOf coins denom `quot` precisionReuse /\
  sdk.AmountOf re denom = sdk.AmountOf coins denom `rem` precisionReuse /\
  sdk.AmountOf amt denom * precisionReuse + sdk.AmountOf re denom = sdk.AmountOf coins denom.
Proof.
  intros (Hn & -> & ->)%TruncateDecimal_inv.
  rewrite (AmountOf_omap_nonzero TruncateInt) by reflexivity.
  rewrite (AmountOf_omap_nonzero
             (fun a => LegacyDec.Sub a (LegacyNewDecFromInt (TruncateInt a)))) by reflexivity.
  unfold TruncateInt, chopPrecisionAndTruncate, LegacyNewDecFromInt, LegacyDec.Sub.
  pose proof (Z.quot_rem' (sdk.AmountOf coins denom) precisionReuse).
  specialize (Hn denom). lia.
Qed.

Lemma IsZero_true coins :
  sdk.IsZero coins = true <-> forall denom, sdk.AmountOf coins denom = 0.
Proof.
  unfold sdk.IsZero, sdk.AmountOf. rewrite bool_decide_eq_true. split.
  - intros H d. destruct (coins !! d) as [x|] eqn:E; simpl; [apply (H d x E) | reflexivity].
  - intros H d x E. specialize (H d). rewrite E in H. exact H.
Qed.

Lemma NewDecCoinsFromCoins_Some coins dec :
  sdk.NewDecCoinsFromCoins coins = Some dec ->
  nonneg coins /\ zeroFree dec /\
  forall denom, sdk.AmountOf dec denom = LegacyNewDecFromInt (sdk.AmountOf coins denom).
Proof.
  unfold sdk.NewDecCoinsFromCoins. destruct (sdk.IsAnyNegative coins) eqn:E; [discriminate|].
  intros [= <-]. apply IsAnyNegative_false in E. split; [exact E|]. split.
  - apply omap_nonzero_zeroFree.
  - intros d. apply (AmountOf_omap_nonzero LegacyNewDecFromInt). reflexivity.
Qed.

(** ** One allocation *)

(** What one call does: the commission split may panic, then the codec may
    fail, then the three records are written and two events emitted. *)
Lemma AllocateTokensToValidator_eq sk val tokens s :
  AllocateTokensToValidator sk val tokens s =
  let commission := sdk.MulDec tokens (stakingtypes.GetCommission val) in
  match sdk.Sub tokens commission with
  | None => Panic
  | Some shared =>
      match StringToBytes sk (stakingtypes.GetOperator val) with
      | inl e => Err e s
      | inr valBz =>
          Ok tt {| store := allocateStore valBz commission shared tokens (store s);
                   events := events s ++ [commissionEvent val commission;
                                          rewardsEvent val tokens] |}
      end
  end.
Proof.
  unfold AllocateTokensToValidator, bind. cbn zeta.
  destruct (sdk.Sub _ _) as [shared|]; [|reflexivity]. simpl.
  destruct (StringToBytes _ _) as [e|valBz]; [reflexivity|]. simpl.
  unfold allocateStore, commissionAt, currentAt, periodAt, outstandingAt, Map_Get.
  destruct (ValidatorsAccumulatedCommission (store s) !! valBz) eqn:E1,
    (ValidatorCurrentRewards (store s) !! valBz) eqn:E2,
    (ValidatorOutstandingRewards (store s) !! valBz) eqn:E3;
    simpl; rewrite E2; simpl; rewrite E3; simpl;
    rewrite <- app_assoc; reflexivity.
Qed.

Lemma commissionAt_allocateStore valBz commission shared tokens st key :
  commissionAt (allocateStore valBz commission shared tokens st) key =
  if decide (valBz = key) then sdk.Add (commissionAt st valBz) commission
  else commissionAt st key.
Proof.
  unfold commissionAt, allocateStore, Map_Get. simpl.
  rewrite lookup_insert. destruct (decide (valBz = key)); reflexivity.
Qed.

Lemma currentAt_allocateStore valBz commission shared tokens st key :
  currentAt (allocateStore valBz commission shared tokens st) key =
  if decide (valBz = key) then sdk.Add (currentAt st valBz) shared
  else currentAt st key.
Proof.
  unfold currentAt, allocateStore, Map_Get. simpl.
  rewrite lookup_insert. destruct (decide (valBz = key)); reflexivity.
Qed.

Lemma outstandingAt_allocateStore valBz commission shared tokens st key :
  outstandingAt (allocateStore valBz commission shared tokens st) key =
  if decide (valBz = key) then sdk.Add (outstandingAt st valBz) tokens
  else outstandingAt st key.
Proof.
  unfold outstandingAt, allocateStore, Map_Get. simpl.
  rewrite lookup_insert. destruct (decide (valBz = key)); reflexivity.
Qed.

(** A successful call went through the split and the codec. *)
Lemma AllocateTokensToValidator_Ok sk val tokens s s' :
  AllocateTokensToValidator sk val tokens s = Ok tt s' ->
  exists shared valBz,
    sdk.Sub tokens (sdk.MulDec tokens (stakingtypes.GetCommission val)) = Some shared /\
    StringToBytes sk (stakingtypes.GetOperator val) = inr valBz /\
    store s' = allocateStore valBz (sdk.MulDec tokens (stakingtypes.GetCommission val))
                 shared tokens (store s).
Proof.
  rewrite AllocateTokensToValidator_eq. cbn zeta.
  destruct (sdk.Sub _ _) as [shared|]; [|discriminate].
  destruct (StringToBytes _ _) as [e|valBz]; [discriminate|].
  intros [= <-]. exists shared, valBz. auto.
Qed.

(** The split does not panic on a non-negative reward when the commission
    rate is at most one. *)
Lemma commission_split_defined tokens c :
  nonneg tokens -> c <= LegacyOneDec ->
  is_Some (sdk.Sub tokens (sdk.MulDec tokens c)).
Proof.
  intros Ht Hc. destruct (sdk.Sub _ _) eqn:E; [eauto|].
  apply Sub_None in E as [d Hd]. rewrite AmountOf_MulDec in Hd.
  pose proof (Mul_le_self (sdk.AmountOf tokens d) c (Ht d) Hc). lia.
Qed.

(** C3, as amended.  The commission credited by [AllocateTokensToValidator]
    is [tokens.MulDec(rate)]: in every denomination the product of the
    reward and the rate rounded to the nearest multiple of 10^-18, ties
    going to the even one.  It is the truncated product or one unit of
    10^-18 above it, and the truncated product itself when the product has
    no digit beyond the eighteenth. *)
Theorem commission_rounds_half_even sk val tokens s s' valBz denom :
  StringToBytes sk (stakingtypes.GetOperator val) = inr valBz ->
  0 <= sdk.AmountOf tokens denom ->
  0 <= stakingtypes.GetCommission val ->
  AllocateTokensToValidator sk val tokens s = Ok tt s' ->
  let R := sdk.AmountOf tokens denom in
  let c := stakingtypes.GetCommission val in
  let credited := creditedCommission s s' valBz denom in
  credited = chopPrecisionAndRound (R * c) /\
  MulTruncate R c <= credited <= MulTruncate R c + 1 /\
  2 * Z.abs (credited * precisionReuse - R * c) <= precisionReuse /\
  ((R * c) `rem` precisionReuse = 0 -> credited = MulTruncate R c).
Proof.
  intros Hk HR Hc Hok R c credited.
  apply AllocateTokensToValidator_Ok in Hok as (shared & k & _ & Hk' & Hs).
  rewrite Hk in Hk'. injection Hk' as <-.
  assert (credited = Mul R c) as Hcr.
  { unfold credited, creditedCommission. rewrite Hs, commissionAt_allocateStore.
    rewrite decide_True by reflexivity.
    rewrite AmountOf_Add, AmountOf_MulDec. fold R c. lia. }
  assert (Mul R c = chopRoundNonneg (R * c)) as Hm.
  { unfold Mul, chopPrecisionAndRound. rewrite bool_decide_eq_false_2 by nia. reflexivity. }
  split; [exact Hcr|]. split; [rewrite Hcr; apply Mul_nonneg_bounds; assumption|].
  split.
  - rewrite Hcr, Hm. apply chopRoundNonneg_nearest. nia.
  - intros Hrem. rewrite Hcr, Hm. apply chopRoundNonneg_exact, Hrem.
Qed.

Lemma commission_rounds_half_even_witness :
  exists s',
    AllocateTokensToValidator example.stakingKeeper example.valA
      {[ example.stake := 15 ]} example.genesis = Ok tt s' /\
    creditedCommission example.genesis s' "A" example.stake = 2.
Proof.
  eexists. split; [vm_compute; reflexivity|].
  refine (proj1 (commission_rounds_half_even example.stakingKeeper example.valA
                   {[ example.stake := 15 ]} example.genesis _ "A" example.stake
                   _ _ _ _)).
  - reflexivity.
  - vm_compute. discriminate.
  - vm_compute. discriminate.
  - vm_compute. reflexivity.
Defined.

(** C3, counterexample.  A reward of 15 units of 10^-18 stake to a
    validator charging 10% has the product 1.5 units: the commission
    credited is 2 units, rounded up, where truncation gives 1. *)
Lemma commission_rounds_up :
  exists s',
    AllocateTokensToValidator example.stakingKeeper example.valA
      {[ example.stake := 15 ]} example.genesis = Ok tt s' /\
    creditedCommission example.genesis s' "A" example.stake = 2 /\
    MulTruncate (sdk.AmountOf {[ example.stake := 15 ]} example.stake)
      (stakingtypes.GetCommission example.valA) = 1.
Proof.
  eexists. split; [vm_compute; reflexivity|].
  split; vm_compute; reflexivity.
Qed.

(** C4.  Whenever the outstanding rewards of a validator equal its
    accumulated commission plus its current rewards before a call (an
    absent record reading as zero), they do so again after every
    successful call of [AllocateTokensToValidator]. *)
Theorem outstanding_relation_preserved sk val tokens s s' valBz :
  outstandingRelation (store s) valBz ->
  AllocateTokensToValidator sk val tokens s = Ok tt s' ->
  outstandingRelation (store s') valBz.
Proof.
  unfold outstandingRelation. intros Hrel Hok.
  apply AllocateTokensToValidator_Ok in Hok as (shared & k & Hsub & _ & ->).
  rewrite outstandingAt_allocateStore, commissionAt_allocateStore, currentAt_allocateStore.
  destruct (decide (k = valBz)) as [->|]; [|exact Hrel].
  apply coins_ext; try apply Add_zeroFree.
  intros d. rewrite !AmountOf_Add, Hrel, AmountOf_Add.
  rewrite (AmountOf_Sub _ _ _ d Hsub). lia.
Qed.

Lemma outstanding_relation_preserved_witness :
  exists s',
    AllocateTokensToValidator example.stakingKeeper example.valA
      {[ example.stake := 68600000000000000000 ]} example.genesis = Ok tt s' /\
    outstandingRelation (store s') "A".
Proof.
  eexists. split; [vm_compute; reflexivity|].
  apply (outstanding_relation_preserved example.stakingKeeper example.valA
           {[ example.stake := 68600000000000000000 ]} example.genesis).
  - vm_compute. reflexivity.
  - vm_compute. reflexivity.
Defined.

(** C7.  A not-found record is not an error.  For a validator whose three
    records are absent, a call that does not panic returns nil, and it ends
    in the very state reached from the store in which the three records
    are present with the value zero, so the same three records result.
    The call does not panic when the reward is non-negative and the
    commission rate at most one. *)
Theorem absent_records_read_as_zero sk val tokens s valBz :
  StringToBytes sk (stakingtypes.GetOperator val) = inr valBz ->
  ValidatorsAccumulatedCommission (store s) !! valBz = None ->
  ValidatorCurrentRewards (store s) !! valBz = None ->
  ValidatorOutstandingRewards (store s) !! valBz = None ->
  let zeros := {| store := withZeroRecords (store s) valBz; events := events s |} in
  let sameAsFromZeros :=
    exists s',
      AllocateTokensToValidator sk val tokens s = Ok tt s' /\
      AllocateTokensToValidator sk val tokens zeros = Ok tt s' /\
      is_Some (ValidatorsAccumulatedCommission (store s') !! valBz) /\
      is_Some (ValidatorCurrentRewards (store s') !! valBz) /\
      is_Some (ValidatorOutstandingRewards (store s') !! valBz) in
  (AllocateTokensToValidator sk val tokens s <> Panic -> sameAsFromZeros) /\
  (nonneg tokens -> stakingtypes.GetCommission val <= LegacyOneDec -> sameAsFromZeros).
Proof.
  intros Hk Hcom Hcur Hout zeros sameAsFromZeros.
  assert (is_Some (sdk.Sub tokens (sdk.MulDec tokens (stakingtypes.GetCommission val)))
          -> sameAsFromZeros) as Hmain.
  { intros [shared Hsub]. unfold sameAsFromZeros, zeros.
    rewrite !AllocateTokensToValidator_eq. cbn zeta. rewrite Hsub, Hk.
    eexists. split; [reflexivity|]. simpl. split.
    - do 2 f_equal.
      unfold allocateStore, withZeroRecords, commissionAt, currentAt, periodAt,
        outstandingAt, Map_Get. simpl.
      rewrite !lookup_insert_eq, !insert_insert_eq, Hcom, Hcur, Hout. reflexivity.
    - rewrite !lookup_insert_eq. eauto. }
  split.
  - intros Hnp. apply Hmain.
    rewrite AllocateTokensToValidator_eq in Hnp. cbn zeta in Hnp.
    destruct (sdk.Sub _ _); [eauto|contradiction].
  - intros Ht Hc. apply Hmain, commission_split_defined; assumption.
Qed.

Lemma absent_records_read_as_zero_witness :
  exists s',
    AllocateTokensToValidator example.stakingKeeper example.valA
      {[ example.stake := 68600000000000000000 ]} example.genesis = Ok tt s' /\
    AllocateTokensToValidator example.stakingKeeper example.valA
      {[ example.stake := 68600000000000000000 ]}
      {| store := withZeroRecords (store example.genesis) "A";
         events := events example.genesis |} = Ok tt s'.
Proof.
  destruct (absent_records_read_as_zero example.stakingKeeper example.valA
              {[ example.stake := 68600000000000000000 ]} example.genesis "A"
              eq_refl eq_refl eq_refl eq_refl) as [_ H].
  destruct H as (s' & H1 & H2 & _).
  - exact (nonneg_singleton example.stake 68600000000000000000 ltac:(lia)).
  - vm_compute. discriminate.
  - exists s'. split; assumption.
Defined.

(** C10.  When the codec fails to encode the operator address, a call
    that does not panic returns the codec's error and leaves the whole
    state as it was: no accumulator record is read or written, whatever
    the stores hold.  (The commission split of lines 108-109 runs before
    the codec and is the only step that can panic; it does not when the
    reward is non-negative and the commission rate at most one.) *)
Theorem codec_failure_leaves_state sk val tokens s e :
  StringToBytes sk (stakingtypes.GetOperator val) = inl e ->
  (AllocateTokensToValidator sk val tokens s <> Panic ->
   AllocateTokensToValidator sk val tokens s = Err e s) /\
  (nonneg tokens -> stakingtypes.GetCommission val <= LegacyOneDec ->
   AllocateTokensToValidator sk val tokens s = Err e s).
Proof.
  intros Hk. rewrite AllocateTokensToValidator_eq. cbn zeta. rewrite Hk. split.
  - destruct (sdk.Sub _ _); [reflexivity|contradiction].
  - intros Ht Hc.
    destruct (commission_split_defined tokens _ Ht Hc) as [shared ->]. reflexivity.
Qed.

Lemma codec_failure_leaves_state_witness :
  AllocateTokensToValidator example.stakingKeeper example.valX
    {[ example.stake := 68600000000000000000 ]} example.genesis
  = Err (ErrOther "decoding bech32 failed") example.genesis.
Proof.
  refine (proj2 (codec_failure_leaves_state example.stakingKeeper example.valX
                   {[ example.stake := 68600000000000000000 ]} example.genesis
                   (ErrOther "decoding bech32 failed") eq_refl) _ _).
  - exact (nonneg_singleton example.stake 68600000000000000000 ltac:(lia)).
  - vm_compute. discriminate.
Defined.

(** ** The goroutines of a cycle *)

Lemma voteTask_eq sk feeMultiplier total vote s :
  voteTask sk feeMultiplier total vote s =
  match votePlan sk feeMultiplier total vote with
  | PlanErr e => Err e s
  | PlanPanic => Panic
  | PlanOk val valBz commission shared reward =>
      Ok reward {| store := allocateStore valBz commission shared reward (store s);
                   events := events s ++ [commissionEvent val commission;
                                          rewardsEvent val reward] |}
  end.
Proof.
  unfold voteTask, votePlan, bind.
  destruct (ValidatorByConsAddr _ _) as [e|val]; [reflexivity|]. simpl.
  destruct (QuoTruncate _ _) as [frac|]; [|reflexivity]. simpl.
  rewrite AllocateTokensToValidator_eq. cbn zeta.
  destruct (sdk.Sub _ _) as [shared|]; [|reflexivity].
  destruct (StringToBytes _ _) as [e|valBz]; reflexivity.
Qed.

Lemma errgroup_run_plans sk feeMultiplier total votes gerr ch s :
  let plans := map (votePlan sk feeMultiplier total) votes in
  errgroup_run (map (voteTask sk feeMultiplier total) votes) gerr ch s =
  if existsb planPanics plans then Panic
  else Ok (firstError gerr plans, ch ++ omap planReward plans)
          {| store := plansStore plans (store s);
             events := events s ++ concat (map planEvents plans) |}.
Proof.
  cbn zeta. revert gerr ch s.
  induction votes as [|vote votes IH]; intros gerr ch s; simpl.
  - rewrite !app_nil_r. destruct s; reflexivity.
  - rewrite voteTask_eq.
    destruct (votePlan sk feeMultiplier total vote) as [e| |val valBz com sh rew]; simpl.
    + rewrite IH. reflexivity.
    + reflexivity.
    + rewrite IH. simpl. destruct (existsb _ _); [reflexivity|].
      rewrite <- !app_assoc. reflexivity.
Qed.

Lemma hasFunds_refl (c : Coins) : hasFunds c c = true.
Proof.
  unfold hasFunds. apply bool_decide_eq_true_2. intros d a Hd.
  unfold sdk.AmountOf. rewrite Hd. simpl. lia.
Qed.

Lemma SendCoinsFromModuleToModule_eq sender recipient amt s :
  SendCoinsFromModuleToModule sender recipient amt s =
  if hasFunds (balance (bank (store s)) sender) amt
  then Ok tt {| store := withBank (store s) (moveCoins (bank (store s)) sender recipient amt);
                events := events s |}
  else Err ErrInsufficientFunds s.
Proof. reflexivity. Qed.

Lemma planStore_frame p st :
  bank (planStore p st) = bank st /\
  FeePool (planStore p st) = FeePool st /\
  Params (planStore p st) = Params st.
Proof. destruct p; simpl; auto. Qed.

Lemma plansStore_frame plans st :
  bank (plansStore plans st) = bank st /\
  FeePool (plansStore plans st) = FeePool st /\
  Params (plansStore plans st) = Params st.
Proof.
  revert st. induction plans as [|p plans IH]; intros st; simpl; [auto|].
  destruct (IH (planStore p st)) as (-> & -> & ->). apply planStore_frame.
Qed.

(** ** One cycle, step by step *)

Lemma AllocateTokens_eq sk total votes s :
  AllocateTokens sk total votes s =
  let fees := feeCollector (bank (store s)) in
  match sdk.NewDecCoinsFromCoins fees with
  | None => Panic
  | Some feesCollected =>
      let st1 := withBank (store s)
                   (moveCoins (bank (store s)) feeCollectorName ModuleName fees) in
      match FeePool (store s) with
      | None => Err ErrNotFound {| store := st1; events := events s |}
      | Some feePool =>
          let st2 :=
            if bool_decide (total = 0)
            then withFeePool st1
                   (Some {| DecimalPool := sdk.Add (DecimalPool feePool) feesCollected |})
            else st1 in
          match Params (store s) with
          | None => Err ErrNotFound {| store := st2; events := events s |}
          | Some params =>
              let feeMultiplier :=
                sdk.MulDecTruncate feesCollected
                  (LegacyDec.Sub LegacyOneDec (CommunityTax params)) in
              let plans := map (votePlan sk feeMultiplier total) votes in
              if existsb planPanics plans then Panic
              else
                let s3 := {| store := plansStore plans st2;
                             events := events s ++ concat (map planEvents plans) |} in
                match firstError None plans with
                | Some err => Err err s3
                | None =>
                    match subRewards feesCollected (omap planReward plans) with
                    | None => Panic
                    | Some remaining =>
                        match sdk.TruncateDecimal remaining with
                        | None => Panic
                        | Some (amt, re) =>
                            if hasFunds (distribution (bank st2)) amt
                            then Ok tt
                                   {| store :=
                                        withFeePool
                                          (withBank (store s3)
                                             (moveCoins (bank st2) ModuleName
                                                protocolpoolModuleName amt))
                                          (Some {| DecimalPool :=
                                                     sdk.Add (DecimalPool feePool) re |});
                                      events := events s3 |}
                            else Err ErrInsufficientFunds s3
                        end
                    end
                end
          end
      end
  end.
Proof.
  unfold AllocateTokens, bind, GetAllBalances, gets. cbn zeta. simpl balance.
  destruct (sdk.NewDecCoinsFromCoins _) as [feesCollected|]; [|reflexivity]. simpl.
  rewrite SendCoinsFromModuleToModule_eq. simpl balance. rewrite hasFunds_refl.
  unfold FeePool_Get. simpl.
  destruct (FeePool (store s)) as [feePool|]; [|reflexivity].
  assert (forall st1 : Store,
    (if bool_decide (total = 0)
     then FeePool_Set {| DecimalPool := sdk.Add (DecimalPool feePool) feesCollected |}
     else ret tt) {| store := st1; events := events s |} =
    Ok tt {| store := if bool_decide (total = 0)
                      then withFeePool st1
                             (Some {| DecimalPool := sdk.Add (DecimalPool feePool) feesCollected |})
                      else st1;
             events := events s |}) as Hset.
  { intros st1. case_bool_decide; reflexivity. }
  rewrite Hset. clear Hset.
  unfold GetCommunityTax. simpl.
  set (st1 := withBank (store s) _).
  set (st2 := if bool_decide (total = 0) then _ else st1).
  assert (Params st2 = Params (store s)) as HP.
  { unfold st2. case_bool_decide; reflexivity. }
  rewrite HP. destruct (Params (store s)) as [params|]; [|reflexivity].
  rewrite errgroup_run_plans. cbn zeta. simpl.
  destruct (existsb planPanics _); [reflexivity|].
  destruct (firstError None _) as [err|]; [reflexivity|].
  destruct (subRewards _ _) as [remaining|]; [|reflexivity]. simpl.
  destruct (sdk.TruncateDecimal remaining) as [[amt re]|]; [|reflexivity]. simpl.
  rewrite SendCoinsFromModuleToModule_eq. simpl.
  destruct (plansStore_frame (map (votePlan sk
              (sdk.MulDecTruncate feesCollected
                 (LegacyDec.Sub LegacyOneDec (CommunityTax params))) total) votes) st2)
    as (Hb & _ & _).
  rewrite Hb. destruct (hasFunds _ amt); reflexivity.
Qed.

(** ** The flush *)

Lemma hasFunds_amounts (have amt : Coins) :
  (forall denom, sdk.AmountOf amt denom <= sdk.AmountOf have denom) ->
  hasFunds have amt = true.
Proof.
  intros H. apply bool_decide_eq_true_2. intros d a Hd.
  specialize (H d). unfold sdk.AmountOf at 1 in H. rewrite Hd in H. exact H.
Qed.

Lemma moveCoins_to_community b amt :
  moveCoins b ModuleName protocolpoolModuleName amt =
  {| feeCollector := feeCollector b;
     distribution := sdk.safeAdd (distribution b) (sdk.negative amt);
     protocolpool := sdk.safeAdd (protocolpool b) amt |}.
Proof. reflexivity. Qed.

Lemma moveCoins_from_collector b amt :
  moveCoins b feeCollectorName ModuleName amt =
  {| feeCollector := sdk.safeAdd (feeCollector b) (sdk.negative amt);
     distribution := sdk.safeAdd (distribution b) amt;
     protocolpool := protocolpool b |}.
Proof. reflexivity. Qed.

Lemma SendDecimalPoolToCommunityPool_eq s :
  SendDecimalPoolToCommunityPool s =
  match FeePool (store s) with
  | None => Err ErrNotFound s
  | Some feePool =>
      if sdk.IsZero (DecimalPool feePool) then Ok tt s
      else
        match sdk.TruncateDecimal (DecimalPool feePool) with
        | None => Panic
        | Some (amt, re) =>
            if hasFunds (distribution (bank (store s))) amt
            then Ok tt {| store :=
                            withFeePool
                              (withBank (store s)
                                 (moveCoins (bank (store s)) ModuleName
                                    protocolpoolModuleName amt))
                              (Some {| DecimalPool := re |});
                          events := events s |}
            else Err ErrInsufficientFunds s
        end
  end.
Proof.
  unfold SendDecimalPoolToCommunityPool, bind, FeePool_Get.
  destruct (FeePool (store s)) as [feePool|]; [|reflexivity].
  destruct (sdk.IsZero _); [reflexivity|].
  destruct (sdk.TruncateDecimal _) as [[amt re]|]; [|reflexivity]. simpl.
  rewrite SendCoinsFromModuleToModule_eq. simpl.
  destruct (hasFunds _ amt); reflexivity.
Qed.

(** C6.  On a pool whose balance is zero the flush returns nil and leaves
    the state as it was, so nothing is transferred.  On a non-zero pool,
    whenever the flush returns nil it has moved, in every denomination,
    exactly the whole units of the pool from the distribution account to
    the community fund and kept exactly the fraction below one unit in the
    pool; and it does return nil when the pool is non-negative and the
    distribution account holds its whole units.  The amount moved is a
    non-negative integer, and the community fund never decreases,
    whatever the flush returns. *)
Theorem flush_boundary s pool :
  FeePool (store s) = Some {| DecimalPool := pool |} ->
  (sdk.IsZero pool = true -> SendDecimalPoolToCommunityPool s = Ok tt s) /\
  (sdk.IsZero pool = false ->
   forall s', SendDecimalPoolToCommunityPool s = Ok tt s' ->
   forall denom,
     let whole := sdk.AmountOf pool denom `quot` precisionReuse in
     0 <= whole /\
     sdk.AmountOf (protocolpool (bank (store s'))) denom =
       sdk.AmountOf (protocolpool (bank (store s))) denom + whole /\
     sdk.AmountOf (distribution (bank (store s'))) denom =
       sdk.AmountOf (distribution (bank (store s))) denom - whole /\
     sdk.AmountOf (decimalPool (store s')) denom =
       sdk.AmountOf pool denom - LegacyNewDecFromInt whole /\
     0 <= sdk.AmountOf (decimalPool (store s')) denom < precisionReuse) /\
  (sdk.IsZero pool = false ->
   nonneg pool ->
   (forall denom, sdk.AmountOf pool denom `quot` precisionReuse
                  <= sdk.AmountOf (distribution (bank (store s))) denom) ->
   exists s', SendDecimalPoolToCommunityPool s = Ok tt s') /\
  (forall s' denom,
     stateOf (SendDecimalPoolToCommunityPool s) = Some s' ->
     sdk.AmountOf (protocolpool (bank (store s))) denom
     <= sdk.AmountOf (protocolpool (bank (store s'))) denom).
Proof.
  intros Hpool. rewrite SendDecimalPoolToCommunityPool_eq, Hpool. simpl.
  split; [|split; [|split]].
  - intros ->. reflexivity.
  - intros -> s'.
    destruct (sdk.TruncateDecimal pool) as [[amt re]|] eqn:HT; [|discriminate].
    destruct (hasFunds _ amt); [|discriminate]. intros [= <-] d. cbn zeta.
    destruct (TruncateDecimal_amounts _ _ _ d HT) as (H0 & Hamt & Hre & Hsum).
    unfold decimalPool. simpl.
    rewrite !AmountOf_safeAdd, AmountOf_negative, Hamt, Hre.
    pose proof (Z.quot_rem' (sdk.AmountOf pool d) precisionReuse) as Hqr.
    pose proof (Z.rem_bound_pos (sdk.AmountOf pool d) precisionReuse H0) as Hr.
    pose proof (Z.quot_pos (sdk.AmountOf pool d) precisionReuse H0) as Hq.
    unfold LegacyNewDecFromInt. rewrite precisionReuse_val in *. lia.
  - intros -> Hnn Hfunds.
    pose proof (TruncateDecimal_Some pool Hnn) as HT. rewrite HT.
    rewrite hasFunds_amounts; [eauto|].
    intros d. destruct (TruncateDecimal_amounts _ _ _ d HT) as (_ & -> & _). apply Hfunds.
  - intros s' d.
    destruct (sdk.IsZero pool); [intros [= <-]; lia|].
    destruct (sdk.TruncateDecimal pool) as [[amt re]|] eqn:HT; [|discriminate].
    destruct (hasFunds _ amt); intros [= <-]; [|lia]. simpl.
    rewrite AmountOf_safeAdd.
    destruct (TruncateDecimal_amounts _ _ _ d HT) as (H0 & Hamt & _).
    pose proof (Z.quot_pos (sdk.AmountOf pool d) precisionReuse H0) as Hq.
    rewrite precisionReuse_val in *. lia.
Qed.

(** The boundary case of the specification: a pool of 1.999999 stake
    flushes 1 stake and keeps 0.999999. *)
Lemma flush_boundary_witness :
  exists s',
    SendDecimalPoolToCommunityPool
      (flushExample {[ example.stake := 1999999000000000000 ]}) = Ok tt s' /\
    sdk.AmountOf (protocolpool (bank (store s'))) example.stake = 1 /\
    sdk.AmountOf (distribution (bank (store s'))) example.stake = 4 /\
    sdk.AmountOf (decimalPool (store s')) example.stake = 999999000000000000.
Proof.
  destruct (flush_boundary (flushExample {[ example.stake := 1999999000000000000 ]})
              {[ example.stake := 1999999000000000000 ]} eq_refl)
    as (_ & Hmoved & Hruns & _).
  destruct Hruns as (s' & Hrun).
  - vm_compute. reflexivity.
  - exact (nonneg_singleton example.stake 1999999000000000000 ltac:(lia)).
  - intros d. unfold sdk.AmountOf. simpl.
    destruct (decide (d = example.stake)) as [->|Hne].
    + vm_compute. discriminate.
    + rewrite !lookup_singleton_ne by congruence. vm_compute. discriminate.
  - exists s'. split; [exact Hrun|].
    destruct (Hmoved eq_refl s' Hrun example.stake) as (_ & H1 & H2 & H3 & _).
    cbn zeta in *. rewrite H1, H2, H3. vm_compute. auto.
Defined.

(** ** The Decimal Remainder Pool stays non-negative *)

Lemma nonneg_Add a b : nonneg a -> nonneg b -> nonneg (sdk.Add a b).
Proof. intros Ha Hb d. rewrite AmountOf_Add. specialize (Ha d). specialize (Hb d). lia. Qed.

Lemma NewDecCoinsFromCoins_nonneg coins dec :
  sdk.NewDecCoinsFromCoins coins = Some dec -> nonneg dec.
Proof.
  intros (Hn & _ & H)%NewDecCoinsFromCoins_Some d. rewrite H.
  unfold LegacyNewDecFromInt. specialize (Hn d). rewrite precisionReuse_val. lia.
Qed.

Lemma TruncateDecimal_change_nonneg coins amt re :
  sdk.TruncateDecimal coins = Some (amt, re) -> nonneg re.
Proof.
  intros HT d. destruct (TruncateDecimal_amounts _ _ _ d HT) as (H0 & _ & -> & _).
  apply Z.rem_nonneg; [rewrite precisionReuse_val; lia | exact H0].
Qed.

(** C8.  Both operations that write the Decimal Remainder Pool keep it
    non-negative in every denomination: from a non-negative pool, whatever
    state [AllocateTokens] or [SendDecimalPoolToCommunityPool] leaves
    behind (on a nil or on an error return) has a non-negative pool.  No
    assumption on the envelope, the vote powers or the tax rate is
    needed. *)
Theorem decimal_pool_stays_nonneg sk total votes s :
  nonneg (decimalPool (store s)) ->
  (forall s', stateOf (AllocateTokens sk total votes s) = Some s' ->
              nonneg (decimalPool (store s'))) /\
  (forall s', stateOf (SendDecimalPoolToCommunityPool s) = Some s' ->
              nonneg (decimalPool (store s'))).
Proof.
  intros Hpool. split; intros s'.
  - rewrite AllocateTokens_eq. cbn zeta.
    destruct (sdk.NewDecCoinsFromCoins _) as [feesCollected|] eqn:Hfees; [|discriminate].
    apply NewDecCoinsFromCoins_nonneg in Hfees.
    unfold decimalPool in Hpool.
    destruct (FeePool (store s)) as [feePool|] eqn:HFP.
    2:{ intros [= <-]. unfold decimalPool. simpl. rewrite HFP. apply nonneg_empty. }
    set (st1 := withBank (store s) _).
    set (st2 := if bool_decide (total = 0) then _ else st1).
    assert (nonneg (decimalPool st2)) as Hst2.
    { unfold st2, decimalPool. case_bool_decide; simpl.
      - apply nonneg_Add; assumption.
      - rewrite HFP. exact Hpool. }
    destruct (Params (store s)) as [params|]; [|intros [= <-]; exact Hst2].
    set (plans := map _ votes).
    destruct (existsb planPanics plans); [discriminate|].
    assert (nonneg (decimalPool (plansStore plans st2))) as Hs3.
    { unfold decimalPool. destruct (plansStore_frame plans st2) as (_ & -> & _). exact Hst2. }
    destruct (firstError None plans); [intros [= <-]; exact Hs3|].
    destruct (subRewards _ _) as [remaining|]; [|discriminate].
    destruct (sdk.TruncateDecimal remaining) as [[amt re]|] eqn:HT; [|discriminate].
    destruct (hasFunds _ amt); intros [= <-]; [|exact Hs3].
    unfold decimalPool. simpl. apply nonneg_Add; [exact Hpool|].
    apply (TruncateDecimal_change_nonneg _ _ _ HT).
  - rewrite SendDecimalPoolToCommunityPool_eq.
    unfold decimalPool in Hpool |- *.
    destruct (FeePool (store s)) as [feePool|] eqn:HFP.
    2:{ intros [= <-]. rewrite HFP. apply nonneg_empty. }
    destruct (sdk.IsZero _); [intros [= <-]; rewrite HFP; exact Hpool|].
    destruct (sdk.TruncateDecimal _) as [[amt re]|] eqn:HT; [|discriminate].
    destruct (hasFunds _ amt); intros [= <-]; [|rewrite HFP; exact Hpool].
    simpl. apply (TruncateDecimal_change_nonneg _ _ _ HT).
Qed.

Lemma decimal_pool_stays_nonneg_witness :
  (exists s',
     AllocateTokens example.stakingKeeper 100
       [example.vote "consA" 70; example.vote "consB" 30] example.genesis = Ok tt s' /\
     nonneg (decimalPool (store s'))) /\
  (exists s',
     SendDecimalPoolToCommunityPool
       (flushExample {[ example.stake := 1999999000000000000 ]}) = Ok tt s' /\
     nonneg (decimalPool (store s'))).
Proof.
  split.
  - destruct (decimal_pool_stays_nonneg example.stakingKeeper 100
                [example.vote "consA" 70; example.vote "consB" 30] example.genesis
                nonneg_empty) as [H _].
    eexists. split; [vm_compute; reflexivity|].
    apply H. vm_compute. reflexivity.
  - destruct (decimal_pool_stays_nonneg example.stakingKeeper 0 []
                (flushExample {[ example.stake := 1999999000000000000 ]})) as [_ H].
    + exact (nonneg_singleton example.stake 1999999000000000000 ltac:(lia)).
    + eexists. split; [vm_compute; reflexivity|].
      apply H. vm_compute. reflexivity.
Defined.

(** ** The zero-power cycle *)

(** C2 fails on the code.  Lines 39-43 add the envelope to the pool and
    do not return: with no votes the cycle goes on, sends the whole
    envelope of 100 stake to the community fund and writes the pool it
    read at line 34 back, so the pool is left as it was; with a vote the
    goroutine divides by the zero total power and panics. *)
Theorem zero_power_cycle_goes_on :
  (exists s',
     AllocateTokens example.stakingKeeper 0 [] example.genesis = Ok tt s' /\
     decimalPool (store s') = decimalPool (store example.genesis) /\
     sdk.AmountOf (protocolpool (bank (store s'))) example.stake = 100 /\
     sdk.AmountOf (distribution (bank (store s'))) example.stake = 0) /\
  AllocateTokens example.stakingKeeper 0 [example.vote "consA" 70] example.genesis
  = Panic.
Proof.
  split.
  - eexists. split; [vm_compute; reflexivity|].
    split; [vm_compute; reflexivity|]. split; vm_compute; reflexivity.
  - vm_compute. reflexivity.
Qed.

(** ** Conservation *)

Lemma sumZ_app l1 l2 : sumZ (l1 ++ l2) = sumZ l1 + sumZ l2.
Proof. unfold sumZ. induction l1; simpl; lia. Qed.

Lemma sumZ_map_add {A} (f g : A -> Z) l :
  sumZ (map (fun x => f x + g x) l) = sumZ (map f l) + sumZ (map g l).
Proof. unfold sumZ. induction l; simpl; lia. Qed.

Lemma sumZ_map_zero {A} (l : list A) : sumZ (map (fun _ => 0) l) = 0.
Proof. unfold sumZ. induction l; simpl; lia. Qed.

Lemma sumZ_map_ext {A} (f g : A -> Z) l :
  (forall x, x ∈ l -> f x = g x) -> sumZ (map f l) = sumZ (map g l).
Proof.
  unfold sumZ. induction l as [|a l IH]; intros H; simpl; [reflexivity|].
  rewrite (H a) by left. rewrite IH; [reflexivity|].
  intros x Hx. apply H. right. exact Hx.
Qed.

(** A sum that selects one key of a duplicate-free list. *)
Lemma sumZ_select (keys : list string) key x :
  NoDup keys -> key ∈ keys ->
  sumZ (map (fun k => if decide (key = k) then x else 0) keys) = x.
Proof.
  unfold sumZ. induction 1 as [|k keys Hk Hnd IH]; intros Hin; simpl.
  - inversion Hin.
  - destruct (decide (key = k)) as [->|Hne].
    + rewrite (sumZ_map_ext _ (fun _ => 0)).
      * pose proof (sumZ_map_zero keys) as Hz. unfold sumZ in *. rewrite Hz. lia.
      * intros k' Hk'. destruct (decide (k = k')) as [->|]; [contradiction|reflexivity].
    + apply elem_of_cons in Hin as [->|Hin]; [contradiction|].
      rewrite IH by exact Hin. lia.
Qed.

Lemma outstandingAt_planStore p st valBz denom :
  sdk.AmountOf (outstandingAt (planStore p st) valBz) denom =
  sdk.AmountOf (outstandingAt st valBz) denom + planShare denom valBz p.
Proof.
  destruct p as [e| |val key com sh rew]; simpl; try lia.
  rewrite outstandingAt_allocateStore.
  destruct (decide (key = valBz)) as [->|]; [|lia].
  rewrite AmountOf_Add. reflexivity.
Qed.

Lemma outstandingAt_plansStore plans st valBz denom :
  sdk.AmountOf (outstandingAt (plansStore plans st) valBz) denom =
  sdk.AmountOf (outstandingAt st valBz) denom
  + sumZ (map (planShare denom valBz) plans).
Proof.
  revert st. induction plans as [|p plans IH]; intros st.
  - unfold sumZ. simpl. lia.
  - change (plansStore (p :: plans) st) with (plansStore plans (planStore p st)).
    rewrite IH, outstandingAt_planStore.
    unfold sumZ. simpl. lia.
Qed.

(** Grouping the shares by validator loses nothing. *)
Lemma planShare_regroup denom (keys : list string) plans :
  NoDup keys ->
  (forall val key com sh rew, PlanOk val key com sh rew ∈ plans -> key ∈ keys) ->
  sumZ (map (fun key => sumZ (map (planShare denom key) plans)) keys) =
  sumZ (map (planAmount denom) plans).
Proof.
  intros Hnd. induction plans as [|p plans IH]; intros Hin.
  - simpl. apply sumZ_map_zero.
  - simpl map at 2.
    rewrite (sumZ_map_ext _ (fun key => planShare denom key p
                                        + sumZ (map (planShare denom key) plans))).
    2:{ intros key _. unfold sumZ. reflexivity. }
    rewrite sumZ_map_add, IH.
    2:{ intros val key com sh rew H. apply (Hin val key com sh rew). right. exact H. }
    assert (sumZ (map (fun key => planShare denom key p) keys) = planAmount denom p) as ->.
    { destruct p as [e| |val key com sh rew]; simpl; try apply sumZ_map_zero.
      apply sumZ_select; [exact Hnd|]. apply (Hin val key com sh rew). left. }
    unfold sumZ. reflexivity.
Qed.

Lemma votePlan_key sk feeMultiplier total vote val key com sh rew :
  votePlan sk feeMultiplier total vote = PlanOk val key com sh rew ->
  voteKey sk vote = Some key.
Proof.
  unfold votePlan, voteKey.
  destruct (ValidatorByConsAddr _ _) as [e|v]; [discriminate|].
  destruct (QuoTruncate _ _); [|discriminate]. cbn zeta.
  destruct (sdk.Sub _ _); [|discriminate].
  destruct (StringToBytes _ _); [discriminate|].
  intros [= <- <- _ _ _]. reflexivity.
Qed.

Lemma subRewards_amount remaining rewards rest denom :
  subRewards remaining rewards = Some rest ->
  sdk.AmountOf rest denom =
  sdk.AmountOf remaining denom - sumZ (map (fun r => sdk.AmountOf r denom) rewards).
Proof.
  revert remaining. induction rewards as [|r rewards IH]; intros remaining; simpl.
  - intros [= ->]. unfold sumZ. simpl. lia.
  - destruct (sdk.Sub remaining r) as [remaining'|] eqn:E; [|discriminate].
    intros H. rewrite (IH _ H), (AmountOf_Sub _ _ _ denom E). unfold sumZ. simpl. lia.
Qed.

Lemma planReward_amounts denom plans :
  sumZ (map (fun r => sdk.AmountOf r denom) (omap planReward plans)) =
  sumZ (map (planAmount denom) plans).
Proof.
  induction plans as [|p plans IH]; [reflexivity|].
  destruct p as [e| |val key com sh rew].
  - exact IH.
  - exact IH.
  - change (sdk.AmountOf rew denom
            + sumZ (map (fun r => sdk.AmountOf r denom) (omap planReward plans))
            = sdk.AmountOf rew denom + sumZ (map (planAmount denom) plans)).
    rewrite IH. reflexivity.
Qed.

(** When the goroutines run one after the other: on every run that returns
    nil, and in every denomination, what the voted validators gained in
    outstanding rewards, plus what was transferred to the community fund,
    plus the change of the Decimal Remainder Pool, is exactly the fee
    envelope (all counted in units of 10^-18). *)
Lemma conservation_in_list_order sk total votes s s' denom :
  AllocateTokens sk total votes s = Ok tt s' ->
  sumZ (map (outstandingDelta s s' denom) (votedValidators sk votes))
  + LegacyNewDecFromInt (communityFundDelta s s' denom)
  + remainderPoolDelta s s' denom
  = LegacyNewDecFromInt (sdk.AmountOf (feeEnvelope s) denom).
Proof.
  rewrite AllocateTokens_eq. cbn zeta.
  destruct (sdk.NewDecCoinsFromCoins _) as [feesCollected|] eqn:Hfees; [|discriminate].
  apply NewDecCoinsFromCoins_Some in Hfees as (_ & _ & Hfees).
  destruct (FeePool (store s)) as [feePool|] eqn:HFP; [|discriminate].
  set (st1 := withBank (store s) _).
  set (st2 := if bool_decide (total = 0) then _ else st1).
  destruct (Params (store s)) as [params|]; [|discriminate].
  set (feeMultiplier := sdk.MulDecTruncate _ _).
  set (plans := map _ votes).
  destruct (existsb planPanics plans); [discriminate|].
  destruct (firstError None plans); [discriminate|].
  destruct (subRewards _ _) as [remaining|] eqn:Hrem; [|discriminate].
  destruct (sdk.TruncateDecimal remaining) as [[amt re]|] eqn:HT; [|discriminate].
  destruct (hasFunds _ amt); intros [= <-]; [].
  assert (bank st2 = bank st1 /\
          ValidatorOutstandingRewards st2 = ValidatorOutstandingRewards (store s)) as [Hb2 Ho2].
  { unfold st2. case_bool_decide; auto. }
  (* the validators *)
  rewrite (sumZ_map_ext _ (fun key => sumZ (map (planShare denom key) plans))).
  2:{ intros key _. unfold outstandingDelta, outstandingAt. simpl.
      pose proof (outstandingAt_plansStore plans st2 key denom) as H.
      unfold outstandingAt in H. rewrite H, Ho2. lia. }
  rewrite (planShare_regroup denom).
  2:{ apply NoDup_remove_dups. }
  2:{ intros val key com sh rew Hin. unfold votedValidators.
      apply elem_of_remove_dups, list_elem_of_omap.
      apply list_elem_of_fmap in Hin as (vote & Hplan & Hvote).
      exists vote. split; [exact Hvote|].
      apply (votePlan_key _ _ _ _ _ _ _ _ _ (eq_sym Hplan)). }
  (* the community fund and the pool *)
  unfold communityFundDelta, remainderPoolDelta, decimalPool, feeEnvelope. simpl.
  rewrite HFP, Hb2. unfold st1. simpl.
  rewrite AmountOf_safeAdd, AmountOf_Add.
  destruct (TruncateDecimal_amounts _ _ _ denom HT) as (_ & _ & _ & Hsum).
  rewrite (subRewards_amount _ _ _ denom Hrem), planReward_amounts, Hfees in Hsum.
  unfold LegacyNewDecFromInt in *. lia.
Qed.

(** ** Where errors come from *)

Lemma firstError_Some gerr plans e :
  firstError gerr plans = Some e ->
  gerr = Some e \/ exists p, p ∈ plans /\ planError p = Some e.
Proof.
  revert gerr. induction plans as [|p plans IH]; intros gerr; simpl.
  - auto.
  - intros H. apply IH in H as [H|(q & Hq & He)].
    + destruct (planError p) as [e0|] eqn:Ep; [|auto].
      destruct gerr as [g|]; simpl in H; [auto|].
      injection H as ->. right. exists p. split; [left|exact Ep].
    + right. exists q. split; [right; exact Hq|exact He].
Qed.

Lemma firstError_None gerr plans :
  firstError gerr plans = None <->
  gerr = None /\ Forall (fun p => planError p = None) plans.
Proof.
  revert gerr. induction plans as [|p plans IH]; intros gerr; simpl.
  - split; [intros ->; auto | intros [-> _]; reflexivity].
  - rewrite IH. destruct (planError p) as [e0|] eqn:Ep.
    + split; [intros [[=] _] | intros [_ H]].
      apply Forall_cons in H as [H _]. congruence.
    + split; intros [-> H]; split; auto.
      apply Forall_cons in H as [_ H]. exact H.
Qed.

Lemma votePlan_error sk feeMultiplier total vote e :
  votePlan sk feeMultiplier total vote = PlanErr e ->
  ValidatorByConsAddr sk (comet.Address (comet.Validator_ vote)) = inl e \/
  exists val,
    ValidatorByConsAddr sk (comet.Address (comet.Validator_ vote)) = inr val /\
    StringToBytes sk (stakingtypes.GetOperator val) = inl e.
Proof.
  unfold votePlan.
  destruct (ValidatorByConsAddr _ _) as [e0|val]; [intros [= ->]; auto|].
  destruct (QuoTruncate _ _); [|discriminate]. cbn zeta.
  destruct (sdk.Sub _ _); [|discriminate].
  destruct (StringToBytes _ _) as [e0|] eqn:Ek; [|discriminate].
  intros [= ->]. right. exists val. auto.
Qed.

(** X17.  The same in general: a zero-power cycle that returns nil had no vote,
    moved the whole envelope to the community fund and left every amount
    of the pool as it was. *)
Lemma zero_power_cycle_in_general sk votes s s' denom :
  AllocateTokens sk 0 votes s = Ok tt s' ->
  votes = [] /\
  remainderPoolDelta s s' denom = 0 /\
  communityFundDelta s s' denom = sdk.AmountOf (feeEnvelope s) denom.
Proof.
  rewrite AllocateTokens_eq. cbn zeta.
  destruct (sdk.NewDecCoinsFromCoins _) as [feesCollected|] eqn:Hfees; [|discriminate].
  apply NewDecCoinsFromCoins_Some in Hfees as (_ & _ & Hfees).
  destruct (FeePool (store s)) as [feePool|] eqn:HFP; [|discriminate].
  destruct (Params (store s)) as [params|]; [|discriminate].
  set (feeMultiplier := sdk.MulDecTruncate _ _).
  destruct votes as [|vote votes].
  - simpl.
    destruct (sdk.TruncateDecimal feesCollected) as [[amt re]|] eqn:HT; [|discriminate].
    destruct (hasFunds _ amt); intros [= <-]; [].
    split; [reflexivity|].
    destruct (TruncateDecimal_amounts _ _ _ denom HT) as (_ & Hamt & Hre & _).
    unfold remainderPoolDelta, communityFundDelta, decimalPool, feeEnvelope. simpl.
    rewrite HFP, AmountOf_Add, AmountOf_safeAdd, Hamt, Hre, Hfees.
    unfold LegacyNewDecFromInt.
    rewrite Z.quot_mul, Z.rem_mul by (rewrite precisionReuse_val; lia). lia.
  - simpl.
    assert (votePlan sk feeMultiplier 0 vote = PlanPanic \/
            exists e, votePlan sk feeMultiplier 0 vote = PlanErr e) as [->|[e ->]].
    { unfold votePlan. destruct (ValidatorByConsAddr _ _); eauto. }
    + discriminate.
    + simpl. destruct (existsb planPanics _); [discriminate|].
      destruct (firstError (Some e) _) eqn:E; [discriminate|].
      apply firstError_None in E as [[=] _].
Qed.


(** ** Order of the votes *)

Lemma existsb_Permutation {A} (f : A -> bool) l l' :
  l ≡ₚ l' -> existsb f l = existsb f l'.
Proof.
  induction 1 as [|x l l' _ IH|x y l|l l' l'' _ IH1 _ IH2]; simpl.
  - reflexivity.
  - rewrite IH. reflexivity.
  - destruct (f x), (f y); reflexivity.
  - congruence.
Qed.

Lemma periodAt_allocateStore valBz commission shared tokens st key :
  periodAt (allocateStore valBz commission shared tokens st) key = periodAt st key.
Proof.
  unfold periodAt, allocateStore, Map_Get. simpl.
  rewrite lookup_insert. destruct (decide (valBz = key)) as [->|]; reflexivity.
Qed.

Lemma Add_swap x a b : sdk.Add (sdk.Add x a) b = sdk.Add (sdk.Add x b) a.
Proof.
  apply coins_ext; try apply Add_zeroFree.
  intros d. rewrite !AmountOf_Add. lia.
Qed.

(** Two allocations commute: different validators have different records,
    and on one validator the additions commute. *)
Lemma allocateStore_comm k1 c1 s1 r1 k2 c2 s2 r2 st :
  allocateStore k1 c1 s1 r1 (allocateStore k2 c2 s2 r2 st) =
  allocateStore k2 c2 s2 r2 (allocateStore k1 c1 s1 r1 st).
Proof.
  unfold allocateStore at 1 3.
  rewrite !commissionAt_allocateStore, !currentAt_allocateStore,
    !outstandingAt_allocateStore, !periodAt_allocateStore.
  simpl.
  destruct (decide (k1 = k2)) as [->|Hne].
  - rewrite !decide_True by reflexivity. rewrite !insert_insert_eq.
    rewrite (Add_swap _ c2 c1), (Add_swap _ s2 s1), (Add_swap _ r2 r1). reflexivity.
  - rewrite !decide_False by congruence.
    rewrite (insert_insert_ne (ValidatorsAccumulatedCommission st) k1 k2) by exact Hne.
    rewrite (insert_insert_ne (ValidatorCurrentRewards st) k1 k2) by exact Hne.
    rewrite (insert_insert_ne (ValidatorOutstandingRewards st) k1 k2) by exact Hne.
    reflexivity.
Qed.

Lemma planStore_comm p q st :
  planStore p (planStore q st) = planStore q (planStore p st).
Proof. destruct p, q; simpl; try reflexivity. apply allocateStore_comm. Qed.

Lemma plansStore_Permutation plans plans' :
  plans ≡ₚ plans' -> forall st, plansStore plans st = plansStore plans' st.
Proof.
  induction 1 as [|p l l' _ IH|p q l|l l' l'' _ IH1 _ IH2]; intros st.
  - reflexivity.
  - apply (IH (planStore p st)).
  - change (plansStore l (planStore p (planStore q st)) =
            plansStore l (planStore q (planStore p st))).
    rewrite planStore_comm. reflexivity.
  - rewrite IH1. apply IH2.
Qed.

(** Subtracting two rewards of the same sign from a non-negative amount
    panics in one order exactly when it does in the other. *)
Lemma Sub_swap a x y :
  nonneg a ->
  (forall denom, (0 <= sdk.AmountOf x denom /\ 0 <= sdk.AmountOf y denom) \/
                 (sdk.AmountOf x denom <= 0 /\ sdk.AmountOf y denom <= 0)) ->
  match sdk.Sub a x with Some a' => sdk.Sub a' y | None => None end =
  match sdk.Sub a y with Some a' => sdk.Sub a' x | None => None end.
Proof.
  intros Ha Hsign.
  destruct (sdk.Sub a x) as [a1|] eqn:E1, (sdk.Sub a y) as [a2|] eqn:E2.
  - destruct (sdk.Sub a1 y) as [b1|] eqn:F1, (sdk.Sub a2 x) as [b2|] eqn:F2.
    + f_equal. apply coins_ext; [eapply Sub_zeroFree; eauto..|].
      intros d. rewrite (AmountOf_Sub _ _ _ d F1), (AmountOf_Sub _ _ _ d F2),
        (AmountOf_Sub _ _ _ d E1), (AmountOf_Sub _ _ _ d E2). lia.
    + apply Sub_None in F2 as [d Hd]. apply Sub_Some in F1 as [_ F1].
      specialize (F1 d).
      rewrite (AmountOf_Sub _ _ _ d E1) in F1. rewrite (AmountOf_Sub _ _ _ d E2) in Hd. lia.
    + apply Sub_None in F1 as [d Hd]. apply Sub_Some in F2 as [_ F2].
      specialize (F2 d).
      rewrite (AmountOf_Sub _ _ _ d E2) in F2. rewrite (AmountOf_Sub _ _ _ d E1) in Hd. lia.
    + reflexivity.
  - apply Sub_None in E2 as [d Hd].
    destruct (sdk.Sub a1 y) as [b1|] eqn:F1; [|reflexivity].
    apply Sub_Some in F1 as [_ F1]. specialize (F1 d).
    rewrite (AmountOf_Sub _ _ _ d E1) in F1.
    specialize (Ha d). specialize (Hsign d). lia.
  - apply Sub_None in E1 as [d Hd].
    destruct (sdk.Sub a2 x) as [b2|] eqn:F2; [|reflexivity].
    apply Sub_Some in F2 as [_ F2]. specialize (F2 d).
    rewrite (AmountOf_Sub _ _ _ d E2) in F2.
    specialize (Ha d). specialize (Hsign d). lia.
  - reflexivity.
Qed.

Lemma sameSignAt_Permutation denom rewards rewards' :
  rewards ≡ₚ rewards' -> sameSignAt denom rewards -> sameSignAt denom rewards'.
Proof.
  intros Hp [H|H]; [left|right]; rewrite <- Hp; exact H.
Qed.

Lemma sameSignAt_tail denom r rewards :
  sameSignAt denom (r :: rewards) -> sameSignAt denom rewards.
Proof. intros [H|H]; [left|right]; apply Forall_cons in H as [_ H]; exact H. Qed.

Lemma sameSignAt_two denom x y rewards :
  sameSignAt denom (x :: y :: rewards) ->
  (0 <= sdk.AmountOf x denom /\ 0 <= sdk.AmountOf y denom) \/
  (sdk.AmountOf x denom <= 0 /\ sdk.AmountOf y denom <= 0).
Proof.
  intros [H|H]; [left|right];
    apply Forall_cons in H as [Hx H]; apply Forall_cons in H as [Hy _]; auto.
Qed.

Lemma subRewards_two remaining x y rewards :
  subRewards remaining (x :: y :: rewards) =
  match (match sdk.Sub remaining x with Some a' => sdk.Sub a' y | None => None end) with
  | Some a'' => subRewards a'' rewards
  | None => None
  end.
Proof. simpl. destruct (sdk.Sub remaining x); reflexivity. Qed.

Lemma subRewards_Permutation rewards rewards' :
  rewards ≡ₚ rewards' ->
  forall remaining,
    nonneg remaining ->
    (forall denom, sameSignAt denom rewards) ->
    subRewards remaining rewards = subRewards remaining rewards'.
Proof.
  induction 1 as [|r l l' _ IH|x y l|l l' l'' Hp1 IH1 _ IH2]; intros a Ha Hsign.
  - reflexivity.
  - simpl. destruct (sdk.Sub a r) as [a'|] eqn:E; [|reflexivity].
    apply IH; [eapply Sub_nonneg; eauto|].
    intros d. eapply sameSignAt_tail, Hsign.
  - rewrite !subRewards_two, (Sub_swap a y x Ha); [reflexivity|].
    intros d. apply (sameSignAt_two d y x l (Hsign d)).
  - rewrite IH1 by assumption. apply IH2; [assumption|].
    intros d. eapply sameSignAt_Permutation; [exact Hp1|apply Hsign].
Qed.

(** Signs of truncated quotients. *)
Lemma quot_nonneg a b : b <> 0 -> 0 <= a * b -> 0 <= a `quot` b.
Proof.
  intros Hb Hab. destruct (Z_lt_le_dec 0 b).
  - apply Z.quot_pos; nia.
  - rewrite <- (Z.opp_involutive a), <- (Z.opp_involutive b).
    rewrite Z.quot_opp_opp by lia. apply Z.quot_pos; nia.
Qed.

Lemma quot_nonpos a b : b <> 0 -> a * b <= 0 -> a `quot` b <= 0.
Proof.
  intros Hb Hab.
  assert (0 <= (- a) `quot` b) as H by (apply quot_nonneg; [exact Hb|nia]).
  rewrite Z.quot_opp_l in H by exact Hb. lia.
Qed.

(** The power fraction of a non-negative power has the sign of the total. *)
Lemma QuoTruncate_sign power total fraction :
  0 <= power ->
  QuoTruncate (LegacyNewDec power) (LegacyNewDec total) = Some fraction ->
  total <> 0 /\ 0 <= fraction * total.
Proof.
  unfold QuoTruncate, LegacyNewDec, chopPrecisionAndTruncate.
  rewrite precisionReuse_val. intros Hp.
  case_bool_decide as Hz; [discriminate|]. intros [= <-].
  assert (total <> 0) as Ht by lia. split; [exact Ht|].
  set (num := power * 1000000000000000000 * (1000000000000000000 * 1000000000000000000)).
  assert (0 <= num) by (unfold num; nia).
  destruct (Z_lt_le_dec 0 total).
  - assert (0 <= num `quot` (total * 1000000000000000000))
      by (apply quot_nonneg; nia).
    assert (0 <= (num `quot` (total * 1000000000000000000)) `quot` 1000000000000000000)
      by (apply quot_nonneg; nia).
    nia.
  - assert (num `quot` (total * 1000000000000000000) <= 0)
      by (apply quot_nonpos; nia).
    assert ((num `quot` (total * 1000000000000000000)) `quot` 1000000000000000000 <= 0)
      by (apply quot_nonpos; nia).
    nia.
Qed.

Lemma votePlan_reward sk feeMultiplier total vote val key com sh rew :
  votePlan sk feeMultiplier total vote = PlanOk val key com sh rew ->
  exists fraction,
    QuoTruncate (LegacyNewDec (comet.Power (comet.Validator_ vote)))
                (LegacyNewDec total) = Some fraction /\
    rew = sdk.MulDecTruncate feeMultiplier fraction.
Proof.
  unfold votePlan.
  destruct (ValidatorByConsAddr _ _) as [e|v]; [discriminate|].
  destruct (QuoTruncate _ _) as [fraction|]; [|discriminate]. cbn zeta.
  destruct (sdk.Sub _ _); [|discriminate].
  destruct (StringToBytes _ _); [discriminate|].
  intros [= _ _ _ _ <-]. eauto.
Qed.

Lemma rewards_sameSign sk feeMultiplier total votes denom :
  Forall (fun vote => 0 <= comet.Power (comet.Validator_ vote)) votes ->
  sameSignAt denom (omap planReward (map (votePlan sk feeMultiplier total) votes)).
Proof.
  intros Hpow.
  assert (forall vote val key com sh rew,
            0 <= comet.Power (comet.Validator_ vote) ->
            votePlan sk feeMultiplier total vote = PlanOk val key com sh rew ->
            total <> 0 /\ exists fraction,
              0 <= fraction * total /\
              sdk.AmountOf rew denom
              = (sdk.AmountOf feeMultiplier denom * fraction) `quot` precisionReuse) as Hone.
  { intros vote val key com sh rew Hp Hplan.
    apply votePlan_reward in Hplan as (fraction & Hq & ->).
    apply QuoTruncate_sign in Hq as [Ht Hf]; [|exact Hp].
    split; [exact Ht|]. exists fraction. split; [exact Hf|].
    rewrite AmountOf_MulDecTruncate. reflexivity. }
  destruct (Z_le_gt_dec 0 (sdk.AmountOf feeMultiplier denom * total)) as [Hs|Hs];
    [left|right].
  - induction Hpow as [|vote votes Hp _ IH]; [constructor|]. simpl.
    destruct (votePlan sk feeMultiplier total vote) as [| |val key com sh rew] eqn:Hplan;
      simpl; try exact IH.
    constructor; [|exact IH].
    destruct (Hone _ _ _ _ _ _ Hp Hplan) as (Ht & fraction & Hf & ->).
    apply quot_nonneg; rewrite precisionReuse_val; [lia|].
    assert (0 <= sdk.AmountOf feeMultiplier denom * fraction) by nia. lia.
  - induction Hpow as [|vote votes Hp _ IH]; [constructor|]. simpl.
    destruct (votePlan sk feeMultiplier total vote) as [| |val key com sh rew] eqn:Hplan;
      simpl; try exact IH.
    constructor; [|exact IH].
    destruct (Hone _ _ _ _ _ _ Hp Hplan) as (Ht & fraction & Hf & ->).
    apply quot_nonpos; rewrite precisionReuse_val; [lia|].
    assert (sdk.AmountOf feeMultiplier denom * fraction <= 0) by nia. lia.
Qed.

Lemma sumZ_Permutation l l' : l ≡ₚ l' -> sumZ l = sumZ l'.
Proof.
  unfold sumZ. induction 1 as [|x l l' _ IH|x y l|l l' l'' _ IH1 _ IH2]; simpl; lia.
Qed.

Lemma subRewards_zeroFree remaining r rewards rest :
  subRewards remaining (r :: rewards) = Some rest -> zeroFree rest.
Proof.
  revert remaining r. induction rewards as [|r' rewards IH]; intros a r; simpl.
  - destruct (sdk.Sub a r) as [a'|] eqn:E; [|discriminate].
    intros [= <-]. eapply Sub_zeroFree, E.
  - destruct (sdk.Sub a r) as [a'|]; [|discriminate]. apply (IH a' r').
Qed.

(** When the subtractions succeed in both orders, they leave the same
    amount. *)
Lemma subRewards_Permutation_Some rewards rewards' remaining rest rest' :
  rewards ≡ₚ rewards' ->
  subRewards remaining rewards = Some rest ->
  subRewards remaining rewards' = Some rest' ->
  rest = rest'.
Proof.
  intros Hp H H'.
  destruct rewards as [|r rewards].
  - apply Permutation_nil in Hp. subst rewards'. simpl in *. congruence.
  - destruct rewards' as [|r' rewards'].
    { symmetry in Hp. apply Permutation_nil in Hp. discriminate. }
    apply coins_ext; [eapply subRewards_zeroFree; eauto..|].
    intros d. rewrite (subRewards_amount _ _ _ d H), (subRewards_amount _ _ _ d H').
    f_equal. apply sumZ_Permutation.
    apply (fmap_Permutation (fun r => sdk.AmountOf r d) _ _ Hp).
Qed.

(** With a negative power the subtraction at line 88
    can go below zero in one order only.  From 10 stake of fees and no
    tax, validator A (power 200 of 100) is due 20 and validator C (power
    -100, 100% commission) -10: subtracting 20 first panics, subtracting
    -10 first does not. *)
Lemma negative_power_order_matters :
  let s := {| store :=
                {| bank := {| feeCollector := {[ example.stake := 10 ]};
                              distribution := ∅; protocolpool := ∅ |};
                   FeePool := Some {| DecimalPool := ∅ |};
                   Params := Some {| CommunityTax := 0 |};
                   ValidatorsAccumulatedCommission := ∅;
                   ValidatorCurrentRewards := ∅;
                   ValidatorOutstandingRewards := ∅ |};
              events := [] |} in
  AllocateTokens example.stakingKeeper 100
    [example.vote "consA" 200; example.vote "consC" (-100)] s = Panic /\
  exists s',
    AllocateTokens example.stakingKeeper 100
      [example.vote "consC" (-100); example.vote "consA" 200] s = Ok tt s'.
Proof.
  split; [vm_compute; reflexivity|]. eexists. vm_compute. reflexivity.
Qed.

(** * Further properties of the three functions *)

(** ** One allocation *)

(** X1.  The split is exact: what a successful call credits as commission
    and what it credits as current rewards add up, in every denomination,
    to the reward, which is also what it adds to the outstanding
    rewards. *)
Theorem commission_split_exact sk val tokens s s' valBz denom :
  StringToBytes sk (stakingtypes.GetOperator val) = inr valBz ->
  AllocateTokensToValidator sk val tokens s = Ok tt s' ->
  creditedCommission s s' valBz denom + creditedCurrent s s' valBz denom
  = sdk.AmountOf tokens denom /\
  outstandingDelta s s' denom valBz = sdk.AmountOf tokens denom.
Proof.
  intros Hk Hok.
  apply AllocateTokensToValidator_Ok in Hok as (shared & k & Hsub & Hk' & Hs).
  rewrite Hk in Hk'. injection Hk' as <-.
  unfold creditedCommission, creditedCurrent, outstandingDelta. rewrite Hs.
  rewrite commissionAt_allocateStore, currentAt_allocateStore, outstandingAt_allocateStore.
  rewrite !decide_True by reflexivity. rewrite !AmountOf_Add.
  rewrite (AmountOf_Sub _ _ _ denom Hsub). lia.
Qed.

Lemma commission_split_exact_witness :
  exists s',
    AllocateTokensToValidator example.stakingKeeper example.valA
      {[ example.stake := 15 ]} example.genesis = Ok tt s' /\
    creditedCommission example.genesis s' "A" example.stake
    + creditedCurrent example.genesis s' "A" example.stake = 15.
Proof.
  eexists. split; [vm_compute; reflexivity|].
  refine (proj1 (commission_split_exact example.stakingKeeper example.valA
                   {[ example.stake := 15 ]} example.genesis _ "A" example.stake
                   eq_refl _)).
  vm_compute. reflexivity.
Defined.

(** X2.  A successful call writes the three records of its validator and
    nothing else: the balances, the fee pool and the parameters are as
    before, so are the records of every other validator, and the period
    of the validator's current rewards is kept. *)
Theorem allocation_touches_one_validator sk val tokens s s' valBz :
  StringToBytes sk (stakingtypes.GetOperator val) = inr valBz ->
  AllocateTokensToValidator sk val tokens s = Ok tt s' ->
  bank (store s') = bank (store s) /\
  FeePool (store s') = FeePool (store s) /\
  Params (store s') = Params (store s) /\
  periodAt (store s') valBz = periodAt (store s) valBz /\
  forall key, key <> valBz ->
    ValidatorsAccumulatedCommission (store s') !! key
      = ValidatorsAccumulatedCommission (store s) !! key /\
    ValidatorCurrentRewards (store s') !! key
      = ValidatorCurrentRewards (store s) !! key /\
    ValidatorOutstandingRewards (store s') !! key
      = ValidatorOutstandingRewards (store s) !! key.
Proof.
  intros Hk Hok.
  apply AllocateTokensToValidator_Ok in Hok as (shared & k & _ & Hk' & Hs).
  rewrite Hk in Hk'. injection Hk' as <-. rewrite Hs.
  repeat split; try reflexivity.
  - apply periodAt_allocateStore.
  - simpl. apply lookup_insert_ne. congruence.
  - simpl. apply lookup_insert_ne. congruence.
  - simpl. apply lookup_insert_ne. congruence.
Qed.

Lemma allocation_touches_one_validator_witness :
  exists s',
    AllocateTokensToValidator example.stakingKeeper example.valA
      {[ example.stake := 15 ]} example.genesis = Ok tt s' /\
    bank (store s') = bank (store example.genesis) /\
    ValidatorOutstandingRewards (store s') !! "B"
      = ValidatorOutstandingRewards (store example.genesis) !! "B".
Proof.
  eexists. split; [vm_compute; reflexivity|].
  pose proof (allocation_touches_one_validator example.stakingKeeper example.valA
                {[ example.stake := 15 ]} example.genesis) as H.
  edestruct H as (Hb & _ & _ & _ & Hother); [reflexivity|vm_compute; reflexivity|].
  split; [exact Hb|]. apply (Hother "B"). discriminate.
Defined.

Lemma MulDec_IsZero tokens c : sdk.IsZero tokens = true -> sdk.MulDec tokens c = ∅.
Proof.
  intros Hz. apply coins_ext.
  - apply omap_nonzero_zeroFree.
  - apply zeroFree_empty.
  - intros d. rewrite AmountOf_MulDec, AmountOf_empty.
    rewrite (proj1 (IsZero_true tokens) Hz d). reflexivity.
Qed.

(** X3.  A reward of zero is not special-cased: the call still returns
    nil and leaves the three records of the validator present, created if
    they were absent, with every amount as it was. *)
Theorem zero_reward_still_writes sk val tokens s valBz :
  StringToBytes sk (stakingtypes.GetOperator val) = inr valBz ->
  sdk.IsZero tokens = true ->
  exists s',
    AllocateTokensToValidator sk val tokens s = Ok tt s' /\
    is_Some (ValidatorsAccumulatedCommission (store s') !! valBz) /\
    is_Some (ValidatorCurrentRewards (store s') !! valBz) /\
    is_Some (ValidatorOutstandingRewards (store s') !! valBz) /\
    forall key denom,
      sdk.AmountOf (commissionAt (store s') key) denom
        = sdk.AmountOf (commissionAt (store s) key) denom /\
      sdk.AmountOf (currentAt (store s') key) denom
        = sdk.AmountOf (currentAt (store s) key) denom /\
      sdk.AmountOf (outstandingAt (store s') key) denom
        = sdk.AmountOf (outstandingAt (store s) key) denom.
Proof.
  intros Hk Hz. pose proof (proj1 (IsZero_true tokens) Hz) as Hzero.
  rewrite AllocateTokensToValidator_eq. cbn zeta.
  rewrite (MulDec_IsZero _ _ Hz).
  destruct (sdk.Sub tokens ∅) as [shared|] eqn:Hsub.
  2:{ apply Sub_None in Hsub as [d Hd]. rewrite AmountOf_empty, Hzero in Hd. lia. }
  rewrite Hk. eexists. split; [reflexivity|]. simpl.
  rewrite !lookup_insert_eq. repeat split; eauto.
  - rewrite commissionAt_allocateStore. destruct (decide (valBz = key)) as [->|]; [|reflexivity].
    rewrite AmountOf_Add, AmountOf_empty. lia.
  - rewrite currentAt_allocateStore. destruct (decide (valBz = key)) as [->|]; [|reflexivity].
    rewrite AmountOf_Add, (AmountOf_Sub _ _ _ denom Hsub), AmountOf_empty, Hzero. lia.
  - rewrite outstandingAt_allocateStore. destruct (decide (valBz = key)) as [->|]; [|reflexivity].
    rewrite AmountOf_Add, Hzero. lia.
Qed.

Lemma zero_reward_still_writes_witness :
  exists s',
    AllocateTokensToValidator example.stakingKeeper example.valA ∅ example.genesis
    = Ok tt s' /\
    is_Some (ValidatorOutstandingRewards (store s') !! "A").
Proof.
  destruct (zero_reward_still_writes example.stakingKeeper example.valA ∅
              example.genesis "A") as (s' & Hrun & _ & _ & Hout & _).
  - reflexivity.
  - vm_compute. reflexivity.
  - exists s'. split; assumption.
Defined.

(** X4.  Allocations commute: when two calls return nil one after the
    other, they also do in the other order, and the stores they leave are
    the same, be the two validators different or one and the same. *)
Theorem allocations_commute sk val1 tokens1 val2 tokens2 s s1 s12 :
  AllocateTokensToValidator sk val1 tokens1 s = Ok tt s1 ->
  AllocateTokensToValidator sk val2 tokens2 s1 = Ok tt s12 ->
  exists s2 s21,
    AllocateTokensToValidator sk val2 tokens2 s = Ok tt s2 /\
    AllocateTokensToValidator sk val1 tokens1 s2 = Ok tt s21 /\
    store s21 = store s12.
Proof.
  intros H1 H2.
  apply AllocateTokensToValidator_Ok in H1 as (sh1 & k1 & Hsub1 & Hk1 & Hs1).
  apply AllocateTokensToValidator_Ok in H2 as (sh2 & k2 & Hsub2 & Hk2 & Hs2).
  rewrite AllocateTokensToValidator_eq. cbn zeta. rewrite Hsub2, Hk2.
  eexists. eexists. split; [reflexivity|].
  rewrite AllocateTokensToValidator_eq. cbn zeta. rewrite Hsub1, Hk1.
  split; [reflexivity|]. simpl.
  rewrite Hs2, Hs1. apply allocateStore_comm.
Qed.

Lemma allocations_commute_witness :
  exists s2 s21 s12,
    AllocateTokensToValidator example.stakingKeeper example.valB
      {[ example.stake := 29400000000000000000 ]} example.genesis = Ok tt s2 /\
    AllocateTokensToValidator example.stakingKeeper example.valA
      {[ example.stake := 68600000000000000000 ]} s2 = Ok tt s21 /\
    store s21 = store s12.
Proof.
  edestruct (allocations_commute example.stakingKeeper
               example.valA {[ example.stake := 68600000000000000000 ]}
               example.valB {[ example.stake := 29400000000000000000 ]}
               example.genesis) as (s2 & s21 & H1 & H2 & H3).
  - vm_compute. reflexivity.
  - vm_compute. reflexivity.
  - exists s2, s21. eexists. split; [exact H1|]. split; [exact H2|exact H3].
Defined.

(** X5.  With a non-negative reward and a commission rate between zero
    and one, a successful call decreases none of the three accumulators of
    any validator in any denomination. *)
Theorem accumulators_do_not_decrease sk val tokens s s' key denom :
  nonneg tokens ->
  0 <= stakingtypes.GetCommission val <= LegacyOneDec ->
  AllocateTokensToValidator sk val tokens s = Ok tt s' ->
  sdk.AmountOf (commissionAt (store s) key) denom
    <= sdk.AmountOf (commissionAt (store s') key) denom /\
  sdk.AmountOf (currentAt (store s) key) denom
    <= sdk.AmountOf (currentAt (store s') key) denom /\
  sdk.AmountOf (outstandingAt (store s) key) denom
    <= sdk.AmountOf (outstandingAt (store s') key) denom.
Proof.
  intros Ht [Hc0 Hc1] Hok.
  apply AllocateTokensToValidator_Ok in Hok as (shared & k & Hsub & _ & ->).
  rewrite commissionAt_allocateStore, currentAt_allocateStore, outstandingAt_allocateStore.
  destruct (decide (k = key)) as [->|]; [|lia].
  rewrite !AmountOf_Add, (AmountOf_Sub _ _ _ denom Hsub), AmountOf_MulDec.
  pose proof (Mul_nonneg _ _ (Ht denom) Hc0).
  pose proof (Mul_le_self _ _ (Ht denom) Hc1).
  specialize (Ht denom). lia.
Qed.

Lemma accumulators_do_not_decrease_witness :
  exists s',
    AllocateTokensToValidator example.stakingKeeper example.valA
      {[ example.stake := 15 ]} example.genesis = Ok tt s' /\
    sdk.AmountOf (currentAt (store example.genesis) "A") example.stake
      <= sdk.AmountOf (currentAt (store s') "A") example.stake.
Proof.
  eexists. split; [vm_compute; reflexivity|].
  refine (proj1 (proj2 (accumulators_do_not_decrease example.stakingKeeper example.valA
                          {[ example.stake := 15 ]} example.genesis _ "A" example.stake
                          _ _ _))).
  - exact (nonneg_singleton example.stake 15 ltac:(lia)).
  - vm_compute. split; discriminate.
  - vm_compute. reflexivity.
Defined.

(** ** One cycle *)

Lemma bankTotal_from_collector b amt denom :
  bankTotal (moveCoins b feeCollectorName ModuleName amt) denom = bankTotal b denom.
Proof.
  rewrite moveCoins_from_collector. unfold bankTotal. simpl.
  rewrite !AmountOf_safeAdd, AmountOf_negative. lia.
Qed.

Lemma bankTotal_to_community b amt denom :
  bankTotal (moveCoins b ModuleName protocolpoolModuleName amt) denom = bankTotal b denom.
Proof.
  rewrite moveCoins_to_community. unfold bankTotal. simpl.
  rewrite !AmountOf_safeAdd, AmountOf_negative. lia.
Qed.

Lemma feeCollector_emptied b denom :
  sdk.AmountOf (feeCollector (moveCoins b feeCollectorName ModuleName (feeCollector b)))
    denom = 0.
Proof.
  rewrite moveCoins_from_collector. simpl.
  rewrite AmountOf_safeAdd, AmountOf_negative. lia.
Qed.

(** When the goroutines run one after the other, the outstanding rewards
    of a validator grow by the rewards of the votes whose goroutine
    returned nil, whatever the cycle returns. *)
Lemma outstanding_growth_in_list_order sk total votes s s' valBz denom :
  is_Some (FeePool (store s)) ->
  is_Some (Params (store s)) ->
  stateOf (AllocateTokens sk total votes s) = Some s' ->
  sdk.AmountOf (outstandingAt (store s') valBz) denom
  = sdk.AmountOf (outstandingAt (store s) valBz) denom
    + sumZ (map (voteShare sk (store s) total denom valBz) votes).
Proof.
  intros [feePool HFP] [params HP].
  rewrite AllocateTokens_eq. cbn zeta.
  unfold voteShare, cycleFeeMultiplier. rewrite HFP, HP.
  destruct (sdk.NewDecCoinsFromCoins _) as [feesCollected|]; [|discriminate].
  set (st1 := withBank (store s) _).
  set (st2 := if bool_decide (total = 0) then _ else st1).
  set (feeMultiplier := sdk.MulDecTruncate _ _).
  assert (ValidatorOutstandingRewards st2 = ValidatorOutstandingRewards (store s)) as Ho2.
  { unfold st2. case_bool_decide; reflexivity. }
  assert (sdk.AmountOf (outstandingAt
                          (plansStore (map (votePlan sk feeMultiplier total) votes) st2)
                          valBz) denom
          = sdk.AmountOf (outstandingAt (store s) valBz) denom
            + sumZ (map (fun vote => planShare denom valBz
                                       (votePlan sk feeMultiplier total vote)) votes)) as Hs3.
  { rewrite outstandingAt_plansStore, map_map.
    unfold outstandingAt. rewrite Ho2. reflexivity. }
  destruct (existsb planPanics _); [discriminate|].
  destruct (firstError None _); [intros [= <-]; exact Hs3|].
  destruct (subRewards _ _) as [remaining|]; [|discriminate].
  destruct (sdk.TruncateDecimal remaining) as [[amt re]|]; [|discriminate].
  destruct (hasFunds _ amt); intros [= <-]; exact Hs3.
Qed.

Lemma planStore_lookup_other p st key :
  (forall val k com sh rew, p = PlanOk val k com sh rew -> k <> key) ->
  ValidatorsAccumulatedCommission (planStore p st) !! key
    = ValidatorsAccumulatedCommission st !! key /\
  ValidatorCurrentRewards (planStore p st) !! key
    = ValidatorCurrentRewards st !! key /\
  ValidatorOutstandingRewards (planStore p st) !! key
    = ValidatorOutstandingRewards st !! key.
Proof.
  intros H. destruct p as [e| |val k com sh rew]; simpl; auto.
  specialize (H val k com sh rew eq_refl).
  rewrite !lookup_insert_ne by exact H. auto.
Qed.

Lemma plansStore_lookup_other plans st key :
  (forall val k com sh rew, PlanOk val k com sh rew ∈ plans -> k <> key) ->
  ValidatorsAccumulatedCommission (plansStore plans st) !! key
    = ValidatorsAccumulatedCommission st !! key /\
  ValidatorCurrentRewards (plansStore plans st) !! key
    = ValidatorCurrentRewards st !! key /\
  ValidatorOutstandingRewards (plansStore plans st) !! key
    = ValidatorOutstandingRewards st !! key.
Proof.
  revert st. induction plans as [|p plans IH]; intros st H; [auto|].
  change (plansStore (p :: plans) st) with (plansStore plans (planStore p st)).
  destruct (IH (planStore p st)) as (-> & -> & ->).
  { intros val k com sh rew Hin. apply (H val k com sh rew). right. exact Hin. }
  apply planStore_lookup_other. intros val k com sh rew ->.
  apply (H val k com sh rew). left.
Qed.

(** X9.  A cycle writes accumulator records of voted validators only:
    whatever it returns, the three records of a validator no vote names
    are as before, present or absent, and so are the parameters. *)
Theorem cycle_touches_voted_validators_only sk total votes s s' key :
  key ∉ votedValidators sk votes ->
  stateOf (AllocateTokens sk total votes s) = Some s' ->
  ValidatorsAccumulatedCommission (store s') !! key
    = ValidatorsAccumulatedCommission (store s) !! key /\
  ValidatorCurrentRewards (store s') !! key
    = ValidatorCurrentRewards (store s) !! key /\
  ValidatorOutstandingRewards (store s') !! key
    = ValidatorOutstandingRewards (store s) !! key /\
  Params (store s') = Params (store s).
Proof.
  intros Hkey. rewrite AllocateTokens_eq. cbn zeta.
  destruct (sdk.NewDecCoinsFromCoins _) as [feesCollected|]; [|discriminate].
  destruct (FeePool (store s)) as [feePool|]; [|intros [= <-]; simpl; auto].
  set (st1 := withBank (store s) _).
  set (st2 := if bool_decide (total = 0) then _ else st1).
  assert (ValidatorsAccumulatedCommission st2 = ValidatorsAccumulatedCommission (store s) /\
          ValidatorCurrentRewards st2 = ValidatorCurrentRewards (store s) /\
          ValidatorOutstandingRewards st2 = ValidatorOutstandingRewards (store s) /\
          Params st2 = Params (store s)) as (H1 & H2 & H3 & H4).
  { unfold st2. case_bool_decide; auto. }
  destruct (Params (store s)) as [params|] eqn:HP.
  2:{ intros [= <-]. simpl. rewrite H1, H2, H3, H4. auto. }
  set (feeMultiplier := sdk.MulDecTruncate _ _).
  set (plans := map _ votes).
  destruct (plansStore_lookup_other plans st2 key) as (G1 & G2 & G3).
  { intros val k com sh rew Hin ->. apply Hkey.
    unfold votedValidators. apply elem_of_remove_dups, list_elem_of_omap.
    apply list_elem_of_fmap in Hin as (vote & Hplan & Hvote).
    exists vote. split; [exact Hvote|].
    apply (votePlan_key _ _ _ _ _ _ _ _ _ (eq_sym Hplan)). }
  destruct (plansStore_frame plans st2) as (_ & _ & G4).
  rewrite H1 in G1. rewrite H2 in G2. rewrite H3 in G3. rewrite H4 in G4.
  destruct (existsb planPanics plans); [discriminate|].
  destruct (firstError None plans); [intros [= <-]; simpl; auto|].
  destruct (subRewards _ _) as [remaining|]; [|discriminate].
  destruct (sdk.TruncateDecimal remaining) as [[amt re]|]; [|discriminate].
  destruct (hasFunds _ amt); intros [= <-]; simpl; auto.
Qed.

Lemma cycle_touches_voted_validators_only_witness :
  exists s',
    AllocateTokens example.stakingKeeper 100
      [example.vote "consA" 70; example.vote "consB" 30] example.genesis = Ok tt s' /\
    ValidatorOutstandingRewards (store s') !! "C" = None.
Proof.
  eexists. split; [vm_compute; reflexivity|].
  refine (eq_trans
            (proj1 (proj2 (proj2
               (cycle_touches_voted_validators_only example.stakingKeeper 100
                  [example.vote "consA" 70; example.vote "consB" 30] example.genesis
                  _ "C" _ _)))) _).
  - vm_compute. intros Hin.
    apply elem_of_cons in Hin as [Hin|Hin]; [discriminate|].
    apply elem_of_cons in Hin as [Hin|Hin]; [discriminate|].
    inversion Hin.
  - vm_compute. reflexivity.
  - reflexivity.
Defined.

(** When the goroutines run one after the other, a cycle that returns nil
    has allocated no more than it collected. *)
Lemma no_over_allocation_in_list_order sk total votes s s' denom :
  AllocateTokens sk total votes s = Ok tt s' ->
  sumZ (map (outstandingDelta s s' denom) (votedValidators sk votes))
    <= LegacyNewDecFromInt (sdk.AmountOf (feeEnvelope s) denom) /\
  0 <= communityFundDelta s s' denom /\
  0 <= remainderPoolDelta s s' denom < precisionReuse.
Proof.
  rewrite AllocateTokens_eq. cbn zeta.
  destruct (sdk.NewDecCoinsFromCoins _) as [feesCollected|] eqn:Hfees; [|discriminate].
  apply NewDecCoinsFromCoins_Some in Hfees as (_ & _ & Hfees).
  destruct (FeePool (store s)) as [feePool|] eqn:HFP; [|discriminate].
  set (st1 := withBank (store s) _).
  set (st2 := if bool_decide (total = 0) then _ else st1).
  destruct (Params (store s)) as [params|]; [|discriminate].
  set (feeMultiplier := sdk.MulDecTruncate _ _).
  set (plans := map _ votes).
  destruct (existsb planPanics plans); [discriminate|].
  destruct (firstError None plans); [discriminate|].
  destruct (subRewards _ _) as [remaining|] eqn:Hrem; [|discriminate].
  destruct (sdk.TruncateDecimal remaining) as [[amt re]|] eqn:HT; [|discriminate].
  destruct (hasFunds _ amt); intros [= <-]; [].
  assert (bank st2 = bank st1 /\
          ValidatorOutstandingRewards st2 = ValidatorOutstandingRewards (store s)) as [Hb2 Ho2].
  { unfold st2. case_bool_decide; auto. }
  rewrite (sumZ_map_ext _ (fun key => sumZ (map (planShare denom key) plans))).
  2:{ intros key _. unfold outstandingDelta, outstandingAt. simpl.
      pose proof (outstandingAt_plansStore plans st2 key denom) as H.
      unfold outstandingAt in H. rewrite H, Ho2. lia. }
  rewrite (planShare_regroup denom).
  2:{ apply NoDup_remove_dups. }
  2:{ intros val key com sh rew Hin. unfold votedValidators.
      apply elem_of_remove_dups, list_elem_of_omap.
      apply list_elem_of_fmap in Hin as (vote & Hplan & Hvote).
      exists vote. split; [exact Hvote|].
      apply (votePlan_key _ _ _ _ _ _ _ _ _ (eq_sym Hplan)). }
  unfold communityFundDelta, remainderPoolDelta, decimalPool, feeEnvelope. simpl.
  rewrite HFP, Hb2. unfold st1. simpl.
  rewrite AmountOf_safeAdd, AmountOf_Add.
  destruct (TruncateDecimal_amounts _ _ _ denom HT) as (H0 & Hamt & Hre & Hsum).
  rewrite (subRewards_amount _ _ _ denom Hrem), planReward_amounts, Hfees in *.
  pose proof (Z.quot_pos _ precisionReuse H0 ltac:(rewrite precisionReuse_val; lia)) as Hq.
  pose proof (Z.rem_bound_pos _ precisionReuse H0 ltac:(rewrite precisionReuse_val; lia)) as Hr.
  rewrite <- Hamt in Hq. rewrite <- Hre in Hr.
  unfold LegacyNewDecFromInt in *. lia.
Qed.

(** ** Bounds on the rewards of well-formed votes *)

Lemma precisionReuse_pos : 0 < precisionReuse.
Proof. rewrite precisionReuse_val. lia. Qed.

Lemma quot_floor a b : 0 <= a -> 0 < b -> 0 <= a `quot` b /\ (a `quot` b) * b <= a.
Proof.
  intros Ha Hb.
  pose proof (Z.quot_rem' a b). pose proof (Z.rem_bound_pos a b Ha Hb).
  pose proof (Z.quot_pos a b Ha Hb). lia.
Qed.

(** The power fraction is at most the power over the total. *)
Lemma QuoTruncate_bound power total :
  0 <= power -> 0 < total ->
  exists fraction,
    QuoTruncate (LegacyNewDec power) (LegacyNewDec total) = Some fraction /\
    0 <= fraction /\ fraction * total <= power * precisionReuse.
Proof.
  intros Hp Ht. pose proof precisionReuse_pos as HP.
  unfold QuoTruncate, LegacyNewDec, chopPrecisionAndTruncate.
  rewrite bool_decide_eq_false_2 by nia. eexists. split; [reflexivity|].
  set (P := precisionReuse) in *.
  set (q1 := (power * P * (P * P)) `quot` (total * P)).
  destruct (quot_floor (power * P * (P * P)) (total * P)) as [Hq1 Hq1'];
    [nia|nia|]. fold q1 in Hq1, Hq1'.
  destruct (quot_floor q1 P Hq1 HP) as [Hf Hf'].
  split; [exact Hf|].
  set (f := q1 `quot` P) in *.
  assert (0 < P * P) as HPP by nia.
  assert (f * P * (total * P) <= q1 * (total * P)) as H1
    by (apply Z.mul_le_mono_nonneg_r; [nia|exact Hf']).
  assert (f * total * (P * P) <= power * P * (P * P)) as H.
  { replace (f * total * (P * P)) with (f * P * (total * P)) by ring. lia. }
  apply Z.mul_le_mono_pos_r in H; [exact H|exact HPP].
Qed.

(** A reward is at most the distributable amount times power over total. *)
Lemma reward_bound F fraction total power :
  0 <= F -> 0 <= fraction -> 0 < total ->
  fraction * total <= power * precisionReuse ->
  0 <= MulTruncate F fraction /\ MulTruncate F fraction * total <= F * power.
Proof.
  intros HF Hf Ht Hfr. pose proof precisionReuse_pos as HP.
  unfold MulTruncate, chopPrecisionAndTruncate.
  set (P := precisionReuse) in *.
  destruct (quot_floor (F * fraction) P) as [Hr Hr']; [nia|exact HP|].
  split; [exact Hr|].
  set (r := (F * fraction) `quot` P) in *.
  assert (r * P * total <= F * fraction * total) as H1
    by (apply Z.mul_le_mono_nonneg_r; [lia|exact Hr']).
  assert (F * (fraction * total) <= F * (power * P)) as H2
    by (apply Z.mul_le_mono_nonneg_l; [exact HF|exact Hfr]).
  assert (r * total * P <= F * power * P) as H.
  { replace (r * total * P) with (r * P * total) by ring.
    replace (F * power * P) with (F * (power * P)) by ring.
    replace (F * fraction * total) with (F * (fraction * total)) in H1 by ring. lia. }
  apply Z.mul_le_mono_pos_r in H; [exact H|exact HP].
Qed.

Lemma votePlan_rewardable sk feeMultiplier total vote :
  rewardable sk vote -> 0 < total -> nonneg feeMultiplier ->
  exists val key com sh rew,
    votePlan sk feeMultiplier total vote = PlanOk val key com sh rew /\
    nonneg rew /\
    forall denom,
      sdk.AmountOf rew denom * total
      <= sdk.AmountOf feeMultiplier denom * comet.Power (comet.Validator_ vote).
Proof.
  intros (Hp & val & key & Hval & Hkey & Hc) Ht Hfm.
  destruct (QuoTruncate_bound _ _ Hp Ht) as (fraction & Hq & Hf & Hfr).
  assert (forall d,
            0 <= sdk.AmountOf (sdk.MulDecTruncate feeMultiplier fraction) d /\
            sdk.AmountOf (sdk.MulDecTruncate feeMultiplier fraction) d * total
            <= sdk.AmountOf feeMultiplier d * comet.Power (comet.Validator_ vote)) as Hrew.
  { intros d. rewrite AmountOf_MulDecTruncate.
    apply reward_bound; auto. }
  assert (nonneg (sdk.MulDecTruncate feeMultiplier fraction)) as Hnn
    by (intros d; apply Hrew).
  destruct (commission_split_defined _ _ Hnn Hc) as [shared Hsub].
  unfold votePlan. rewrite Hval, Hq. cbn zeta. rewrite Hsub, Hkey.
  do 5 eexists. split; [reflexivity|]. split; [exact Hnn|]. intros d. apply Hrew.
Qed.

Lemma plans_rewardable sk feeMultiplier total votes :
  Forall (rewardable sk) votes -> 0 < total -> nonneg feeMultiplier ->
  let plans := map (votePlan sk feeMultiplier total) votes in
  existsb planPanics plans = false /\
  firstError None plans = None /\
  Forall nonneg (omap planReward plans) /\
  forall denom,
    sumZ (map (fun r => sdk.AmountOf r denom) (omap planReward plans)) * total
    <= sdk.AmountOf feeMultiplier denom * totalPower votes.
Proof.
  intros Hvotes Ht Hfm. cbn zeta.
  induction Hvotes as [|vote votes Hvote _ IH].
  - simpl. repeat split; [constructor|]. intros d. unfold totalPower, sumZ. simpl. lia.
  - destruct IH as (IH1 & IH2 & IH3 & IH4).
    destruct (votePlan_rewardable sk feeMultiplier total vote Hvote Ht Hfm)
      as (val & key & com & sh & rew & Hplan & Hnn & Hb).
    simpl. rewrite Hplan. simpl. repeat split.
    + exact IH1.
    + exact IH2.
    + constructor; assumption.
    + intros d. specialize (IH4 d). specialize (Hb d).
      change ((sdk.AmountOf rew d
               + sumZ (map (fun r => sdk.AmountOf r d)
                         (omap planReward (map (votePlan sk feeMultiplier total) votes))))
              * total
              <= sdk.AmountOf feeMultiplier d
                 * (comet.Power (comet.Validator_ vote) + totalPower votes)).
      lia.
Qed.

Lemma subRewards_defined remaining rewards :
  Forall nonneg rewards ->
  (forall denom,
     sumZ (map (fun r => sdk.AmountOf r denom) rewards) <= sdk.AmountOf remaining denom) ->
  is_Some (subRewards remaining rewards).
Proof.
  intros Hnn. revert remaining.
  induction Hnn as [|r rewards Hr Hrs IH]; intros a Hsum; simpl; [eauto|].
  assert (forall d, 0 <= sumZ (map (fun r => sdk.AmountOf r d) rewards)) as Hpos.
  { intros d. clear -Hrs. unfold sumZ.
    induction Hrs as [|x l Hx _ IH]; simpl; [lia|]. specialize (Hx d). lia. }
  destruct (sdk.Sub a r) as [a'|] eqn:E.
  - apply IH. intros d. rewrite (AmountOf_Sub _ _ _ d E).
    specialize (Hsum d). unfold sumZ in *. simpl in Hsum. lia.
  - apply Sub_None in E as [d Hd]. specialize (Hsum d). specialize (Hpos d).
    unfold sumZ in *. simpl in Hsum. lia.
Qed.

Lemma feeMultiplier_bounds feesCollected voteMultiplier denom :
  nonneg feesCollected -> 0 <= voteMultiplier <= precisionReuse ->
  0 <= sdk.AmountOf (sdk.MulDecTruncate feesCollected voteMultiplier) denom
  <= sdk.AmountOf feesCollected denom.
Proof.
  intros Hf [Hv0 Hv1]. rewrite AmountOf_MulDecTruncate. specialize (Hf denom).
  pose proof precisionReuse_pos as HP.
  unfold MulTruncate, chopPrecisionAndTruncate.
  set (P := precisionReuse) in *. set (F := sdk.AmountOf feesCollected denom) in *.
  destruct (quot_floor (F * voteMultiplier) P) as [Hr Hr']; [nia|exact HP|].
  split; [exact Hr|].
  set (r := (F * voteMultiplier) `quot` P) in *.
  assert (r * P <= F * P) as H by nia.
  apply Z.mul_le_mono_pos_r in H; [exact H|exact HP].
Qed.

(** X14.  The flush writes the pool and two balances and nothing else:
    whatever it returns, the accumulator records, the parameters, the fee
    collector and the events are as before, and the three module accounts
    hold together what they held before. *)
Theorem flush_frame s s' :
  stateOf (SendDecimalPoolToCommunityPool s) = Some s' ->
  ValidatorsAccumulatedCommission (store s') = ValidatorsAccumulatedCommission (store s) /\
  ValidatorCurrentRewards (store s') = ValidatorCurrentRewards (store s) /\
  ValidatorOutstandingRewards (store s') = ValidatorOutstandingRewards (store s) /\
  Params (store s') = Params (store s) /\
  feeCollector (bank (store s')) = feeCollector (bank (store s)) /\
  events s' = events s /\
  forall denom, bankTotal (bank (store s')) denom = bankTotal (bank (store s)) denom.
Proof.
  rewrite SendDecimalPoolToCommunityPool_eq.
  destruct (FeePool (store s)) as [feePool|]; [|intros [= <-]; repeat split].
  destruct (sdk.IsZero _); [intros [= <-]; repeat split|].
  destruct (sdk.TruncateDecimal _) as [[amt re]|]; [|discriminate].
  destruct (hasFunds _ amt); intros [= <-]; [|repeat split].
  repeat split. intros d. unfold bankTotal. simpl.
  rewrite !AmountOf_safeAdd, AmountOf_negative. lia.
Qed.

Lemma flush_frame_witness :
  exists s',
    SendDecimalPoolToCommunityPool
      (flushExample {[ example.stake := 1999999000000000000 ]}) = Ok tt s' /\
    bankTotal (bank (store s')) example.stake = 5.
Proof.
  eexists. split; [vm_compute; reflexivity|].
  refine (eq_trans
            (proj2 (proj2 (proj2 (proj2 (proj2 (proj2
               (flush_frame (flushExample {[ example.stake := 1999999000000000000 ]})
                  _ _)))))) example.stake) _).
  - vm_compute. reflexivity.
  - vm_compute. reflexivity.
Defined.

Lemma hasFunds_nothing (have : Coins) : hasFunds have ∅ = true.
Proof. apply bool_decide_eq_true_2. apply map_Forall_empty. Qed.

(** X15.  Flushing twice is flushing once: after a flush that returned
    nil, a second flush returns nil too and moves nothing, no amount of a
    balance or of the pool changes. *)
Theorem second_flush_moves_nothing s s1 :
  SendDecimalPoolToCommunityPool s = Ok tt s1 ->
  exists s2,
    SendDecimalPoolToCommunityPool s1 = Ok tt s2 /\
    forall denom,
      sdk.AmountOf (distribution (bank (store s2))) denom
        = sdk.AmountOf (distribution (bank (store s1))) denom /\
      sdk.AmountOf (protocolpool (bank (store s2))) denom
        = sdk.AmountOf (protocolpool (bank (store s1))) denom /\
      sdk.AmountOf (decimalPool (store s2)) denom
        = sdk.AmountOf (decimalPool (store s1)) denom.
Proof.
  intros H1. pose proof H1 as H1'.
  rewrite SendDecimalPoolToCommunityPool_eq in H1'.
  destruct (FeePool (store s)) as [feePool|] eqn:HFP; [|discriminate].
  destruct (sdk.IsZero (DecimalPool feePool)) eqn:HZ.
  { injection H1' as <-. exists s. split; [exact H1|]. auto. }
  destruct (sdk.TruncateDecimal _) as [[amt re]|] eqn:HT; [|discriminate].
  destruct (hasFunds _ amt); [|discriminate]. injection H1' as <-.
  rewrite SendDecimalPoolToCommunityPool_eq. simpl.
  destruct (sdk.IsZero re); [eexists; split; [reflexivity|auto]|].
  pose proof (TruncateDecimal_change_nonneg _ _ _ HT) as Hre.
  pose proof (TruncateDecimal_Some re Hre) as HT2. rewrite HT2.
  assert (forall d, 0 <= sdk.AmountOf re d < precisionReuse) as Hsmall.
  { intros d. destruct (TruncateDecimal_amounts _ _ _ d HT) as (H0 & _ & -> & _).
    apply Z.rem_bound_pos; [exact H0|apply precisionReuse_pos]. }
  assert (omap (fun a => sdk.nonzero (TruncateInt a)) re = ∅) as ->.
  { apply coins_ext; [apply omap_nonzero_zeroFree|apply zeroFree_empty|].
    intros d. destruct (TruncateDecimal_amounts _ _ _ d HT2) as (_ & -> & _).
    rewrite AmountOf_empty. apply Z.quot_small, Hsmall. }
  rewrite hasFunds_nothing. eexists. split; [reflexivity|]. intros d. simpl.
  unfold decimalPool. simpl.
  destruct (TruncateDecimal_amounts _ _ _ d HT2) as (_ & _ & -> & _).
  rewrite !AmountOf_safeAdd, AmountOf_negative, !AmountOf_empty.
  rewrite Z.rem_small by apply Hsmall.
  split; [apply Z.add_0_r|]. split; [apply Z.add_0_r|reflexivity].
Qed.

Lemma second_flush_moves_nothing_witness :
  exists s1 s2,
    SendDecimalPoolToCommunityPool
      (flushExample {[ example.stake := 1999999000000000000 ]}) = Ok tt s1 /\
    SendDecimalPoolToCommunityPool s1 = Ok tt s2 /\
    sdk.AmountOf (protocolpool (bank (store s2))) example.stake
      = sdk.AmountOf (protocolpool (bank (store s1))) example.stake.
Proof.
  eexists. 
  edestruct (second_flush_moves_nothing
               (flushExample {[ example.stake := 1999999000000000000 ]}))
    as (s2 & H2 & Hsame); [vm_compute; reflexivity|].
  exists s2. split; [vm_compute; reflexivity|]. split; [exact H2|].
  destruct (Hsame example.stake) as (_ & H & _). exact H.
Defined.

(** ** The relation between the three accumulators, over a cycle *)

Lemma votePlan_split sk feeMultiplier total vote val key com sh rew :
  votePlan sk feeMultiplier total vote = PlanOk val key com sh rew ->
  sdk.Sub rew com = Some sh.
Proof.
  unfold votePlan.
  destruct (ValidatorByConsAddr _ _) as [e|v]; [discriminate|].
  destruct (QuoTruncate _ _); [|discriminate]. cbn zeta.
  destruct (sdk.Sub _ _) eqn:E; [|discriminate].
  destruct (StringToBytes _ _); [discriminate|].
  intros [= _ _ <- <- <-]. exact E.
Qed.

Lemma allocateStore_relation k com sh rew st key :
  sdk.Sub rew com = Some sh ->
  outstandingRelation st key ->
  outstandingRelation (allocateStore k com sh rew st) key.
Proof.
  unfold outstandingRelation. intros Hsub Hrel.
  rewrite outstandingAt_allocateStore, commissionAt_allocateStore, currentAt_allocateStore.
  destruct (decide (k = key)) as [->|]; [|exact Hrel].
  apply coins_ext; try apply Add_zeroFree.
  intros d. rewrite !AmountOf_Add, Hrel, AmountOf_Add.
  rewrite (AmountOf_Sub _ _ _ d Hsub). lia.
Qed.

Lemma plansStore_relation plans st key :
  (forall val k com sh rew, PlanOk val k com sh rew ∈ plans -> sdk.Sub rew com = Some sh) ->
  outstandingRelation st key ->
  outstandingRelation (plansStore plans st) key.
Proof.
  revert st. induction plans as [|p plans IH]; intros st Hsplit Hrel; [exact Hrel|].
  change (plansStore (p :: plans) st) with (plansStore plans (planStore p st)).
  apply IH.
  - intros val k com sh rew Hin. apply (Hsplit val k com sh rew). right. exact Hin.
  - destruct p as [e| |val k com sh rew]; simpl; try exact Hrel.
    apply allocateStore_relation; [|exact Hrel].
    apply (Hsplit val k com sh rew). left.
Qed.

(** When the goroutines run one after the other, a cycle keeps the
    relation between the three accumulators of a validator. *)
Lemma outstanding_relation_in_list_order sk total votes s s' key :
  outstandingRelation (store s) key ->
  stateOf (AllocateTokens sk total votes s) = Some s' ->
  outstandingRelation (store s') key.
Proof.
  intros Hrel. rewrite AllocateTokens_eq. cbn zeta.
  destruct (sdk.NewDecCoinsFromCoins _) as [feesCollected|]; [|discriminate].
  destruct (FeePool (store s)) as [feePool|]; [|intros [= <-]; exact Hrel].
  set (st1 := withBank (store s) _).
  set (st2 := if bool_decide (total = 0) then _ else st1).
  assert (outstandingRelation st2 key) as Hrel2.
  { unfold st2. case_bool_decide; exact Hrel. }
  destruct (Params (store s)) as [params|]; [|intros [= <-]; exact Hrel2].
  set (feeMultiplier := sdk.MulDecTruncate _ _).
  set (plans := map _ votes).
  assert (outstandingRelation (plansStore plans st2) key) as Hrel3.
  { apply plansStore_relation; [|exact Hrel2].
    intros val k com sh rew Hin.
    apply list_elem_of_fmap in Hin as (vote & Hplan & _).
    apply (votePlan_split _ _ _ _ _ _ _ _ _ (eq_sym Hplan)). }
  destruct (existsb planPanics plans); [discriminate|].
  destruct (firstError None plans); [intros [= <-]; exact Hrel3|].
  destruct (subRewards _ _) as [remaining|]; [|discriminate].
  destruct (sdk.TruncateDecimal remaining) as [[amt re]|]; [|discriminate].
  destruct (hasFunds _ amt); intros [= <-]; exact Hrel3.
Qed.

(** The zero-power cycle of the example chain, for
    [zero_power_cycle_in_general]. *)
Lemma zero_power_cycle_in_general_witness :
  exists s',
    AllocateTokens example.stakingKeeper 0 [] example.genesis = Ok tt s' /\
    remainderPoolDelta example.genesis s' example.stake = 0 /\
    communityFundDelta example.genesis s' example.stake = 100.
Proof.
  eexists. split; [vm_compute; reflexivity|].
  refine (proj2 (zero_power_cycle_in_general example.stakingKeeper []
                   example.genesis _ example.stake _)).
  vm_compute. reflexivity.
Defined.

(** * The goroutines of a cycle, interleaved *)

(** ** Store calls on the records of different validators commute *)

Lemma store_ext st st' :
  bank st = bank st' -> FeePool st = FeePool st' -> Params st = Params st' ->
  (forall key, concurrent.recordsAt st key = concurrent.recordsAt st' key) -> st = st'.
Proof.
  destruct st, st'; simpl. intros -> -> -> H.
  f_equal; apply map_eq; intros k; specialize (H k);
    unfold concurrent.recordsAt in H; simpl in H; congruence.
Qed.

Lemma sameExcept_refl key st : concurrent.sameExcept key st st.
Proof. repeat split. Qed.

Lemma sameExcept_trans key st1 st2 st3 :
  concurrent.sameExcept key st1 st2 -> concurrent.sameExcept key st2 st3 ->
  concurrent.sameExcept key st1 st3.
Proof.
  intros (A1 & A2 & A3 & A4) (B1 & B2 & B3 & B4).
  repeat split; try congruence. intros k Hk. rewrite A4, B4; auto.
Qed.

Lemma localAt_commute {X Y} k1 k2 (a1 : Store -> X * Store) (a2 : Store -> Y * Store) st :
  k1 <> k2 -> concurrent.localAt k1 a1 -> concurrent.localAt k2 a2 ->
  (a1 (a2 st).2).1 = (a1 st).1 /\ (a2 (a1 st).2).1 = (a2 st).1 /\
  (a1 (a2 st).2).2 = (a2 (a1 st).2).2.
Proof.
  intros Hk [F1 D1] [F2 D2].
  pose proof (F1 st) as (b1 & p1 & q1 & r1).
  pose proof (F2 st) as (b2 & p2 & q2 & r2).
  pose proof (F1 (a2 st).2) as (b12 & p12 & q12 & r12).
  pose proof (F2 (a1 st).2) as (b21 & p21 & q21 & r21).
  destruct (D1 st (a2 st).2) as [E1 E1']. { apply r2. exact Hk. }
  destruct (D2 st (a1 st).2) as [E2 E2']. { apply r1. congruence. }
  split; [congruence|]. split; [congruence|].
  apply store_ext; try congruence.
  intros key. destruct (decide (key = k1)) as [->|N1].
  - rewrite <- E1'. apply r21. exact Hk.
  - destruct (decide (key = k2)) as [->|N2].
    + rewrite <- r12 by exact N1. exact E2'.
    + rewrite <- r12, <- r21, <- r1, <- r2 by assumption. reflexivity.
Qed.

(** ** One goroutine *)

Lemma step_localAt {A} key (p : concurrent.Prog A) :
  concurrent.usesOnly key p -> concurrent.localAt key (concurrent.step p).
Proof.
  intros H. destruct H as [a|e| |ev k Hk|X act k [F D] Hk]; simpl;
    try (split; [intros st; apply sameExcept_refl|intros st st' E; split; [reflexivity|exact E]]).
  unfold concurrent.step. split.
  - intros st. specialize (F st). destruct (act st) as [x st1]. exact F.
  - intros st st' E. specialize (D st st' E).
    destruct (act st) as [x st1], (act st') as [x' st1']. simpl in *.
    destruct D as [-> D]. split; [reflexivity|exact D].
Qed.

Lemma step_usesOnly {A} key (p : concurrent.Prog A) st :
  concurrent.usesOnly key p -> concurrent.usesOnly key (concurrent.step p st).1.1.
Proof.
  intros H. destruct H as [a|e| |ev k Hk|X act k L Hk]; simpl;
    try (constructor; fail); try assumption.
  unfold concurrent.step. destruct (act st) as [x st1]. simpl. apply Hk.
Qed.

Lemma finish_step {A} (p : concurrent.Prog A) st :
  concurrent.finish p st =
  concurrent.emitted (concurrent.step p st).1.2
          (concurrent.finish (concurrent.step p st).1.1 (concurrent.step p st).2).
Proof.
  destruct p as [a|e| |ev k|X act k]; simpl; try reflexivity.
  destruct (act st) as [x st1]. simpl.
  destruct (concurrent.finish (k x) st1) as [[[r st'] evs]|]; reflexivity.
Qed.

(** A goroutine run to its end, before or after a store call on the
    records of another validator. *)
Lemma finish_step_commute {A X} kq kp (q : concurrent.Prog A)
    (act : Store -> X * Store) :
  concurrent.usesOnly kq q -> concurrent.localAt kp act -> kq <> kp ->
  forall st,
    match concurrent.finish q st with
    | None => concurrent.finish q (act st).2 = None
    | Some (r, stq, evs) =>
        concurrent.finish q (act st).2 = Some (r, (act stq).2, evs) /\
        (act stq).1 = (act st).1
    end.
Proof.
  intros Hq La Hk. induction Hq as [a|e| |ev k Hq IH|Y actq k Lq Hq IH]; intros st; simpl;
    try (split; reflexivity); try reflexivity.
  - specialize (IH st). destruct (concurrent.finish k st) as [[[r stq] evs]|].
    + destruct IH as [-> E]. split; [reflexivity|exact E].
    + rewrite IH. reflexivity.
  - destruct (localAt_commute kq kp actq act st Hk Lq La) as (E1 & E2 & E3).
    destruct (actq st) as [x st1] eqn:Eq. simpl in *.
    destruct (actq (act st).2) as [x' st1'] eqn:Eq'. simpl in *. subst x' st1'.
    specialize (IH x st1).
    destruct (concurrent.finish (k x) st1) as [[[r stq] evs]|].
    + destruct IH as [-> E]. split; [reflexivity|]. congruence.
    + exact IH.
Qed.

(** Two goroutines on different validators, run one after the other in
    either order. *)
Lemma finish_swap {A} kp kq (p q : concurrent.Prog A) :
  concurrent.usesOnly kp p -> concurrent.usesOnly kq q -> kp <> kq ->
  forall st,
    match concurrent.finish p st, concurrent.finish q st with
    | Some (rp, stp, _), Some (rq, stq, _) =>
        exists st' e1 e2,
          concurrent.finish q stp = Some (rq, st', e1) /\
          concurrent.finish p stq = Some (rp, st', e2)
    | None, Some (_, stq, _) => concurrent.finish p stq = None
    | Some (_, stp, _), None => concurrent.finish q stp = None
    | None, None => True
    end.
Proof.
  intros Hp Hq Hk.
  induction Hp as [a|e| |ev k Hp IH|X act k La Hp IH]; intros st; simpl.
  - destruct (concurrent.finish q st) as [[[rq stq] evq]|] eqn:E; eauto.
  - destruct (concurrent.finish q st) as [[[rq stq] evq]|] eqn:E; eauto.
  - destruct (concurrent.finish q st) as [[[rq stq] evq]|] eqn:E; eauto.
  - specialize (IH st).
    destruct (concurrent.finish k st) as [[[rp stp] evp]|],
             (concurrent.finish q st) as [[[rq stq] evq]|]; try exact IH.
    + destruct IH as (st' & e1 & e2 & E1 & E2). rewrite E2. eauto.
    + rewrite IH. reflexivity.
  - pose proof (finish_step_commute kq kp q act Hq La (not_eq_sym Hk) st) as C.
    destruct (act st) as [x st1] eqn:Ea. simpl in C.
    specialize (IH x st1).
    destruct (concurrent.finish q st) as [[[rq stq] evq]|].
    + destruct C as [C1 C2]. rewrite C1 in IH.
      destruct (act stq) as [x' stq1] eqn:Ea'. simpl in *. subst x'.
      exact IH.
    + rewrite C in IH. exact IH.
Qed.

(** ** The group *)

Lemma sameGroup_refl {A} (g : concurrent.Group A) : concurrent.sameGroup g g.
Proof. destruct g as [[[exits st] evs]|]; simpl; auto. Qed.

Lemma sameGroup_sym {A} (g g' : concurrent.Group A) :
  concurrent.sameGroup g g' -> concurrent.sameGroup g' g.
Proof.
  destruct g as [[[exits st] evs]|], g' as [[[exits' st'] evs']|]; simpl; auto.
  intros [H1 H2]. split; [symmetry; exact H1|congruence].
Qed.

Lemma sameGroup_trans {A} (g1 g2 g3 : concurrent.Group A) :
  concurrent.sameGroup g1 g2 -> concurrent.sameGroup g2 g3 -> concurrent.sameGroup g1 g3.
Proof.
  destruct g1 as [[[x1 s1] e1]|], g2 as [[[x2 s2] e2]|], g3 as [[[x3 s3] e3]|];
    simpl; auto; try tauto.
  intros [H1 H2] [H3 H4]. split; [etrans; eauto|congruence].
Qed.

Lemma sameGroup_exited {A} (rs rs' : list (error + A)) evs evs' g g' :
  rs ≡ₚ rs' -> concurrent.sameGroup g g' ->
  concurrent.sameGroup (concurrent.exited rs evs g) (concurrent.exited rs' evs' g').
Proof.
  intros Hr. destruct g as [[[x1 s1] e1]|], g' as [[[x2 s2] e2]|]; simpl; auto.
  intros [H1 H2]. split; [|exact H2]. rewrite Hr, H1. reflexivity.
Qed.

Lemma exited_exited {A} (rs rs' : list (error + A)) evs evs' g :
  concurrent.exited rs evs (concurrent.exited rs' evs' g)
  = concurrent.exited (rs ++ rs') (evs ++ evs') g.
Proof. destruct g as [[[x s] e]|]; simpl; [|reflexivity]. rewrite !app_assoc. reflexivity. Qed.

Lemma apart_sym {A} (p q : concurrent.Prog A) : concurrent.apart p q -> concurrent.apart q p.
Proof. intros (kp & kq & H & Hp & Hq). exists kq, kp. auto. Qed.

Lemma independent_middle {A} (l1 l2 : list (concurrent.Prog A)) p :
  concurrent.independent (l1 ++ p :: l2) ->
  Forall (concurrent.apart p) l1 /\ Forall (concurrent.apart p) l2 /\
  concurrent.independent (l1 ++ l2).
Proof.
  induction l1 as [|q l1 IH]; simpl; intros H; inversion H as [|? ? Hq Hi]; subst.
  - auto.
  - destruct (IH Hi) as (F1 & F2 & I). apply Forall_app in Hq as [Hq1 Hq2].
    inversion Hq2 as [|? ? Hqp Hq2']; subst.
    split; [constructor; [apply apart_sym; exact Hqp|exact F1]|].
    split; [exact F2|].
    constructor; [apply Forall_app; auto|exact I].
Qed.

Lemma independent_replace {A} (l1 l2 : list (concurrent.Prog A)) p p' :
  concurrent.independent (l1 ++ p :: l2) ->
  (forall q, concurrent.apart p q -> concurrent.apart p' q) ->
  concurrent.independent (l1 ++ p' :: l2).
Proof.
  intros H Hp. induction l1 as [|q l1 IH]; simpl in *; inversion H as [|? ? Hq Hi]; subst.
  - constructor; [|exact Hi]. eapply Forall_impl; [exact Hq|]. exact Hp.
  - constructor; [|apply IH; exact Hi].
    apply Forall_app in Hq as [Hq1 Hq2]. inversion Hq2 as [|? ? Hqp Hq2']; subst.
    apply Forall_app. split; [exact Hq1|].
    constructor; [|exact Hq2']. apply apart_sym, Hp, apart_sym, Hqp.
Qed.

Lemma independent_insert {A} (l1 l2 : list (concurrent.Prog A)) p :
  Forall (concurrent.apart p) l1 -> Forall (concurrent.apart p) l2 ->
  concurrent.independent (l1 ++ l2) -> concurrent.independent (l1 ++ p :: l2).
Proof.
  induction l1 as [|q l1 IH]; simpl; intros F1 F2 H.
  - constructor; assumption.
  - inversion H as [|? ? Hq Hi]; subst. inversion F1 as [|? ? Hpq F1']; subst.
    apply Forall_app in Hq as [Hq1 Hq2].
    constructor; [|apply IH; assumption].
    apply Forall_app. split; [exact Hq1|]. constructor; [apply apart_sym; exact Hpq|exact Hq2].
Qed.

Lemma independent_Permutation {A} (l l' : list (concurrent.Prog A)) :
  l ≡ₚ l' -> concurrent.independent l -> concurrent.independent l'.
Proof.
  induction 1 as [|x l l' Hp IH|x y l|l l' l'' H1 IH1 H2 IH2]; intros H.
  - exact H.
  - inversion H as [|? ? Hx Hi]; subst. constructor; [|apply IH; exact Hi].
    rewrite <- Hp. exact Hx.
  - inversion H as [|? ? Hy Hi]; subst. inversion Hi as [|? ? Hx Hi']; subst.
    inversion Hy as [|? ? Hyx Hy']; subst.
    constructor; [constructor; [apply apart_sym; exact Hyx|exact Hx]|].
    constructor; assumption.
  - auto.
Qed.

Lemma apart_step {A} (p q : concurrent.Prog A) st :
  concurrent.apart p q -> concurrent.apart (concurrent.step p st).1.1 q.
Proof.
  intros (kp & kq & H & Hp & Hq). exists kp, kq.
  split; [exact H|]. split; [apply step_usesOnly; exact Hp|exact Hq].
Qed.

(** A goroutine takes a step, then all run one after the other: as if
    they had run one after the other from the start. *)
Lemma waitAll_step {A} (l1 l2 : list (concurrent.Prog A)) p :
  Forall (concurrent.apart p) l1 ->
  forall st,
    concurrent.sameGroup
      (concurrent.exited [] (concurrent.step p st).1.2
         (concurrent.waitAll (l1 ++ (concurrent.step p st).1.1 :: l2)
                             (concurrent.step p st).2))
      (concurrent.waitAll (l1 ++ p :: l2) st).
Proof.
  induction l1 as [|q l1 IH]; intros Hap st.
  - simpl. rewrite (finish_step p st).
    destruct (concurrent.finish _ _) as [[[r st'] evs]|]; simpl; [|exact I].
    rewrite exited_exited. apply sameGroup_exited; [reflexivity|apply sameGroup_refl].
  - inversion Hap as [|? ? Hpq Hap']; subst.
    destruct Hpq as (kp & kq & Hk & Hp & Hq).
    pose proof (finish_step_commute kq kp q (concurrent.step p) Hq (step_localAt kp p Hp)
                  (not_eq_sym Hk) st) as C.
    change (concurrent.waitAll ((q :: l1) ++ p :: l2) st)
      with (match concurrent.finish q st with
            | Some (r, st', evs) => concurrent.exited [r] evs (concurrent.waitAll (l1 ++ p :: l2) st')
            | None => None
            end).
    change (concurrent.waitAll ((q :: l1) ++ (concurrent.step p st).1.1 :: l2) (concurrent.step p st).2)
      with (match concurrent.finish q (concurrent.step p st).2 with
            | Some (r, st', evs) =>
                concurrent.exited [r] evs
                  (concurrent.waitAll (l1 ++ (concurrent.step p st).1.1 :: l2) st')
            | None => None
            end).
    destruct (concurrent.finish q st) as [[[r stq] evs]|].
    + destruct C as [-> C2]. rewrite <- C2.
      specialize (IH Hap' stq).
      rewrite exited_exited.
      eapply sameGroup_trans;
        [|apply (sameGroup_exited [r] [r] evs evs); [reflexivity|exact IH]].
      rewrite exited_exited. apply sameGroup_exited; [|apply sameGroup_refl].
      reflexivity.
    + rewrite C. exact I.
Qed.

Lemma waitAll_Panics {A} (l1 l2 : list (concurrent.Prog A)) st :
  concurrent.waitAll (l1 ++ concurrent.Panics :: l2) st = None.
Proof.
  revert st. induction l1 as [|q l1 IH]; intros st; simpl; [reflexivity|].
  destruct (concurrent.finish q st) as [[[r st'] evs]|]; [|reflexivity].
  rewrite IH. reflexivity.
Qed.

(** A goroutine that has ended leaves the group now or at the end. *)
Lemma waitAll_collect {A} (l1 l2 : list (concurrent.Prog A)) t r :
  (forall st, concurrent.finish t st = Some (r, st, [])) ->
  forall st,
    concurrent.sameGroup (concurrent.exited [r] [] (concurrent.waitAll (l1 ++ l2) st))
                         (concurrent.waitAll (l1 ++ t :: l2) st).
Proof.
  intros Ht. induction l1 as [|q l1 IH]; intros st; simpl.
  - rewrite Ht. apply sameGroup_refl.
  - destruct (concurrent.finish q st) as [[[rq stq] evs]|]; [|exact I].
    specialize (IH stq). rewrite exited_exited.
    eapply sameGroup_trans;
      [|apply (sameGroup_exited [rq] [rq] evs evs); [reflexivity|exact IH]].
    rewrite exited_exited. apply sameGroup_exited; [|apply sameGroup_refl].
    simpl. apply perm_swap.
Qed.

(** Goroutines on different validators: whatever the schedule, the group
    ends as if they had run one after the other. *)
Lemma runGroup_waitAll {A} schedule :
  forall (pool : list (concurrent.Prog A)) st,
    concurrent.independent pool ->
    concurrent.sameGroup (concurrent.runGroup schedule pool st)
                         (concurrent.waitAll pool st).
Proof.
  induction schedule as [|i later IH]; intros pool st Hi; simpl.
  - apply sameGroup_refl.
  - destruct (pool !! i) as [p|] eqn:Ep; [|apply IH; exact Hi].
    pose proof (take_drop_middle pool i p Ep) as Hpool.
    pose proof (lookup_lt_Some _ _ _ Ep) as Hlt.
    assert (Hi' : concurrent.independent (take i pool ++ p :: drop (S i) pool))
      by (rewrite Hpool; exact Hi).
    destruct (independent_middle _ _ _ Hi') as (F1 & F2 & Hd).
    assert (Hstep : concurrent.sameGroup
              (let '(p', evs, st') := concurrent.step p st in
               concurrent.exited [] evs (concurrent.runGroup later (<[i:=p']> pool) st'))
              (concurrent.waitAll pool st)).
    { destruct (concurrent.step p st) as [[p' evs] st'] eqn:Es.
      eapply sameGroup_trans.
      - apply (sameGroup_exited [] [] evs evs); [reflexivity|].
        apply IH. rewrite insert_take_drop by exact Hlt.
        apply (independent_replace _ _ p); [exact Hi'|].
        intros q Hq. pose proof (apart_step p q st Hq) as H'. rewrite Es in H'. exact H'.
      - rewrite insert_take_drop by exact Hlt.
        pose proof (waitAll_step (take i pool) (drop (S i) pool) p F1 st) as W.
        rewrite Es in W. simpl in W. rewrite Hpool in W. exact W. }
    destruct p as [a|e| |ev k|X act k]; try exact Hstep.
    + eapply sameGroup_trans.
      * apply (sameGroup_exited [inr a] [inr a] [] []); [reflexivity|].
        apply IH. rewrite delete_take_drop. exact Hd.
      * rewrite delete_take_drop. rewrite <- Hpool at 3.
        apply waitAll_collect. reflexivity.
    + eapply sameGroup_trans.
      * apply (sameGroup_exited [inl e] [inl e] [] []); [reflexivity|].
        apply IH. rewrite delete_take_drop. exact Hd.
      * rewrite delete_take_drop. rewrite <- Hpool at 3.
        apply waitAll_collect. reflexivity.
    + rewrite <- Hpool. rewrite waitAll_Panics. exact I.
Qed.

(** Goroutines on different validators, one after the other in any
    order. *)
Lemma waitAll_Permutation {A} (pool pool' : list (concurrent.Prog A)) :
  pool ≡ₚ pool' ->
  forall st, concurrent.independent pool ->
    concurrent.sameGroup (concurrent.waitAll pool st) (concurrent.waitAll pool' st).
Proof.
  induction 1 as [|x l l' Hp IH|x y l|l l' l'' H1 IH1 H2 IH2]; intros st Hi.
  - apply sameGroup_refl.
  - simpl. inversion Hi as [|? ? Hx Hi']; subst.
    destruct (concurrent.finish x st) as [[[r st'] evs]|]; [|exact I].
    apply sameGroup_exited; [reflexivity|]. apply IH. exact Hi'.
  - simpl. inversion Hi as [|? ? Hy Hi']; subst. inversion Hy as [|? ? Hyx Hy']; subst.
    destruct Hyx as (ky & kx & Hk & Hy1 & Hx1).
    pose proof (finish_swap ky kx y x Hy1 Hx1 Hk st) as S.
    destruct (concurrent.finish y st) as [[[ry sty] evy]|],
             (concurrent.finish x st) as [[[rx stx] evx]|].
    + destruct S as (st' & e1 & e2 & -> & ->).
      rewrite !exited_exited. apply sameGroup_exited; [apply perm_swap|apply sameGroup_refl].
    + rewrite S. exact I.
    + rewrite S. exact I.
    + exact I.
  - eapply sameGroup_trans; [apply IH1; exact Hi|].
    apply IH2. eapply independent_Permutation; eauto.
Qed.

Lemma runGroup_any_order {A} schedule schedule' (pool pool' : list (concurrent.Prog A)) st :
  pool ≡ₚ pool' -> concurrent.independent pool ->
  concurrent.sameGroup (concurrent.runGroup schedule pool st)
                       (concurrent.runGroup schedule' pool' st).
Proof.
  intros Hp Hi.
  eapply sameGroup_trans; [apply runGroup_waitAll; exact Hi|].
  eapply sameGroup_trans; [apply waitAll_Permutation; eauto|].
  apply sameGroup_sym, runGroup_waitAll. eapply independent_Permutation; eauto.
Qed.

(** ** The goroutine of a vote works on one validator *)

Lemma recordsAt_withCommission st m key :
  concurrent.recordsAt (withCommission st m) key =
  {| concurrent.commissionRecord := m !! key;
     concurrent.currentRecord := ValidatorCurrentRewards st !! key;
     concurrent.outstandingRecord := ValidatorOutstandingRewards st !! key |}.
Proof. reflexivity. Qed.

Lemma Get_localAt {V} key fault (zero : V) (proj : Store -> gmap string V) :
  (forall st st', concurrent.recordsAt st key = concurrent.recordsAt st' key ->
                  proj st !! key = proj st' !! key) ->
  concurrent.localAt key (fun st => (concurrent.Map_Get fault zero (proj st) key, st)).
Proof.
  intros Hproj. split.
  - intros st. apply sameExcept_refl.
  - intros st st' E. simpl. split; [|exact E].
    unfold concurrent.Map_Get, Map_Get. destruct fault; [reflexivity|].
    rewrite (Hproj st st' E). reflexivity.
Qed.

Lemma commission_Get_localAt faults key :
  concurrent.localAt key (concurrent.ValidatorsAccumulatedCommission_Get faults key).
Proof.
  apply (Get_localAt key _ zeroCommission ValidatorsAccumulatedCommission).
  intros st st' E. unfold concurrent.recordsAt in E. congruence.
Qed.

Lemma current_Get_localAt faults key :
  concurrent.localAt key (concurrent.ValidatorCurrentRewards_Get faults key).
Proof.
  apply (Get_localAt key _ zeroCurrentRewards ValidatorCurrentRewards).
  intros st st' E. unfold concurrent.recordsAt in E. congruence.
Qed.

Lemma outstanding_Get_localAt faults key :
  concurrent.localAt key (concurrent.ValidatorOutstandingRewards_Get faults key).
Proof.
  apply (Get_localAt key _ zeroOutstanding ValidatorOutstandingRewards).
  intros st st' E. unfold concurrent.recordsAt in E. congruence.
Qed.

Lemma commission_Set_localAt faults key v :
  concurrent.localAt key (concurrent.ValidatorsAccumulatedCommission_Set faults key v).
Proof.
  unfold concurrent.ValidatorsAccumulatedCommission_Set.
  destruct (concurrent.commissionSetFails faults key v).
  - split; [intros st; apply sameExcept_refl|intros st st' E; split; [reflexivity|exact E]].
  - split.
    + intros st. repeat split. intros k Hk. unfold concurrent.recordsAt. simpl.
      rewrite lookup_insert_ne by congruence. reflexivity.
    + intros st st' E. split; [reflexivity|]. unfold concurrent.recordsAt in *. simpl.
      rewrite !lookup_insert_eq. congruence.
Qed.

Lemma current_Set_localAt faults key v :
  concurrent.localAt key (concurrent.ValidatorCurrentRewards_Set faults key v).
Proof.
  unfold concurrent.ValidatorCurrentRewards_Set.
  destruct (concurrent.currentSetFails faults key v).
  - split; [intros st; apply sameExcept_refl|intros st st' E; split; [reflexivity|exact E]].
  - split.
    + intros st. repeat split. intros k Hk. unfold concurrent.recordsAt. simpl.
      rewrite lookup_insert_ne by congruence. reflexivity.
    + intros st st' E. split; [reflexivity|]. unfold concurrent.recordsAt in *. simpl.
      rewrite !lookup_insert_eq. congruence.
Qed.

Lemma outstanding_Set_localAt faults key v :
  concurrent.localAt key (concurrent.ValidatorOutstandingRewards_Set faults key v).
Proof.
  unfold concurrent.ValidatorOutstandingRewards_Set.
  destruct (concurrent.outstandingSetFails faults key v).
  - split; [intros st; apply sameExcept_refl|intros st st' E; split; [reflexivity|exact E]].
  - split.
    + intros st. repeat split. intros k Hk. unfold concurrent.recordsAt. simpl.
      rewrite lookup_insert_ne by congruence. reflexivity.
    + intros st st' E. split; [reflexivity|]. unfold concurrent.recordsAt in *. simpl.
      rewrite !lookup_insert_eq. congruence.
Qed.

Lemma usesOnly_andThen {A B} key (p : concurrent.Prog A) (f : A -> concurrent.Prog B) :
  concurrent.usesOnly key p -> (forall a, concurrent.usesOnly key (f a)) ->
  concurrent.usesOnly key (concurrent.andThen p f).
Proof.
  intros Hp Hf. induction Hp; simpl; try (constructor; auto; fail). apply Hf.
Qed.

Lemma usesOnly_returnUnlessNotFound {A} key err (k : concurrent.Prog A) :
  concurrent.usesOnly key k -> concurrent.usesOnly key (concurrent.returnUnlessNotFound err k).
Proof.
  intros Hk. unfold concurrent.returnUnlessNotFound.
  destruct err as [e|]; [|exact Hk]. destruct (negb _); [constructor|exact Hk].
Qed.

Lemma usesOnly_returnIfErr {A} key err (k : concurrent.Prog A) :
  concurrent.usesOnly key k -> concurrent.usesOnly key (concurrent.returnIfErr err k).
Proof. intros Hk. destruct err; [constructor|exact Hk]. Qed.

Lemma AllocateTokensToValidator_usesOnly faults sk val tokens key :
  (forall valBz, StringToBytes sk (stakingtypes.GetOperator val) = inr valBz -> valBz = key) ->
  concurrent.usesOnly key (concurrent.AllocateTokensToValidator faults sk val tokens).
Proof.
  intros Hkey. unfold concurrent.AllocateTokensToValidator.
  destruct (sdk.Sub _ _) as [shared|]; [|constructor].
  destruct (StringToBytes _ _) as [e|valBz]; [constructor|].
  rewrite (Hkey valBz eq_refl).
  constructor.
  constructor; [apply commission_Get_localAt|intros [c err]].
  apply usesOnly_returnUnlessNotFound.
  constructor; [apply commission_Set_localAt|intros err1].
  apply usesOnly_returnIfErr.
  constructor; [apply current_Get_localAt|intros [r err2]].
  apply usesOnly_returnUnlessNotFound.
  constructor; [apply current_Set_localAt|intros err3].
  apply usesOnly_returnIfErr.
  constructor.
  constructor; [apply outstanding_Get_localAt|intros [o err4]].
  apply usesOnly_returnUnlessNotFound.
  constructor; [apply outstanding_Set_localAt|intros err5].
  apply usesOnly_returnIfErr. constructor.
Qed.

Lemma goroutine_usesOnly faults sk feeMultiplier total vote key :
  (forall k, voteKey sk vote = Some k -> k = key) ->
  concurrent.usesOnly key (concurrent.goroutine faults sk feeMultiplier total vote).
Proof.
  unfold voteKey, concurrent.goroutine. intros Hkey.
  destruct (ValidatorByConsAddr _ _) as [e|val]; [constructor|].
  destruct (QuoTruncate _ _) as [fraction|]; [|constructor].
  apply usesOnly_andThen; [|intros; constructor].
  apply AllocateTokensToValidator_usesOnly.
  intros valBz E. rewrite E in Hkey. apply Hkey. reflexivity.
Qed.

Lemma other_key (key : string) : exists key' : string, key' <> key.
Proof.
  destruct key as [|c key]; [exists "a"%string|exists ""%string]; discriminate.
Qed.

Lemma goroutines_independent faults sk feeMultiplier total votes :
  concurrent.distinctValidators sk votes ->
  concurrent.independent (map (concurrent.goroutine faults sk feeMultiplier total) votes).
Proof.
  unfold concurrent.distinctValidators.
  induction votes as [|vote votes IH]; simpl; intros Hd; [constructor|].
  assert (Htail : NoDup (omap (voteKey sk) votes)).
  { destruct (voteKey sk vote); [apply NoDup_cons in Hd as [_ Hd]|]; exact Hd. }
  constructor; [|apply IH; exact Htail].
  apply Forall_forall. intros q Hq.
  apply list_elem_of_fmap in Hq as (vote' & -> & Hin).
  destruct (voteKey sk vote) as [k|] eqn:Ek.
  - apply NoDup_cons in Hd as [Hnot _].
    destruct (voteKey sk vote') as [k'|] eqn:Ek'.
    + exists k, k'. split.
      * intros ->. apply Hnot. apply list_elem_of_omap. eauto.
      * split; apply goroutine_usesOnly; congruence.
    + destruct (other_key k) as [k' Hk']. exists k, k'. split; [congruence|].
      split; apply goroutine_usesOnly; congruence.
  - destruct (voteKey sk vote') as [k'|] eqn:Ek'.
    + destruct (other_key k') as [k Hk]. exists k, k'. split; [exact Hk|].
      split; apply goroutine_usesOnly; congruence.
    + exists "a"%string, ""%string. split; [discriminate|].
      split; apply goroutine_usesOnly; congruence.
Qed.

Lemma finish_sameItems {A} key (p : concurrent.Prog A) :
  concurrent.usesOnly key p ->
  forall st r st' evs, concurrent.finish p st = Some (r, st', evs) -> concurrent.sameItems st st'.
Proof.
  induction 1 as [a|e| |ev k Hk IH|X act k [F D] Hk IH]; intros st r st' evs; simpl.
  - intros [= _ <- _]. repeat split.
  - intros [= _ <- _]. repeat split.
  - discriminate.
  - destruct (concurrent.finish k st) as [[[r0 st0] evs0]|] eqn:E; [|discriminate].
    intros [= _ <- _]. eapply IH. exact E.
  - pose proof (F st) as (b & p & q & _). destruct (act st) as [x st1]. simpl in *.
    intros E. destruct (IH x st1 r st' evs E) as (b' & p' & q').
    repeat split; congruence.
Qed.

(** ** What a goroutine does, from its plan *)

Lemma finish_andThen {A B} (p : concurrent.Prog A) (f : A -> concurrent.Prog B) st :
  concurrent.finish (concurrent.andThen p f) st =
  match concurrent.finish p st with
  | Some (inr a, st', evs) => concurrent.emitted evs (concurrent.finish (f a) st')
  | Some (inl e, st', evs) => Some (inl e, st', evs)
  | None => None
  end.
Proof.
  revert st. induction p as [a|e| |ev k IH|X act k IH]; intros st; simpl.
  - destruct (concurrent.finish (f a) st) as [[[r st'] evs]|]; reflexivity.
  - reflexivity.
  - reflexivity.
  - rewrite IH. destruct (concurrent.finish k st) as [[[[e|a] st'] evs]|]; try reflexivity.
    simpl. destruct (concurrent.finish (f a) st') as [[[r st''] evs']|]; reflexivity.
  - destruct (act st) as [x st1]. apply IH.
Qed.

Ltac fault_or_go :=
  match goal with
  | |- context [concurrent.commissionGetFails ?f ?k] =>
      destruct (concurrent.commissionGetFails f k); [simpl; discriminate|]
  | |- context [concurrent.commissionSetFails ?f ?k ?v] =>
      destruct (concurrent.commissionSetFails f k v); [simpl; discriminate|]
  | |- context [concurrent.currentGetFails ?f ?k] =>
      destruct (concurrent.currentGetFails f k); [simpl; discriminate|]
  | |- context [concurrent.currentSetFails ?f ?k ?v] =>
      destruct (concurrent.currentSetFails f k v); [simpl; discriminate|]
  | |- context [concurrent.outstandingGetFails ?f ?k] =>
      destruct (concurrent.outstandingGetFails f k); [simpl; discriminate|]
  | |- context [concurrent.outstandingSetFails ?f ?k ?v] =>
      destruct (concurrent.outstandingSetFails f k v); [simpl; discriminate|]
  end.

Ltac norm :=
  simpl;
  unfold concurrent.ValidatorsAccumulatedCommission_Get,
    concurrent.ValidatorCurrentRewards_Get, concurrent.ValidatorOutstandingRewards_Get,
    concurrent.ValidatorsAccumulatedCommission_Set,
    concurrent.ValidatorCurrentRewards_Set, concurrent.ValidatorOutstandingRewards_Set,
    concurrent.Map_Get, Map_Get;
  simpl.

Lemma AllocateTokensToValidator_nil faults sk val tokens st st' evs :
  concurrent.finish (concurrent.AllocateTokensToValidator faults sk val tokens) st
  = Some (inr tt, st', evs) ->
  exists shared valBz,
    sdk.Sub tokens (sdk.MulDec tokens (stakingtypes.GetCommission val)) = Some shared /\
    StringToBytes sk (stakingtypes.GetOperator val) = inr valBz /\
    st' = allocateStore valBz (sdk.MulDec tokens (stakingtypes.GetCommission val))
            shared tokens st.
Proof.
  unfold concurrent.AllocateTokensToValidator. cbn zeta.
  destruct (sdk.Sub _ _) as [shared|]; [|discriminate].
  destruct (StringToBytes _ _) as [e|valBz]; [discriminate|].
  intros H. exists shared, valBz. split; [reflexivity|]. split; [reflexivity|].
  revert H. norm.
  fault_or_go.
  destruct (ValidatorsAccumulatedCommission st !! valBz) as [c|] eqn:E1; norm;
    fault_or_go; norm; fault_or_go;
    (destruct (ValidatorCurrentRewards st !! valBz) as [r|] eqn:E2; norm;
     fault_or_go; norm; fault_or_go;
     (destruct (ValidatorOutstandingRewards st !! valBz) as [o|] eqn:E3; norm;
      fault_or_go; norm;
      intros [= <- _];
      unfold allocateStore, commissionAt, currentAt, periodAt, outstandingAt, Map_Get;
      rewrite E1, E2, E3; reflexivity)).
Qed.

Lemma goroutine_nil faults sk feeMultiplier total vote st a st' evs :
  concurrent.finish (concurrent.goroutine faults sk feeMultiplier total vote) st
  = Some (inr a, st', evs) ->
  exists val valBz commission shared,
    votePlan sk feeMultiplier total vote = PlanOk val valBz commission shared a /\
    st' = allocateStore valBz commission shared a st.
Proof.
  unfold concurrent.goroutine, votePlan.
  destruct (ValidatorByConsAddr _ _) as [e|val]; [discriminate|].
  destruct (QuoTruncate _ _) as [fraction|]; [|discriminate].
  rewrite finish_andThen.
  destruct (concurrent.finish _ st) as [[[[e|[]] st1] evs1]|] eqn:E; try discriminate.
  simpl. intros [= <- <- _].
  apply AllocateTokensToValidator_nil in E as (shared & valBz & -> & -> & ->).
  eauto 6.
Qed.

Lemma goroutine_panics faults sk feeMultiplier total vote st :
  concurrent.finish (concurrent.goroutine faults sk feeMultiplier total vote) st = None <->
  votePlan sk feeMultiplier total vote = PlanPanic.
Proof.
  unfold concurrent.goroutine, votePlan.
  destruct (ValidatorByConsAddr _ _) as [e|val]; [split; discriminate|].
  destruct (QuoTruncate _ _) as [fraction|]; [|split; reflexivity].
  rewrite finish_andThen.
  unfold concurrent.AllocateTokensToValidator. cbn zeta.
  destruct (sdk.Sub _ _) as [shared|]; [|split; reflexivity].
  destruct (StringToBytes _ _) as [e|valBz]; [split; discriminate|].
  split; [|discriminate].
  intros H. exfalso. revert H. norm.
  repeat (match goal with
          | |- context [match ?x with _ => _ end] =>
              match type of x with
              | option string => destruct x
              | option _ => destruct x
              end
          end; norm; try discriminate).
Qed.

(** ** One cycle, step by step, with failing collaborators *)

Lemma concurrent_AllocateTokens_eq faults sk schedule total votes s :
  concurrent.AllocateTokens faults sk schedule total votes s =
  let fees := feeCollector (bank (store s)) in
  match sdk.NewDecCoinsFromCoins fees with
  | None => Panic
  | Some feesCollected =>
  match concurrent.sendFails faults feeCollectorName ModuleName fees with
  | Some msg => Err (ErrOther msg) s
  | None =>
  let st1 := withBank (store s)
               (moveCoins (bank (store s)) feeCollectorName ModuleName fees) in
  match concurrent.feePoolGetFails faults with
  | Some msg => Err (ErrOther msg) {| store := st1; events := events s |}
  | None =>
  match FeePool (store s) with
  | None => Err ErrNotFound {| store := st1; events := events s |}
  | Some feePool =>
  let folded := {| DecimalPool := sdk.Add (DecimalPool feePool) feesCollected |} in
  match (if bool_decide (total = 0) then concurrent.feePoolSetFails faults folded else None) with
  | Some msg => Err (ErrOther msg) {| store := st1; events := events s |}
  | None =>
  let st2 := if bool_decide (total = 0) then withFeePool st1 (Some folded) else st1 in
  match concurrent.paramsGetFails faults with
  | Some msg => Err (ErrOther msg) {| store := st2; events := events s |}
  | None =>
  match Params (store s) with
  | None => Err ErrNotFound {| store := st2; events := events s |}
  | Some params =>
  let feeMultiplier :=
    sdk.MulDecTruncate feesCollected (LegacyDec.Sub LegacyOneDec (CommunityTax params)) in
  match concurrent.runGroup schedule
          (map (concurrent.goroutine faults sk feeMultiplier total) votes) st2 with
  | None => Panic
  | Some (exits, st3, evs) =>
  let s3 := {| store := st3; events := events s ++ evs |} in
  match concurrent.firstErr exits with
  | Some err => Err err s3
  | None =>
  match subRewards feesCollected (concurrent.sent exits) with
  | None => Panic
  | Some remaining =>
  match sdk.TruncateDecimal remaining with
  | None => Panic
  | Some (amt, re) =>
  match concurrent.sendFails faults ModuleName protocolpoolModuleName amt with
  | Some msg => Err (ErrOther msg) s3
  | None =>
  if hasFunds (distribution (bank st3)) amt then
    let st4 := withBank st3 (moveCoins (bank st3) ModuleName protocolpoolModuleName amt) in
    let final := {| DecimalPool := sdk.Add (DecimalPool feePool) re |} in
    match concurrent.feePoolSetFails faults final with
    | Some msg => Err (ErrOther msg) {| store := st4; events := events s3 |}
    | None => Ok tt {| store := withFeePool st4 (Some final); events := events s3 |}
    end
  else Err ErrInsufficientFunds s3
  end end end end end end end end end end end end.
Proof.
  unfold concurrent.AllocateTokens, bind, GetAllBalances, gets. cbn zeta. simpl balance.
  destruct (sdk.NewDecCoinsFromCoins _) as [feesCollected|]; [|reflexivity]. simpl.
  unfold concurrent.SendCoinsFromModuleToModule at 1.
  destruct (concurrent.sendFails faults feeCollectorName ModuleName _); [reflexivity|].
  simpl concurrent.failing.
  rewrite SendCoinsFromModuleToModule_eq. simpl balance. rewrite hasFunds_refl.
  unfold concurrent.FeePool_Get.
  destruct (concurrent.feePoolGetFails faults); [reflexivity|].
  simpl concurrent.failing. unfold FeePool_Get. simpl.
  destruct (FeePool (store s)) as [feePool|]; [|reflexivity].
  set (st1 := withBank (store s) _).
  set (folded := {| DecimalPool := _ |}).
  unfold concurrent.FeePool_Set at 1.
  case_bool_decide.
  - destruct (concurrent.feePoolSetFails faults folded); [reflexivity|].
    simpl concurrent.failing. unfold FeePool_Set, modify. simpl.
    unfold concurrent.GetCommunityTax.
    destruct (concurrent.paramsGetFails faults); [reflexivity|].
    simpl concurrent.failing. unfold GetCommunityTax. simpl.
    destruct (Params (store s)) as [params|]; [|reflexivity].
    unfold concurrent.errgroup_Wait. simpl.
    destruct (concurrent.runGroup _ _ _) as [[[exits st3] evs]|]; [|reflexivity].
    destruct (concurrent.firstErr exits) as [err|]; [reflexivity|].
    destruct (subRewards _ _) as [remaining|]; [|reflexivity]. simpl.
    destruct (sdk.TruncateDecimal remaining) as [[amt re]|]; [|reflexivity]. simpl.
    unfold concurrent.SendCoinsFromModuleToModule.
    destruct (concurrent.sendFails faults ModuleName protocolpoolModuleName amt);
      [reflexivity|].
    simpl concurrent.failing. rewrite SendCoinsFromModuleToModule_eq. simpl.
    destruct (hasFunds _ amt); [|reflexivity].
    unfold concurrent.FeePool_Set.
    destruct (concurrent.feePoolSetFails faults _); reflexivity.
  - simpl.
    unfold concurrent.GetCommunityTax.
    destruct (concurrent.paramsGetFails faults); [reflexivity|].
    simpl concurrent.failing. unfold GetCommunityTax. simpl.
    destruct (Params (store s)) as [params|]; [|reflexivity].
    unfold concurrent.errgroup_Wait. simpl.
    destruct (concurrent.runGroup _ _ _) as [[[exits st3] evs]|]; [|reflexivity].
    destruct (concurrent.firstErr exits) as [err|]; [reflexivity|].
    destruct (subRewards _ _) as [remaining|]; [|reflexivity]. simpl.
    destruct (sdk.TruncateDecimal remaining) as [[amt re]|]; [|reflexivity]. simpl.
    unfold concurrent.SendCoinsFromModuleToModule.
    destruct (concurrent.sendFails faults ModuleName protocolpoolModuleName amt);
      [reflexivity|].
    simpl concurrent.failing. rewrite SendCoinsFromModuleToModule_eq. simpl.
    destruct (hasFunds _ amt); [|reflexivity].
    unfold concurrent.FeePool_Set.
    destruct (concurrent.feePoolSetFails faults _); reflexivity.
Qed.

(** ** The group of a cycle *)

Lemma firstErr_None {A} (exits : list (error + A)) :
  concurrent.firstErr exits = None <-> exits = map inr (concurrent.sent exits).
Proof.
  unfold concurrent.firstErr, concurrent.sent.
  induction exits as [|[e|a] exits IH]; simpl.
  - tauto.
  - split; [discriminate|]. intros H. exfalso. clear IH.
    destruct (list_omap _ _ _ exits); simpl in H; discriminate H.
  - rewrite IH. split; [intros H; f_equal; exact H|intros H; injection H; auto].
Qed.

Lemma firstErr_Permutation {A} (exits exits' : list (error + A)) :
  exits ≡ₚ exits' -> concurrent.firstErr exits = None -> concurrent.firstErr exits' = None.
Proof.
  intros Hp H. apply firstErr_None.
  assert (Hall : Forall (fun r => exists a, r = inr a) exits).
  { apply firstErr_None in H. rewrite H. apply Forall_forall.
    intros r Hr. apply list_elem_of_fmap in Hr as (a & -> & _). eauto. }
  rewrite Hp in Hall. clear Hp H.
  induction Hall as [|r l [a ->] _ IH]; simpl; [reflexivity|]. f_equal. exact IH.
Qed.

(** When every goroutine returns nil, each vote has written its plan. *)
Lemma waitAll_nil faults sk feeMultiplier total votes :
  forall st exits st' evs,
    concurrent.waitAll (map (concurrent.goroutine faults sk feeMultiplier total) votes) st
    = Some (exits, st', evs) ->
    concurrent.firstErr exits = None ->
    let plans := map (votePlan sk feeMultiplier total) votes in
    Forall (fun p => is_Some (planReward p)) plans /\
    concurrent.sent exits = omap planReward plans /\
    st' = plansStore plans st.
Proof.
  induction votes as [|vote votes IH]; intros st exits st' evs; simpl.
  - intros [= <- <- _] _. auto.
  - destruct (concurrent.finish _ st) as [[[r st1] evs1]|] eqn:E; [|discriminate].
    destruct (concurrent.waitAll _ st1) as [[[exits1 st2] evs2]|] eqn:W; [|discriminate].
    simpl. intros [= <- <- _] Herr.
    destruct r as [e|a]; [discriminate|].
    apply goroutine_nil in E as (val & valBz & com & sh & Hplan & ->).
    destruct (IH _ _ _ _ W Herr) as (Hall & Hsent & ->).
    rewrite Hplan. simpl. split; [constructor; [eauto|exact Hall]|].
    split; [f_equal; exact Hsent|reflexivity].
Qed.

(** What is on the channel are rewards of the votes. *)
Lemma waitAll_sent faults sk feeMultiplier total votes :
  forall st exits st' evs,
    concurrent.waitAll (map (concurrent.goroutine faults sk feeMultiplier total) votes) st
    = Some (exits, st', evs) ->
    concurrent.sent exits ⊆+ omap planReward (map (votePlan sk feeMultiplier total) votes).
Proof.
  induction votes as [|vote votes IH]; intros st exits st' evs; simpl.
  - intros [= <- _ _]. reflexivity.
  - destruct (concurrent.finish _ st) as [[[r st1] evs1]|] eqn:E; [|discriminate].
    destruct (concurrent.waitAll _ st1) as [[[exits1 st2] evs2]|] eqn:W; [|discriminate].
    simpl. intros [= <- _ _]. specialize (IH _ _ _ _ W).
    destruct r as [e|a]; simpl.
    + destruct (planReward _); [apply submseteq_cons|]; exact IH.
    + apply goroutine_nil in E as (val & valBz & com & sh & -> & _). simpl.
      apply submseteq_skip. exact IH.
Qed.

Lemma goroutines_useOnly faults sk feeMultiplier total votes :
  Forall (fun p => exists key, concurrent.usesOnly key p)
         (map (concurrent.goroutine faults sk feeMultiplier total) votes).
Proof.
  apply Forall_forall. intros p Hp. apply list_elem_of_fmap in Hp as (vote & -> & _).
  destruct (voteKey sk vote) as [k|] eqn:E.
  - exists k. apply goroutine_usesOnly. congruence.
  - exists ""%string. apply goroutine_usesOnly. congruence.
Qed.

Lemma sameItems_trans st1 st2 st3 :
  concurrent.sameItems st1 st2 -> concurrent.sameItems st2 st3 -> concurrent.sameItems st1 st3.
Proof. intros (a & b & c) (a' & b' & c'). repeat split; congruence. Qed.

Lemma waitAll_sameItems {A} (pool : list (concurrent.Prog A)) :
  Forall (fun p => exists key, concurrent.usesOnly key p) pool ->
  forall st exits st' evs,
    concurrent.waitAll pool st = Some (exits, st', evs) -> concurrent.sameItems st st'.
Proof.
  induction 1 as [|p pool [key Hp] _ IH]; intros st exits st' evs; simpl.
  - intros [= _ <- _]. repeat split.
  - destruct (concurrent.finish p st) as [[[r st1] evs1]|] eqn:E; [|discriminate].
    destruct (concurrent.waitAll pool st1) as [[[exits1 st2] evs2]|] eqn:W; [|discriminate].
    simpl. intros [= _ <- _].
    eapply sameItems_trans; [eapply finish_sameItems; eauto|eapply IH; eauto].
Qed.

(** Whatever the schedule, and whether or not two goroutines work on the
    same validator, the bank, the fee pool and the parameters are not
    touched. *)
Lemma runGroup_sameItems {A} schedule :
  forall (pool : list (concurrent.Prog A)) st exits st' evs,
    Forall (fun p => exists key, concurrent.usesOnly key p) pool ->
    concurrent.runGroup schedule pool st = Some (exits, st', evs) ->
    concurrent.sameItems st st'.
Proof.
  induction schedule as [|i later IH]; intros pool st exits st' evs Hall; simpl.
  - apply waitAll_sameItems. exact Hall.
  - destruct (pool !! i) as [p|] eqn:Ep; [|apply IH; exact Hall].
    assert (Hdel : Forall (fun p => exists key, concurrent.usesOnly key p) (delete i pool)).
    { rewrite delete_take_drop. apply Forall_app. split.
      - apply Forall_take. exact Hall.
      - apply Forall_drop. exact Hall. }
    assert (Hstep : (let '(p', evs0, st1) := concurrent.step p st in
                     concurrent.exited [] evs0 (concurrent.runGroup later (<[i:=p']> pool) st1))
                    = Some (exits, st', evs) -> concurrent.sameItems st st').
    { destruct (concurrent.step p st) as [[p' evs0] st1] eqn:Es.
      destruct (concurrent.runGroup later _ st1) as [[[exits1 st2] evs2]|] eqn:R; [|discriminate].
      simpl. intros [= _ <- _].
      destruct (proj1 (Forall_forall _ _) Hall p (list_elem_of_lookup_2 _ _ _ Ep)) as [key Hp].
      pose proof (step_localAt key p Hp) as [F _]. specialize (F st). rewrite Es in F.
      pose proof (step_usesOnly key p st Hp) as Hp'. rewrite Es in Hp'. simpl in *.
      apply (sameItems_trans st st1 st2).
      - destruct F as (a & b & c & _). repeat split; assumption.
      - eapply IH; [|exact R]. apply Forall_insert; [exact Hall|eauto]. }
    destruct p as [a|e| |ev k|X act k]; try exact Hstep.
    + destruct (concurrent.runGroup later _ st) as [[[exits1 st2] evs2]|] eqn:R; [|discriminate].
      simpl. intros [= _ <- _]. eapply IH; eauto.
    + destruct (concurrent.runGroup later _ st) as [[[exits1 st2] evs2]|] eqn:R; [|discriminate].
      simpl. intros [= _ <- _]. eapply IH; eauto.
    + discriminate.
Qed.



(** ** A cycle that returns nil, whatever the schedule

    When no two votes name the same validator, a cycle that returns nil
    has left the stores that the goroutines leave when they run one after
    the other, in the order in which they ended. *)

Lemma remove_dups_NoDup (l : list string) : NoDup l -> remove_dups l = l.
Proof.
  induction 1 as [|x l Hx _ IH]; simpl; [reflexivity|].
  destruct (decide_rel _ x l) as [Hin|_]; [contradiction|]. rewrite IH. reflexivity.
Qed.

Lemma rewards_of_plans (plans : list Plan) :
  Forall (fun p => is_Some (planReward p)) plans ->
  existsb planPanics plans = false /\
  firstError None plans = None /\
  omap planReward plans = map (fun p => default ∅ (planReward p)) plans.
Proof.
  intros H. split; [|split].
  - induction H as [|p plans [r Hp] _ IH]; simpl; [reflexivity|].
    destruct p; try discriminate. exact IH.
  - apply firstError_None. split; [reflexivity|].
    eapply Forall_impl; [exact H|]. intros p [r Hp]. destruct p; try discriminate. reflexivity.
  - induction H as [|p plans [r Hp] _ IH]; [reflexivity|].
    destruct p; try discriminate. simpl. f_equal. exact IH.
Qed.

Lemma nil_run_in_some_order faults sk schedule total votes s s' :
  concurrent.distinctValidators sk votes ->
  concurrent.AllocateTokens faults sk schedule total votes s = Ok tt s' ->
  exists votes' s'',
    votes ≡ₚ votes' /\
    AllocateTokens sk total votes' s = Ok tt s'' /\
    store s'' = store s'.
Proof.
  intros Hd. rewrite concurrent_AllocateTokens_eq. cbn zeta.
  destruct (sdk.NewDecCoinsFromCoins _) as [feesCollected|] eqn:Hfees; [|discriminate].
  destruct (concurrent.sendFails faults feeCollectorName _ _); [discriminate|].
  destruct (concurrent.feePoolGetFails faults); [discriminate|].
  destruct (FeePool (store s)) as [feePool|] eqn:HFP; [|discriminate].
  destruct (if bool_decide (total = 0) then _ else None); [discriminate|].
  destruct (concurrent.paramsGetFails faults); [discriminate|].
  destruct (Params (store s)) as [params|] eqn:HP; [|discriminate].
  set (st1 := withBank (store s) _).
  set (st2 := if bool_decide (total = 0) then _ else st1).
  set (feeMultiplier := sdk.MulDecTruncate _ _).
  destruct (concurrent.runGroup _ _ st2) as [[[exits st3] evs]|] eqn:R; [|discriminate].
  destruct (concurrent.firstErr exits) eqn:Herr; [discriminate|].
  destruct (subRewards _ _) as [remaining|] eqn:Hsub; [|discriminate].
  destruct (sdk.TruncateDecimal remaining) as [[amt re]|] eqn:Htr; [|discriminate].
  destruct (concurrent.sendFails faults ModuleName _ _); [discriminate|].
  destruct (hasFunds _ amt) eqn:Hfunds; [|discriminate].
  destruct (concurrent.feePoolSetFails faults _); [discriminate|].
  intros [= <-].
  pose proof (runGroup_waitAll schedule _ st2
                (goroutines_independent faults sk feeMultiplier total votes Hd)) as G.
  rewrite R in G.
  destruct (concurrent.waitAll _ st2) as [[[exits0 st3'] evs0]|] eqn:W; [|contradiction].
  destruct G as [Hperm <-].
  destruct (waitAll_nil _ _ _ _ _ _ _ _ _ W (firstErr_Permutation _ _ Hperm Herr))
    as (Hall & Hsent & Hst3).
  destruct (rewards_of_plans _ Hall) as (_ & _ & Hrew).
  assert (Hp : concurrent.sent exits ≡ₚ
               map (fun vote => default ∅ (planReward (votePlan sk feeMultiplier total vote)))
                   votes).
  { etrans; [apply omap_Permutation, Hperm|]. fold (concurrent.sent exits0).
    rewrite Hsent, Hrew, map_map. reflexivity. }
  apply Permutation_map_inv in Hp as (votes' & Hsent' & Hvotes).
  assert (Hplans : map (votePlan sk feeMultiplier total) votes
                   ≡ₚ map (votePlan sk feeMultiplier total) votes')
    by (apply fmap_Permutation, Hvotes).
  assert (Hall' : Forall (fun p => is_Some (planReward p))
                         (map (votePlan sk feeMultiplier total) votes'))
    by (rewrite <- Hplans; exact Hall).
  destruct (rewards_of_plans _ Hall') as (Hnp & Hfe & Hrew').
  destruct (runGroup_sameItems schedule _ _ _ _ _
              (goroutines_useOnly faults sk feeMultiplier total votes) R) as (Hb & _ & _).
  eexists votes', _. split; [exact Hvotes|].
  rewrite AllocateTokens_eq. cbn zeta.
  rewrite Hfees, HFP, HP. fold st1. fold st2. fold feeMultiplier.
  rewrite Hnp, Hfe, Hrew', map_map, <- Hsent', Hsub, Htr, Hb, Hfunds.
  split; [reflexivity|]. simpl.
  rewrite <- (plansStore_Permutation _ _ Hplans st2), <- Hst3. reflexivity.
Qed.

(** * The goroutines one after the other, the collaborators sound

    [keeper.AllocateTokens] is the cycle in which no collaborator fails on
    its own and the goroutines run one after the other. *)






(** The flush likewise. *)
Lemma sequential_flush s :
  concurrent.SendDecimalPoolToCommunityPool concurrent.noFaults s
  = SendDecimalPoolToCommunityPool s.
Proof. reflexivity. Qed.

(** * The claims about a whole cycle, for every schedule *)

(** ** Conservation *)

Lemma votedValidators_Permutation sk votes votes' :
  concurrent.distinctValidators sk votes -> votes ≡ₚ votes' ->
  votedValidators sk votes ≡ₚ votedValidators sk votes'.
Proof.
  unfold concurrent.distinctValidators, votedValidators. intros Hd Hp.
  assert (Hk : omap (voteKey sk) votes ≡ₚ omap (voteKey sk) votes')
    by (apply omap_Permutation, Hp).
  rewrite (remove_dups_NoDup _ Hd).
  rewrite (remove_dups_NoDup (omap (voteKey sk) votes')) by (rewrite <- Hk; exact Hd).
  exact Hk.
Qed.

(** C1, as amended.  When no two votes name the same validator: on every
    run of [AllocateTokens] that returns nil, however the goroutines were
    interleaved, and in every denomination, what the voted validators
    gained in outstanding rewards, plus what was transferred to the
    community fund, plus the change of the Decimal Remainder Pool, is
    exactly the fee envelope (all counted in units of 10^-18).  This holds
    for every tax rate, every total power and every sign of the powers
    with which the run returns nil. *)
Theorem conservation faults sk schedule total votes s s' denom :
  concurrent.distinctValidators sk votes ->
  concurrent.AllocateTokens faults sk schedule total votes s = Ok tt s' ->
  sumZ (map (outstandingDelta s s' denom) (votedValidators sk votes))
  + LegacyNewDecFromInt (communityFundDelta s s' denom)
  + remainderPoolDelta s s' denom
  = LegacyNewDecFromInt (sdk.AmountOf (feeEnvelope s) denom).
Proof.
  intros Hd Hrun.
  destruct (nil_run_in_some_order _ _ _ _ _ _ _ Hd Hrun) as (votes' & s'' & Hp & Hseq & Hst).
  pose proof (conservation_in_list_order sk total votes' s s'' denom Hseq) as H.
  unfold outstandingDelta, communityFundDelta, remainderPoolDelta in *.
  rewrite Hst in H. rewrite <- H. f_equal. f_equal.
  apply sumZ_Permutation, fmap_Permutation, votedValidators_Permutation; assumption.
Qed.

(** The scenario of the specification, its two goroutines taking their
    steps in turn. *)
Lemma conservation_witness :
  exists s',
    concurrent.AllocateTokens concurrent.noFaults example.stakingKeeper
      (concurrent.alternate 12) 100
      [example.vote "consA" 70; example.vote "consB" 30] example.genesis = Ok tt s' /\
    sumZ (map (outstandingDelta example.genesis s' example.stake)
              (votedValidators example.stakingKeeper
                 [example.vote "consA" 70; example.vote "consB" 30]))
    + LegacyNewDecFromInt (communityFundDelta example.genesis s' example.stake)
    + remainderPoolDelta example.genesis s' example.stake
    = LegacyNewDecFromInt 100.
Proof.
  eexists. split; [vm_compute; reflexivity|].
  refine (conservation concurrent.noFaults example.stakingKeeper (concurrent.alternate 12) 100
            [example.vote "consA" 70; example.vote "consB" 30] example.genesis _
            example.stake _ _).
  - apply (bool_decide_unpack _). vm_compute. reflexivity.
  - vm_compute. reflexivity.
Defined.

(** C1, counterexample.  Two votes name validator A (35 each, B has 30;
    100 stake of fees, tax 2%).  Their goroutines take their steps in
    turn: both read A's records before either writes them, and one
    allocation of 34.3 stake is lost.  The cycle returns nil; A's
    outstanding rewards are 34.3, B's 29.4, the community fund received 2
    and the pool nothing: 65.7 of the 100 collected. *)
Lemma conservation_lost_update :
  let votes := [example.vote "consA" 35; example.vote "consA" 35; example.vote "consB" 30] in
  Forall (fun vote => 0 <= comet.Power (comet.Validator_ vote)) votes /\
  totalPower votes = 100 /\
  exists s',
    concurrent.AllocateTokens concurrent.noFaults example.stakingKeeper
      (concurrent.alternate 12) 100 votes example.genesis = Ok tt s' /\
    sdk.AmountOf (outstandingAt (store s') "A") example.stake = 34300000000000000000 /\
    sumZ (map (outstandingDelta example.genesis s' example.stake)
              (votedValidators example.stakingKeeper votes))
    + LegacyNewDecFromInt (communityFundDelta example.genesis s' example.stake)
    + remainderPoolDelta example.genesis s' example.stake
    = LegacyNewDecFromInt 100 - 34300000000000000000.
Proof.
  cbn zeta. split; [repeat constructor; vm_compute; discriminate|].
  split; [reflexivity|].
  eexists. split; [vm_compute; reflexivity|].
  split; vm_compute; reflexivity.
Qed.

(** ** Order of the votes *)

Lemma sameSignAt_submseteq denom rewards rewards' :
  rewards' ⊆+ rewards -> sameSignAt denom rewards -> sameSignAt denom rewards'.
Proof.
  intros Hsub [H|H]; [left|right];
    (apply Forall_forall; intros r Hr; eapply (proj1 (Forall_forall _ _) H);
     eapply elem_of_submseteq; eauto).
Qed.

(** C5, as amended.  When no two votes name the same validator, neither
    the order of the vote list nor the interleaving of the goroutines
    changes what a cycle leaves: for every permutation of the list, every
    two schedules and the same behaviour of the collaborators, whenever
    neither run panics, both return nil or both return an error, and they
    leave the same stores (per-validator accumulators, balances, pool);
    and when no vote has a negative power the two runs agree altogether,
    panics included.  (The error returned may differ: it is the first in
    time.) *)
Theorem order_independence faults sk schedule schedule' total votes votes' s :
  votes ≡ₚ votes' ->
  concurrent.distinctValidators sk votes ->
  (concurrent.AllocateTokens faults sk schedule total votes s <> Panic ->
   concurrent.AllocateTokens faults sk schedule' total votes' s <> Panic ->
   sameOutcome (concurrent.AllocateTokens faults sk schedule total votes s)
               (concurrent.AllocateTokens faults sk schedule' total votes' s)) /\
  (Forall (fun vote => 0 <= comet.Power (comet.Validator_ vote)) votes ->
   sameOutcome (concurrent.AllocateTokens faults sk schedule total votes s)
               (concurrent.AllocateTokens faults sk schedule' total votes' s)).
Proof.
  intros Hp Hd. rewrite !concurrent_AllocateTokens_eq. cbn zeta.
  destruct (sdk.NewDecCoinsFromCoins _) as [feesCollected|] eqn:Hfees;
    [|split; intros; exact I].
  apply NewDecCoinsFromCoins_nonneg in Hfees.
  destruct (concurrent.sendFails faults feeCollectorName _ _); [split; reflexivity|].
  destruct (concurrent.feePoolGetFails faults); [split; reflexivity|].
  destruct (FeePool (store s)) as [feePool|]; [|split; reflexivity].
  destruct (if bool_decide (total = 0) then _ else None); [split; reflexivity|].
  destruct (concurrent.paramsGetFails faults); [split; reflexivity|].
  destruct (Params (store s)) as [params|]; [|split; reflexivity].
  set (st1 := withBank (store s) _).
  set (st2 := if bool_decide (total = 0) then _ else st1).
  set (feeMultiplier := sdk.MulDecTruncate _ _).
  pose proof (goroutines_independent faults sk feeMultiplier total votes Hd) as Hind.
  pose proof (runGroup_any_order schedule schedule' _ _ st2
                (fmap_Permutation (concurrent.goroutine faults sk feeMultiplier total) _ _ Hp)
                Hind) as G.
  pose proof (runGroup_waitAll schedule _ st2 Hind) as G0.
  destruct (concurrent.runGroup schedule _ st2) as [[[exits st3] evs]|];
    destruct (concurrent.runGroup schedule' _ st2) as [[[exits' st3'] evs']|];
    try contradiction; [|split; intros; exact I].
  destruct G as [Hexits <-].
  assert (Hsent : concurrent.sent exits ≡ₚ concurrent.sent exits')
    by (apply omap_Permutation, Hexits).
  destruct (concurrent.firstErr exits) as [e|] eqn:E,
           (concurrent.firstErr exits') as [e'|] eqn:E'.
  - split; reflexivity.
  - exfalso. apply (firstErr_Permutation _ _ (symmetry Hexits)) in E'. congruence.
  - exfalso. apply (firstErr_Permutation _ _ Hexits) in E. congruence.
  - split.
    + intros H H'.
      destruct (subRewards feesCollected (concurrent.sent exits)) as [rest|] eqn:R;
        [|contradiction].
      destruct (subRewards feesCollected (concurrent.sent exits')) as [rest'|] eqn:R';
        [|contradiction].
      rewrite <- (subRewards_Permutation_Some _ _ _ _ _ Hsent R R').
      destruct (sdk.TruncateDecimal rest) as [[amt re]|]; [|exact I].
      destruct (concurrent.sendFails faults ModuleName _ _); [reflexivity|].
      destruct (hasFunds _ amt); [|reflexivity].
      destruct (concurrent.feePoolSetFails faults _); reflexivity.
    + intros Hpow.
      assert (Hsign : forall denom, sameSignAt denom (concurrent.sent exits)).
      { intros denom.
        destruct (concurrent.waitAll _ st2) as [[[exits0 st0] evs0]|] eqn:W; [|contradiction].
        destruct G0 as [Hexits0 _].
        apply (sameSignAt_Permutation denom (concurrent.sent exits0));
          [symmetry; apply omap_Permutation, Hexits0|].
        eapply sameSignAt_submseteq; [eapply waitAll_sent; exact W|].
        apply rewards_sameSign. exact Hpow. }
      rewrite <- (subRewards_Permutation _ _ Hsent feesCollected Hfees Hsign).
      destruct (subRewards feesCollected (concurrent.sent exits)) as [rest|]; [|exact I].
      destruct (sdk.TruncateDecimal rest) as [[amt re]|]; [|exact I].
      destruct (concurrent.sendFails faults ModuleName _ _); [reflexivity|].
      destruct (hasFunds _ amt); [|reflexivity].
      destruct (concurrent.feePoolSetFails faults _); reflexivity.
Qed.

(** The scenario of the specification: the votes swapped, and the
    goroutines one after the other or taking their steps in turn. *)
Lemma order_independence_witness :
  sameOutcome
    (concurrent.AllocateTokens concurrent.noFaults example.stakingKeeper [] 100
       [example.vote "consA" 70; example.vote "consB" 30] example.genesis)
    (concurrent.AllocateTokens concurrent.noFaults example.stakingKeeper
       (concurrent.alternate 12) 100
       [example.vote "consB" 30; example.vote "consA" 70] example.genesis).
Proof.
  refine (proj2 (order_independence concurrent.noFaults example.stakingKeeper []
                   (concurrent.alternate 12) 100
                   [example.vote "consA" 70; example.vote "consB" 30]
                   [example.vote "consB" 30; example.vote "consA" 70]
                   example.genesis _ _) _).
  - apply perm_swap.
  - apply (bool_decide_unpack _). vm_compute. reflexivity.
  - repeat constructor; vm_compute; discriminate.
Defined.

(** C5, counterexample.  A list in which two votes name validator A, and
    the same list with B's vote moved to the end.  On the first the
    goroutines run one after the other, on the second the two goroutines
    of A take their steps in turn: both runs return nil, and A's
    outstanding rewards are 68.6 stake after the first and 34.3 after the
    second. *)
Lemma order_matters_with_duplicates :
  let votes := [example.vote "consB" 30; example.vote "consA" 35; example.vote "consA" 35] in
  let votes' := [example.vote "consA" 35; example.vote "consA" 35; example.vote "consB" 30] in
  votes ≡ₚ votes' /\
  exists s1 s2,
    concurrent.AllocateTokens concurrent.noFaults example.stakingKeeper [] 100
      votes example.genesis = Ok tt s1 /\
    concurrent.AllocateTokens concurrent.noFaults example.stakingKeeper
      (concurrent.alternate 12) 100 votes' example.genesis = Ok tt s2 /\
    sdk.AmountOf (outstandingAt (store s1) "A") example.stake = 68600000000000000000 /\
    sdk.AmountOf (outstandingAt (store s2) "A") example.stake = 34300000000000000000.
Proof.
  cbn zeta. split.
  - change ([example.vote "consB" 30] ++ [example.vote "consA" 35; example.vote "consA" 35]
            ≡ₚ [example.vote "consA" 35; example.vote "consA" 35] ++ [example.vote "consB" 30]).
    apply Permutation_app_comm.
  - eexists _, _. split; [vm_compute; reflexivity|].
    split; [vm_compute; reflexivity|].
    split; vm_compute; reflexivity.
Qed.

(** ** A vote with a negative power *)





(** * Further properties of a cycle, for every schedule *)

(** ** The module accounts *)

(** The three ways a cycle that does not panic leaves the bank: the first
    transfer failed and nothing has changed; or the envelope is in the
    distribution account and the call returned an error; or the community
    fund has been paid, and the call returned nil or the error of the last
    [FeePool.Set]. *)
Lemma cycle_bank faults sk schedule total votes s s' :
  stateOf (concurrent.AllocateTokens faults sk schedule total votes s) = Some s' ->
  let run := concurrent.AllocateTokens faults sk schedule total votes s in
  let collected := moveCoins (bank (store s)) feeCollectorName ModuleName (feeEnvelope s) in
  (exists msg,
     concurrent.sendFails faults feeCollectorName ModuleName (feeEnvelope s) = Some msg /\
     run = Err (ErrOther msg) s /\ s' = s) \/
  (concurrent.sendFails faults feeCollectorName ModuleName (feeEnvelope s) = None /\
   bank (store s') = collected /\ exists e, run = Err e s') \/
  (concurrent.sendFails faults feeCollectorName ModuleName (feeEnvelope s) = None /\
   exists amt,
     bank (store s') = moveCoins collected ModuleName protocolpoolModuleName amt /\
     (run = Ok tt s' \/
      exists pool msg,
        concurrent.feePoolSetFails faults pool = Some msg /\ run = Err (ErrOther msg) s')).
Proof.
  cbn zeta. rewrite concurrent_AllocateTokens_eq. cbn zeta. unfold feeEnvelope.
  destruct (sdk.NewDecCoinsFromCoins _) as [feesCollected|]; [|discriminate].
  destruct (concurrent.sendFails faults feeCollectorName _ _) as [msg|];
    [intros [= <-]; left; eauto|].
  destruct (concurrent.feePoolGetFails faults) as [msg|];
    [intros [= <-]; right; left; eauto|].
  destruct (FeePool (store s)) as [feePool|]; [|intros [= <-]; right; left; eauto].
  destruct (if bool_decide (total = 0) then _ else None);
    [intros [= <-]; right; left; eauto|].
  set (st1 := withBank (store s) _).
  set (st2 := if bool_decide (total = 0) then _ else st1).
  assert (Hb2 : bank st2 = bank st1) by (unfold st2; case_bool_decide; reflexivity).
  destruct (concurrent.paramsGetFails faults) as [msg|];
    [intros [= <-]; right; left; eauto|].
  destruct (Params (store s)) as [params|]; [|intros [= <-]; right; left; eauto].
  destruct (concurrent.runGroup _ _ st2) as [[[exits st3] evs]|] eqn:R; [|discriminate].
  destruct (runGroup_sameItems schedule _ _ _ _ _
              (goroutines_useOnly faults sk _ total votes) R) as (Hb3 & _ & _).
  assert (Hb : bank st3 = bank st1) by congruence.
  destruct (concurrent.firstErr exits) as [err|];
    [intros [= <-]; right; left; eauto|].
  destruct (subRewards _ _) as [remaining|]; [|discriminate].
  destruct (sdk.TruncateDecimal remaining) as [[amt re]|]; [|discriminate].
  destruct (concurrent.sendFails faults ModuleName _ _) as [msg|];
    [intros [= <-]; right; left; eauto|].
  destruct (hasFunds _ amt); [|intros [= <-]; right; left; eauto].
  destruct (concurrent.feePoolSetFails faults _) as [msg|] eqn:HF; intros [= <-];
    right; right; (split; [reflexivity|]); exists amt; simpl; rewrite Hb;
    (split; [reflexivity|]); eauto.
Qed.

(** X6.  Coins only move between the three module accounts: whatever
    [AllocateTokens] returns, nil or an error, and however its goroutines
    were interleaved, the accounts hold together what they held before,
    in every denomination; and unless its first call, the transfer of
    line 30, failed, the fee collector has been emptied. *)
Theorem cycle_empties_fee_collector faults sk schedule total votes s s' denom :
  stateOf (concurrent.AllocateTokens faults sk schedule total votes s) = Some s' ->
  bankTotal (bank (store s')) denom = bankTotal (bank (store s)) denom /\
  (concurrent.sendFails faults feeCollectorName ModuleName (feeEnvelope s) = None ->
   sdk.AmountOf (feeCollector (bank (store s'))) denom = 0).
Proof.
  intros H. apply cycle_bank in H. cbn zeta in H.
  destruct H as [(msg & Hs & _ & ->)|[(Hs & Hb & _)|(Hs & amt & Hb & _)]].
  - split; [reflexivity|congruence].
  - rewrite Hb. split; [apply bankTotal_from_collector|].
    intros _. apply feeCollector_emptied.
  - rewrite Hb. split.
    + rewrite bankTotal_to_community. apply bankTotal_from_collector.
    + intros _. rewrite moveCoins_to_community. simpl. apply feeCollector_emptied.
Qed.

Lemma cycle_empties_fee_collector_witness :
  exists s',
    stateOf (concurrent.AllocateTokens concurrent.noFaults example.stakingKeeper
               (concurrent.alternate 3) 100
               [example.vote "consA" 70; example.vote "consZ" 30] example.genesis)
    = Some s' /\
    bankTotal (bank (store s')) example.stake
    = bankTotal (bank (store example.genesis)) example.stake.
Proof.
  eexists. split; [vm_compute; reflexivity|].
  refine (proj1 (cycle_empties_fee_collector concurrent.noFaults example.stakingKeeper
                   (concurrent.alternate 3) 100
                   [example.vote "consA" 70; example.vote "consZ" 30] example.genesis
                   _ example.stake _)).
  vm_compute. reflexivity.
Defined.

(** X7.  An error return has paid nothing to the community fund, with one
    exception: the error of the last call, [FeePool.Set] at line 97, comes
    after the payment of line 93, which is not undone. *)
Theorem error_return_pays_nothing faults sk schedule total votes s e s' :
  concurrent.AllocateTokens faults sk schedule total votes s = Err e s' ->
  protocolpool (bank (store s')) = protocolpool (bank (store s)) \/
  exists pool msg amt,
    concurrent.feePoolSetFails faults pool = Some msg /\ e = ErrOther msg /\
    protocolpool (bank (store s'))
    = sdk.safeAdd (protocolpool (bank (store s))) amt.
Proof.
  intros Hrun.
  assert (H : stateOf (concurrent.AllocateTokens faults sk schedule total votes s) = Some s')
    by (rewrite Hrun; reflexivity).
  apply cycle_bank in H. cbn zeta in H. rewrite Hrun in H.
  destruct H as [(msg & _ & _ & ->)|[(_ & Hb & _)|(_ & amt & Hb & [H|(pool & msg & HF & H)])]].
  - left. reflexivity.
  - left. rewrite Hb. reflexivity.
  - discriminate.
  - right. assert (e = ErrOther msg) as -> by congruence. exists pool, msg, amt.
    split; [exact HF|]. split; [reflexivity|]. rewrite Hb. reflexivity.
Qed.

(** A cycle whose second vote names a validator the directory does not
    know: the error is returned and the community fund has nothing. *)
Lemma error_return_pays_nothing_witness :
  exists s',
    concurrent.AllocateTokens concurrent.noFaults example.stakingKeeper [] 100
      [example.vote "consA" 70; example.vote "consZ" 30] example.genesis
    = Err (ErrOther "validator does not exist") s' /\
    (protocolpool (bank (store s')) = protocolpool (bank (store example.genesis)) \/
     exists pool msg amt,
       concurrent.feePoolSetFails concurrent.noFaults pool = Some msg /\
       ErrOther "validator does not exist" = ErrOther msg /\
       protocolpool (bank (store s'))
       = sdk.safeAdd (protocolpool (bank (store example.genesis))) amt).
Proof.
  eexists. split; [vm_compute; reflexivity|].
  apply (error_return_pays_nothing concurrent.noFaults example.stakingKeeper [] 100
           [example.vote "consA" 70; example.vote "consZ" 30] example.genesis).
  vm_compute. reflexivity.
Defined.

(** ** What a cycle that returns nil has allocated *)

Lemma nil_run_items sk total votes s s' :
  AllocateTokens sk total votes s = Ok tt s' ->
  is_Some (FeePool (store s)) /\ is_Some (Params (store s)).
Proof.
  rewrite AllocateTokens_eq. cbn zeta.
  destruct (sdk.NewDecCoinsFromCoins _); [|discriminate].
  destruct (FeePool (store s)); [|discriminate].
  destruct (Params (store s)); [|discriminate]. eauto.
Qed.

(** X8.  Every validator is credited with the rewards of its own votes:
    when no two votes name the same validator and the cycle returns nil,
    however the goroutines were interleaved, the outstanding rewards of a
    validator have grown by exactly the reward of the vote that names it,
    and those of every other validator are as before. *)
Theorem cycle_credits_each_validator faults sk schedule total votes s s' valBz denom :
  concurrent.distinctValidators sk votes ->
  concurrent.AllocateTokens faults sk schedule total votes s = Ok tt s' ->
  sdk.AmountOf (outstandingAt (store s') valBz) denom
  = sdk.AmountOf (outstandingAt (store s) valBz) denom
    + sumZ (map (voteShare sk (store s) total denom valBz) votes).
Proof.
  intros Hd Hrun.
  destruct (nil_run_in_some_order _ _ _ _ _ _ _ Hd Hrun) as (votes' & s'' & Hp & Hseq & Hst).
  destruct (nil_run_items _ _ _ _ _ Hseq) as [HFP HP].
  rewrite <- Hst.
  rewrite (outstanding_growth_in_list_order sk total votes' s s'' valBz denom HFP HP)
    by (rewrite Hseq; reflexivity).
  f_equal. apply sumZ_Permutation, fmap_Permutation. symmetry. exact Hp.
Qed.

Lemma cycle_credits_each_validator_witness :
  exists s',
    concurrent.AllocateTokens concurrent.noFaults example.stakingKeeper
      (concurrent.alternate 12) 100
      [example.vote "consA" 70; example.vote "consB" 30] example.genesis = Ok tt s' /\
    sdk.AmountOf (outstandingAt (store s') "A") example.stake
    = sdk.AmountOf (outstandingAt (store example.genesis) "A") example.stake
      + sumZ (map (voteShare example.stakingKeeper (store example.genesis) 100
                     example.stake "A")
                  [example.vote "consA" 70; example.vote "consB" 30]).
Proof.
  eexists. split; [vm_compute; reflexivity|].
  refine (cycle_credits_each_validator concurrent.noFaults example.stakingKeeper
            (concurrent.alternate 12) 100
            [example.vote "consA" 70; example.vote "consB" 30] example.genesis _
            "A" example.stake _ _).
  - apply (bool_decide_unpack _). vm_compute. reflexivity.
  - vm_compute. reflexivity.
Defined.

(** X11.  A cycle that returns nil has allocated no more than it
    collected: when no two votes name the same validator, however the
    goroutines were interleaved, in every denomination the voted
    validators together gained at most the envelope, the community fund
    received a non-negative amount, and the pool grew by a non-negative
    fraction below one unit. *)
Theorem cycle_never_over_allocates faults sk schedule total votes s s' denom :
  concurrent.distinctValidators sk votes ->
  concurrent.AllocateTokens faults sk schedule total votes s = Ok tt s' ->
  sumZ (map (outstandingDelta s s' denom) (votedValidators sk votes))
    <= LegacyNewDecFromInt (sdk.AmountOf (feeEnvelope s) denom) /\
  0 <= communityFundDelta s s' denom /\
  0 <= remainderPoolDelta s s' denom < precisionReuse.
Proof.
  intros Hd Hrun.
  destruct (nil_run_in_some_order _ _ _ _ _ _ _ Hd Hrun) as (votes' & s'' & Hp & Hseq & Hst).
  pose proof (no_over_allocation_in_list_order sk total votes' s s'' denom Hseq) as H.
  unfold outstandingDelta, communityFundDelta, remainderPoolDelta in *.
  rewrite Hst in H.
  rewrite (sumZ_Permutation _ _
             (fmap_Permutation _ _ _ (votedValidators_Permutation sk votes votes' Hd Hp))).
  exact H.
Qed.

Lemma cycle_never_over_allocates_witness :
  exists s',
    concurrent.AllocateTokens concurrent.noFaults example.stakingKeeper
      (concurrent.alternate 12) 100
      [example.vote "consA" 70; example.vote "consB" 30] example.genesis = Ok tt s' /\
    0 <= communityFundDelta example.genesis s' example.stake.
Proof.
  eexists. split; [vm_compute; reflexivity|].
  refine (proj1 (proj2 (cycle_never_over_allocates concurrent.noFaults example.stakingKeeper
            (concurrent.alternate 12) 100
            [example.vote "consA" 70; example.vote "consB" 30] example.genesis _
            example.stake _ _))).
  - apply (bool_decide_unpack _). vm_compute. reflexivity.
  - vm_compute. reflexivity.
Defined.

(** X16.  A cycle that returns nil keeps the relation between the
    accumulators: when no two votes name the same validator, however the
    goroutines were interleaved, every validator whose outstanding rewards
    equal its accumulated commission plus its current rewards before the
    cycle has them equal after it. *)
Theorem cycle_keeps_outstanding_relation faults sk schedule total votes s s' key :
  concurrent.distinctValidators sk votes ->
  outstandingRelation (store s) key ->
  concurrent.AllocateTokens faults sk schedule total votes s = Ok tt s' ->
  outstandingRelation (store s') key.
Proof.
  intros Hd Hrel Hrun.
  destruct (nil_run_in_some_order _ _ _ _ _ _ _ Hd Hrun) as (votes' & s'' & Hp & Hseq & Hst).
  rewrite <- Hst.
  apply (outstanding_relation_in_list_order sk total votes' s s'' key Hrel).
  rewrite Hseq. reflexivity.
Qed.

Lemma cycle_keeps_outstanding_relation_witness :
  exists s',
    concurrent.AllocateTokens concurrent.noFaults example.stakingKeeper
      (concurrent.alternate 12) 100
      [example.vote "consA" 70; example.vote "consB" 30] example.genesis = Ok tt s' /\
    outstandingRelation (store s') "A".
Proof.
  eexists. split; [vm_compute; reflexivity|].
  refine (cycle_keeps_outstanding_relation concurrent.noFaults example.stakingKeeper
            (concurrent.alternate 12) 100
            [example.vote "consA" 70; example.vote "consB" 30] example.genesis _
            "A" _ _ _).
  - apply (bool_decide_unpack _). vm_compute. reflexivity.
  - vm_compute. reflexivity.
  - vm_compute. reflexivity.
Defined.

(** ** A cycle without votes *)

Lemma runGroup_nil {A} schedule st :
  concurrent.runGroup schedule ([] : list (concurrent.Prog A)) st = Some ([], st, []).
Proof. induction schedule as [|i later IH]; simpl; [reflexivity|exact IH]. Qed.

(** X10.  With an empty vote list, a cycle that returns nil, whatever the
    total power is, has sent the whole envelope to the community fund: no
    accumulator record is written, and no amount of the distribution
    account or of the pool has changed. *)
Theorem cycle_without_votes faults sk schedule total s s' :
  concurrent.AllocateTokens faults sk schedule total [] s = Ok tt s' ->
  ValidatorsAccumulatedCommission (store s') = ValidatorsAccumulatedCommission (store s) /\
  ValidatorCurrentRewards (store s') = ValidatorCurrentRewards (store s) /\
  ValidatorOutstandingRewards (store s') = ValidatorOutstandingRewards (store s) /\
  forall denom,
    communityFundDelta s s' denom = sdk.AmountOf (feeEnvelope s) denom /\
    remainderPoolDelta s s' denom = 0 /\
    sdk.AmountOf (distribution (bank (store s'))) denom
    = sdk.AmountOf (distribution (bank (store s))) denom.
Proof.
  rewrite concurrent_AllocateTokens_eq. cbn zeta. unfold feeEnvelope.
  destruct (sdk.NewDecCoinsFromCoins _) as [feesCollected|] eqn:HN; [|discriminate].
  apply NewDecCoinsFromCoins_Some in HN as (_ & _ & HN).
  destruct (concurrent.sendFails faults feeCollectorName _ _); [discriminate|].
  destruct (concurrent.feePoolGetFails faults); [discriminate|].
  destruct (FeePool (store s)) as [feePool|] eqn:HFP; [|discriminate].
  destruct (if bool_decide (total = 0) then _ else None); [discriminate|].
  destruct (concurrent.paramsGetFails faults); [discriminate|].
  destruct (Params (store s)) as [params|]; [|discriminate].
  simpl map. rewrite runGroup_nil. simpl.
  destruct (sdk.TruncateDecimal feesCollected) as [[amt re]|] eqn:HT; [|discriminate].
  destruct (concurrent.sendFails faults ModuleName _ _); [discriminate|].
  set (st1 := withBank (store s) _).
  set (st2 := if bool_decide (total = 0) then _ else st1).
  assert (bank st2 = moveCoins (bank (store s)) feeCollectorName ModuleName
                       (feeCollector (bank (store s))) /\
          ValidatorsAccumulatedCommission st2 = ValidatorsAccumulatedCommission (store s) /\
          ValidatorCurrentRewards st2 = ValidatorCurrentRewards (store s) /\
          ValidatorOutstandingRewards st2 = ValidatorOutstandingRewards (store s))
    as (Hb2 & H1 & H2 & H3).
  { unfold st2. case_bool_decide; auto. }
  destruct (hasFunds _ amt); [|discriminate].
  destruct (concurrent.feePoolSetFails faults _); [discriminate|].
  intros [= <-]. simpl. rewrite H1, H2, H3.
  assert (forall d, sdk.AmountOf amt d = sdk.AmountOf (feeCollector (bank (store s))) d)
    as Hamt.
  { intros d. destruct (TruncateDecimal_amounts _ _ _ d HT) as (_ & -> & _).
    rewrite HN. unfold LegacyNewDecFromInt.
    apply Z.quot_mul. rewrite precisionReuse_val. lia. }
  repeat split; try reflexivity.
  - unfold communityFundDelta. simpl. rewrite AmountOf_safeAdd, Hamt, Hb2. simpl. lia.
  - unfold remainderPoolDelta, decimalPool. simpl. rewrite HFP, AmountOf_Add.
    destruct (TruncateDecimal_amounts _ _ _ denom HT) as (_ & _ & -> & _).
    rewrite HN. unfold LegacyNewDecFromInt.
    rewrite Z.rem_mul by (rewrite precisionReuse_val; lia). lia.
  - rewrite !AmountOf_safeAdd, AmountOf_negative, Hamt, Hb2. simpl.
    rewrite AmountOf_safeAdd. lia.
Qed.

Lemma cycle_without_votes_witness :
  exists s',
    concurrent.AllocateTokens concurrent.noFaults example.stakingKeeper [] 0 []
      example.genesis = Ok tt s' /\
    communityFundDelta example.genesis s' example.stake = 100.
Proof.
  eexists. split; [vm_compute; reflexivity|].
  refine (proj1 (proj2 (proj2 (proj2
            (cycle_without_votes concurrent.noFaults example.stakingKeeper [] 0
               example.genesis _ _))) example.stake)).
  vm_compute. reflexivity.
Defined.

(** ** The flush, with a bank and a store that may fail *)

(** X13.  A flush that returns an error has left the fee pool as it was.
    It has changed nothing at all, unless the error is that of its last
    call, [FeePool.Set] at line 184: then the whole units have been paid
    to the community fund at line 180 and are still counted in the
    pool. *)
Theorem flush_error_changes_nothing faults s e s' :
  concurrent.SendDecimalPoolToCommunityPool faults s = Err e s' ->
  FeePool (store s') = FeePool (store s) /\
  (s' = s \/
   exists amt re msg,
     sdk.TruncateDecimal (decimalPool (store s)) = Some (amt, re) /\
     concurrent.feePoolSetFails faults {| DecimalPool := re |} = Some msg /\
     e = ErrOther msg /\
     bank (store s') = moveCoins (bank (store s)) ModuleName protocolpoolModuleName amt).
Proof.
  unfold concurrent.SendDecimalPoolToCommunityPool, bind, concurrent.FeePool_Get, decimalPool.
  destruct (concurrent.feePoolGetFails faults); [intros [= _ <-]; auto|].
  simpl concurrent.failing. unfold FeePool_Get.
  destruct (FeePool (store s)) as [feePool|] eqn:HFP; [|intros [= _ <-]; auto].
  destruct (sdk.IsZero _); [discriminate|].
  destruct (sdk.TruncateDecimal _) as [[amt re]|]; [|discriminate]. simpl.
  unfold concurrent.SendCoinsFromModuleToModule.
  destruct (concurrent.sendFails faults ModuleName _ _); [intros [= _ <-]; auto|].
  simpl concurrent.failing. rewrite SendCoinsFromModuleToModule_eq.
  destruct (hasFunds _ amt); [|intros [= _ <-]; auto].
  unfold concurrent.FeePool_Set.
  destruct (concurrent.feePoolSetFails faults _) as [msg|] eqn:HF; [|discriminate].
  intros [= <- <-]. simpl. split; [exact HFP|]. right. eauto 8.
Qed.

(** A pool of 12.5 stake and a distribution account holding 5 stake:
    insufficient funds, and the fee pool is as it was. *)
Lemma flush_error_changes_nothing_witness :
  exists s',
    concurrent.SendDecimalPoolToCommunityPool concurrent.noFaults
      (flushExample {[ example.stake := 12500000000000000000 ]})
    = Err ErrInsufficientFunds s' /\
    FeePool (store s')
    = FeePool (store (flushExample {[ example.stake := 12500000000000000000 ]})).
Proof.
  eexists. split; [vm_compute; reflexivity|].
  refine (proj1 (flush_error_changes_nothing concurrent.noFaults
                   (flushExample {[ example.stake := 12500000000000000000 ]})
                   ErrInsufficientFunds _ _)).
  vm_compute. reflexivity.
Defined.
